(** * piper knowledge base: chunking, identifiers, embedding batches,
      vector-store adapter and orchestrator

    A shallow embedding of [scripts/knowledge-base/kb_modules]:
    - [document_processor.py]: [read_file], [chunk_text];
    - [versioning.py]: [create_versioned_id] (with [uuid.uuid5], SHA-1);
    - [embeddings.py]: [get_embeddings_batch];
    - [vector_store.py]: [add_points], [query], [get_document_versions];
    - [knowledge_base.py]: [_process_chunks], [add_document].

    Python integers are [Z]; a Python [str] is the list of its characters,
    taken from the 8-bit range ([list ascii]); a loop that the source
    writes as [while] runs on fuel and answers [None] when the fuel is
    spent before the loop condition turns false. *)

From Stdlib Require Import ZArith List Bool Ascii String Lia Arith QArith.
From Stdlib Require Import DecimalString DecimalZ.
From Stdlib Require Import Sorting.Sorted Sorting.Permutation RelationClasses.
Import ListNotations.

Local Open Scope Z_scope.

(** ** Python primitives *)

Module Py.

(** A Python [str]. *)
Definition str := list ascii.

(** A string literal as a Python [str]. *)
Definition s (x : string) : str := list_ascii_of_string x.

Definition len {A} (l : list A) : Z := Z.of_nat (List.length l).

(** Normalisation of a slice bound, as CPython's [PySlice_AdjustIndices]
    for step 1: a negative bound counts from the end and is clamped at 0,
    a bound past the end is clamped at the length. *)
Definition adjust (n i : Z) : Z :=
  if i <? 0 then Z.max 0 (i + n) else Z.min i n.

(** [l[i:j]]. *)
Definition slice {A} (l : list A) (i j : Z) : list A :=
  let n := len l in
  let a := adjust n i in
  let b := adjust n j in
  firstn (Z.to_nat (b - a)) (skipn (Z.to_nat a) l).

(** [l[:j]]. *)
Definition slice_to {A} (l : list A) (j : Z) : list A := slice l 0 j.

(** The highest index [k] with [lo <= k < Z.of_nat hi] and [text[k] = c],
    or [-1]. *)
Fixpoint rfind_below (text : str) (c : ascii) (lo : Z) (hi : nat) : Z :=
  match hi with
  | O => -1
  | S k =>
      if (lo <=? Z.of_nat k)
         && match nth_error text k with
            | Some x => Ascii.eqb x c
            | None => false
            end
      then Z.of_nat k
      else rfind_below text c lo k
  end.

(** [text.rfind(c, start, end)] for a one-character [c]. *)
Definition rfind (text : str) (c : ascii) (start end_ : Z) : Z :=
  let n := len text in
  rfind_below text c (adjust n start) (Z.to_nat (adjust n end_)).

(** [range(0, stop, step)] for [step > 0], with the length CPython
    computes for it: [(stop + step - 1) // step]. *)
Definition range0 (stop step : nat) : list nat :=
  map (fun k => (k * step)%nat) (seq 0 ((stop + step - 1) / step)).

(** [str(n)] for an integer. *)
Definition str_of_int (n : Z) : str :=
  list_ascii_of_string (NilZero.string_of_int (Z.to_int n)).
End Py.

(** ** Python's [sorted] and insertion-ordered [dict] *)

Module PyData.
Import Py.

Definition str_eq_dec : forall a b : str, {a = b} + {a <> b} :=
  list_eq_dec ascii_dec.

Section Sorted.
Context {A : Type}.
(** [leb a b]: [a <= b] in the order of the sort key. *)
Variable leb : A -> A -> bool.

(** Insertion of [x], which precedes every element of [l] in the input:
    [x] goes in front of the first element that is not greater. *)
Fixpoint insert_desc (x : A) (l : list A) : list A :=
  match l with
  | [] => [x]
  | y :: l' => if leb y x then x :: y :: l' else y :: insert_desc x l'
  end.

(** [sorted(l, reverse=True)]: descending, equal elements in input
    order. *)
Definition sorted_desc (l : list A) : list A :=
  fold_right insert_desc [] l.
End Sorted.

Section Dict.
Context {K V : Type}.
Variable eq_dec : forall a b : K, {a = b} + {a <> b}.

(** A [dict] as the list of its items in insertion order. *)
Definition dict := list (K * V).

Fixpoint dict_get (k : K) (d : dict) : option V :=
  match d with
  | [] => None
  | (k', v) :: d' => if eq_dec k k' then Some v else dict_get k d'
  end.

(** [d[k] = v]: an existing key keeps its place. *)
Fixpoint dict_set (k : K) (v : V) (d : dict) : dict :=
  match d with
  | [] => [(k, v)]
  | (k', v') :: d' =>
      if eq_dec k k' then (k, v) :: d' else (k', v') :: dict_set k v d'
  end.
End Dict.

(** [a <= b] on strings, by code point. *)
Fixpoint str_leb (a b : str) : bool :=
  match a, b with
  | [], _ => true
  | _ :: _, [] => false
  | x :: a', y :: b' =>
      if (N_of_ascii x <? N_of_ascii y)%N then true
      else if (N_of_ascii y <? N_of_ascii x)%N then false
      else str_leb a' b'
  end.
End PyData.

(** ** document_processor.py *)

Module DocumentProcessor.
Import Py.

Definition newline : ascii := "010"%char.
Definition space : ascii := " "%char.

(** The right edge of the window that starts at [start]: lines 108-122. *)
Definition window_end (text : str) (max_size start : Z) : Z :=
  let end_ := Z.min (start + max_size) (len text) in
  if end_ <? len text then
    let newline_pos := rfind text newline start end_ in
    if newline_pos >? start + max_size / 2 then newline_pos + 1
    else
      let space_pos := rfind text space (start + max_size / 2) end_ in
      if space_pos >? start then space_pos + 1 else end_
  else end_.

(** The start of the next window: line 130. *)
Definition next_start (text : str) (max_size overlap start : Z) : Z :=
  window_end text max_size start - overlap.

(** The [while start < len(text)] loop of lines 107-130. *)
Fixpoint chunk_loop (fuel : nat) (text : str) (max_size overlap start : Z)
    (chunks : list str) : option (list str) :=
  if start <? len text then
    match fuel with
    | O => None
    | S fuel' =>
        let end_ := window_end text max_size start in
        let chunk := slice text start end_ in
        chunk_loop fuel' text max_size overlap (end_ - overlap)
                   (chunks ++ [chunk])
    end
  else Some chunks.

(** [chunk_text]: lines 80-137. *)
Definition chunk_text (fuel : nat) (text : str) (max_size overlap : Z)
    : option (list str) :=
  match text with
  | [] => Some []
  | _ =>
      if len text <=? max_size then Some [text]
      else chunk_loop fuel text max_size overlap 0 []
  end.

(** A file: its size in bytes, whether it can be opened, its decoded
    text. *)
Record File := {
  st_size : Z;
  readable : bool;
  content : str
}.

Inductive ReadError := FileNotFoundError | ValueError | OpenError.

(** [read_file] (document_processor.py, lines 28-77).  The size test
    [st_size / (1024 * 1024) > max_size_mb] is taken over the integers. *)
Definition read_file (fs : str -> option File) (file_path : str)
    (max_size_mb : Z) : ReadError + str :=
  match fs file_path with
  | None => inl FileNotFoundError
  | Some f =>
      if st_size f >? max_size_mb * (1024 * 1024) then inl ValueError
      else if readable f then inr (content f)
      else inl OpenError
  end.
End DocumentProcessor.

(** ** hashlib.sha1 and uuid.uuid5

    [create_versioned_id] calls [uuid.uuid5], which hashes with SHA-1
    (FIPS 180-4).  Bytes are integers in [0, 256). *)

Module Sha1.
Import Py.

Definition bytes := list Z.

Definition mask32 : Z := 0xFFFFFFFF.
Definition add32 (a b : Z) : Z := Z.land (a + b) mask32.
Definition rotl32 (n x : Z) : Z :=
  Z.land (Z.lor (Z.shiftl x n) (Z.shiftr x (32 - n))) mask32.
Definition not32 (x : Z) : Z := Z.lxor x mask32.

(** [x.to_bytes(n, 'big')]. *)
Definition to_bytes_be (n : nat) (x : Z) : bytes :=
  map (fun k => Z.shiftr x (8 * Z.of_nat k) mod 256) (rev (seq 0 n)).

(** [int.from_bytes(bs, 'big')]. *)
Definition from_bytes_be (bs : bytes) : Z :=
  fold_left (fun acc b => acc * 256 + b) bs 0.

(** Message padding: a 1 bit, zeros up to 56 mod 64, the bit length. *)
Definition pad (msg : bytes) : bytes :=
  let l := len msg in
  msg ++ [0x80] ++ repeat 0 (Z.to_nat ((55 - l) mod 64))
      ++ to_bytes_be 8 (8 * l).

Fixpoint words_be (fuel : nat) (bs : bytes) : list Z :=
  match fuel, bs with
  | S f, b0 :: b1 :: b2 :: b3 :: rest =>
      from_bytes_be [b0; b1; b2; b3] :: words_be f rest
  | _, _ => []
  end.

Fixpoint blocks (fuel : nat) (ws : list Z) : list (list Z) :=
  match fuel, ws with
  | _, [] => []
  | O, _ => []
  | S f, _ => firstn 16 ws :: blocks f (skipn 16 ws)
  end.

(** The message schedule, most recent word first. *)
Fixpoint schedule (n : nat) (rev_ws : list Z) : list Z :=
  match n with
  | O => rev_ws
  | S n' =>
      let w := rotl32 1 (Z.lxor (Z.lxor (nth 2 rev_ws 0) (nth 7 rev_ws 0))
                                (Z.lxor (nth 13 rev_ws 0) (nth 15 rev_ws 0)))
      in schedule n' (w :: rev_ws)
  end.

Definition state := (Z * Z * Z * Z * Z)%type.

Definition round (t : nat) (st : state) (w : Z) : state :=
  let '(a, b, c, d, e) := st in
  let '(f, k) :=
    if (t <? 20)%nat then
      (Z.lor (Z.land b c) (Z.land (not32 b) d), 0x5A827999)
    else if (t <? 40)%nat then
      (Z.lxor (Z.lxor b c) d, 0x6ED9EBA1)
    else if (t <? 60)%nat then
      (Z.lor (Z.lor (Z.land b c) (Z.land b d)) (Z.land c d), 0x8F1BBCDC)
    else (Z.lxor (Z.lxor b c) d, 0xCA62C1D6) in
  let temp := add32 (add32 (add32 (add32 (rotl32 5 a) f) e) k) w in
  (temp, a, rotl32 30 b, c, d).

Fixpoint rounds (t : nat) (ws : list Z) (st : state) : state :=
  match ws with
  | [] => st
  | w :: ws' => rounds (S t) ws' (round t st w)
  end.

Definition compress (h : state) (block : list Z) : state :=
  let ws := rev (schedule 64 (rev block)) in
  let '(h0, h1, h2, h3, h4) := h in
  let '(a, b, c, d, e) := rounds 0 ws h in
  (add32 h0 a, add32 h1 b, add32 h2 c, add32 h3 d, add32 h4 e).

Definition init : state :=
  (0x67452301, 0xEFCDAB89, 0x98BADCFE, 0x10325476, 0xC3D2E1F0).

(** [hashlib.sha1(msg).digest()]. *)
Definition sha1 (msg : bytes) : bytes :=
  let p := pad msg in
  let ws := words_be (List.length p) p in
  let '(h0, h1, h2, h3, h4) :=
    fold_left compress (blocks (List.length ws) ws) init in
  to_bytes_be 4 h0 ++ to_bytes_be 4 h1 ++ to_bytes_be 4 h2
    ++ to_bytes_be 4 h3 ++ to_bytes_be 4 h4.
End Sha1.

Module Uuid.
Import Py Sha1.

(** [str.encode('utf-8')] on characters below U+0100: one byte below
    U+0080, two bytes from there on. *)
Definition encode_char (c : ascii) : bytes :=
  let n := Z.of_N (N_of_ascii c) in
  if n <? 128 then [n]
  else [Z.lor 0xC0 (Z.shiftr n 6); Z.lor 0x80 (Z.land n 0x3F)].

Definition encode (x : str) : bytes := flat_map encode_char x.

(** [uuid.NAMESPACE_URL] and [uuid.NAMESPACE_DNS], as [UUID.int]. *)
Definition NAMESPACE_URL : Z := 0x6ba7b8119dad11d180b400c04fd430c8.
Definition NAMESPACE_DNS : Z := 0x6ba7b8109dad11d180b400c04fd430c8.

(** [UUID(bytes=..., version=v).int]: the RFC 4122 variant and the
    version are written over the corresponding bits. *)
Definition set_version (version : Z) (i : Z) : Z :=
  let i := Z.land i (Z.lnot (Z.shiftl 0xc000 48)) in
  let i := Z.lor i (Z.shiftl 0x8000 48) in
  let i := Z.land i (Z.lnot (Z.shiftl 0xf000 64)) in
  Z.lor i (Z.shiftl version 76).

(** The 128 bits of the digest that [uuid5] keeps. *)
Definition digest128 (namespace : Z) (name : str) : Z :=
  from_bytes_be (firstn 16 (sha1 (to_bytes_be 16 namespace ++ encode name))).

(** [uuid.uuid5(namespace, name).int]. *)
Definition uuid5 (namespace : Z) (name : str) : Z :=
  set_version 5 (digest128 namespace name).

Definition hex_digit (d : Z) : ascii :=
  nth (Z.to_nat d) (s "0123456789abcdef") "0"%char.

(** ['%0nx' % x]. *)
Definition hex (n : nat) (x : Z) : str :=
  map (fun k => hex_digit (Z.shiftr x (4 * Z.of_nat k) mod 16)) (rev (seq 0 n)).

(** [str(UUID(int=i))]. *)
Definition uuid_str (i : Z) : str :=
  let h := hex 32 i in
  slice h 0 8 ++ s "-" ++ slice h 8 12 ++ s "-" ++ slice h 12 16 ++ s "-"
    ++ slice h 16 20 ++ s "-" ++ slice h 20 32.
End Uuid.

(** ** versioning.py *)

Module Versioning.
Import Py Uuid.

(** [f"{path}_{timestamp}_{chunk_index}"]: line 137. *)
Definition versioned_name (path : str) (timestamp chunk_index : Z) : str :=
  path ++ s "_" ++ str_of_int timestamp ++ s "_" ++ str_of_int chunk_index.

(** [VersionManager.create_versioned_id]: lines 136-138. *)
Definition create_versioned_id (path : str) (timestamp chunk_index : Z) : str :=
  let namespace := NAMESPACE_URL in
  let name := versioned_name path timestamp chunk_index in
  uuid_str (uuid5 namespace name).

(** [VersionManager.get_versioned_id], an alias: line 120. *)
Definition get_versioned_id (base_id : str) (timestamp chunk_index : Z) : str :=
  create_versioned_id base_id timestamp chunk_index.
End Versioning.

(** ** embeddings.py *)

Module Embeddings.
Import Py DocumentProcessor.

(** An embedding; its floats are kept as rationals. *)
Definition vector := list Q.

(** What one call of [openai.embeddings.create] does: it answers with
    [response.data], or raises.  [RateLimitError], [APITimeoutError] and
    [APIConnectionError] are subclasses of [OpenAIError]; [OtherError] is
    any exception outside that hierarchy. *)
Inductive ApiOutcome :=
| Response (data : list vector)
| RateLimitError
| APITimeoutError
| APIConnectionError
| OpenAIError
| OtherError.

(** The provider: the outcome of the [n]-th call, given its input. *)
Definition Api := nat -> list str -> ApiOutcome.

(** [config["embedding_dimensions"]] (config.py). *)
Definition EMBEDDING_DIMENSIONS : nat := 3072.

(** [[0.0] * config["embedding_dimensions"]]. *)
Definition placeholder : vector := repeat 0%Q EMBEDDING_DIMENSIONS.

(** [text.replace("\n", " ")[:8191]]: line 141. *)
Definition clean (text : str) : str :=
  slice_to (map (fun c => if Ascii.eqb c newline then space else c) text) 8191.

(** The [for attempt in range(self.max_retries)] loop of lines 144-191 for
    one sub-batch of [n] texts: what it appends to [embeddings], and the
    number of API calls made so far.  Sleeping is not modelled. *)
Fixpoint attempts (api : Api) (max_retries : nat) (cleaned : list str)
    (n : nat) (left attempt calls : nat) : list vector * nat :=
  match left with
  | O => ([], calls)
  | S left' =>
      match api calls cleaned with
      | Response data => (data, S calls)
      | RateLimitError | APITimeoutError | APIConnectionError =>
          attempts api max_retries cleaned n left' (S attempt) (S calls)
      | OpenAIError =>
          if (Z.of_nat attempt <? Z.of_nat max_retries - 1)%Z then
            attempts api max_retries cleaned n left' (S attempt) (S calls)
          else
            let '(more, calls') :=
              attempts api max_retries cleaned n left' (S attempt) (S calls) in
            (repeat placeholder n ++ more, calls')
      | OtherError => (repeat placeholder n, S calls)
      end
  end.

(** The [for i in range(0, len(texts), chunk_size)] loop of line 136. *)
Fixpoint batch_loop (api : Api) (max_retries chunk_size : nat)
    (texts : list str) (starts : list nat) (embeddings : list vector)
    (calls : nat) : list vector * nat :=
  match starts with
  | [] => (embeddings, calls)
  | i :: starts' =>
      let chunk := slice texts (Z.of_nat i) (Z.of_nat i + Z.of_nat chunk_size) in
      let cleaned_texts := map clean chunk in
      let '(out, calls') :=
        attempts api max_retries cleaned_texts (List.length chunk)
                 max_retries 0 calls in
      batch_loop api max_retries chunk_size texts starts'
                 (embeddings ++ out) calls'
  end.

(** [EmbeddingGenerator.get_embeddings_batch]; [None] is the [ValueError]
    of [range] for a zero step. *)
Definition get_embeddings_batch (api : Api) (max_retries : nat)
    (texts : list str) (chunk_size : nat) (calls : nat)
    : option (list vector * nat) :=
  match chunk_size with
  | O => None
  | _ =>
      Some (batch_loop api max_retries chunk_size texts
              (range0 (List.length texts) chunk_size) [] calls)
  end.

(** The module-level [get_embeddings]: the default generator
    ([max_retries = 5], [chunk_size = 16]), zero vectors on an exception. *)
Definition get_embeddings (api : Api) (texts : list str) (calls : nat)
    : list vector * nat :=
  match get_embeddings_batch api 5 texts 16 calls with
  | Some r => r
  | None => (map (fun _ => placeholder) texts, calls)
  end.
End Embeddings.

(** ** The vector database, as far as the adapter uses it *)

Module Qdrant.
Import Py PyData Embeddings.

(** [metadata]: a mapping from string keys to string values. *)
Definition Metadata := list (str * str).

(** A payload; a key is either absent ([None]) or holds a value of its
    usual type. *)
Record Payload := {
  text : option str;
  metadata : option Metadata;
  timestamp : option Z;
  version_date : option str;
  chunk_index : option Z;
  total_chunks : option Z
}.

(** [models.PointStruct], also what [scroll] returns. *)
Record PointStruct := {
  id : str;
  vector_ : vector;
  payload : option Payload
}.

(** [models.ScoredPoint]. *)
Record ScoredPoint := {
  hit_id : str;
  hit_payload : option Payload;
  score : Q
}.

(** The stored points of one collection, in the order in which
    [client.scroll] returns them: the database's, by point id.  The ids
    the code makes are canonical UUID strings, which compare by code point
    as the UUIDs do. *)
Definition Store := list PointStruct.

Definition metadata_path (pl : Payload) : option str :=
  match metadata pl with
  | Some m => dict_get str_eq_dec (s "path") m
  | None => None
  end.

(** [client.scroll] with the filter [metadata.path == path]: the first
    [limit] matching points. *)
Definition path_matches (path : str) (p : PointStruct) : bool :=
  match payload p with
  | Some pl =>
      match metadata_path pl with
      | Some q => if str_eq_dec q path then true else false
      | None => false
      end
  | None => false
  end.

Definition scroll (store : Store) (path : str) (limit : nat) : list PointStruct :=
  firstn limit (filter (path_matches path) store).

(** Where an upserted point goes: in front of the first stored point
    whose id is not smaller. *)
Fixpoint insert_by_id (p : PointStruct) (store : Store) : Store :=
  match store with
  | [] => [p]
  | q :: store' =>
      if str_leb (id p) (id q) then p :: q :: store'
      else q :: insert_by_id p store'
  end.

(** [client.upsert] of one point: a stored point with its id is replaced,
    and the point takes its place in the order of ids. *)
Definition upsert_point (store : Store) (p : PointStruct) : Store :=
  insert_by_id p
    (filter (fun q => if str_eq_dec (id q) (id p) then false else true)
       store).

Definition upsert (store : Store) (points : list PointStruct) : Store :=
  fold_left upsert_point points store.
End Qdrant.

(** ** vector_store.py *)

Module VectorStore.
Import Py PyData Embeddings Qdrant.

Definition MAX_BATCH_SIZE : nat := 100.
Definition MAX_RETRIES : nat := 3.

(** *** add_points *)

(** What the adapter can change or observe: the store, the number of
    [client.upsert] calls made, the [points=] argument of each of them in
    order, the seconds slept. *)
Record World := {
  store : Store;
  upsert_calls : nat;
  requests : list (list PointStruct);
  slept : list Z
}.

(** The exception classes [add_points] tells apart. *)
Inductive UpsertError := QdrantException | UnexpectedError.

(** The database: whether the [n]-th [client.upsert] call raises.  A call
    that raises stores nothing. *)
Definition Upserts := nat -> option UpsertError.

Inductive BatchOutcome := Uploaded | GaveUp | RangeExhausted.

(** The [for attempt in range(MAX_RETRIES)] loop of lines 175-202. *)
Fixpoint upload_batch (db : Upserts) (batch : list PointStruct)
    (left attempt : nat) (w : World) : BatchOutcome * World :=
  match left with
  | O => (RangeExhausted, w)
  | S left' =>
      match db (upsert_calls w) with
      | None =>
          (Uploaded,
           {| store := upsert (store w) batch;
              upsert_calls := S (upsert_calls w);
              requests := requests w ++ [batch];
              slept := slept w |})
      | Some _ =>
          if (Z.of_nat attempt <? Z.of_nat MAX_RETRIES - 1)%Z then
            let wait_time := 2 ^ Z.of_nat attempt in
            upload_batch db batch left' (S attempt)
              {| store := store w;
                 upsert_calls := S (upsert_calls w);
                 requests := requests w ++ [batch];
                 slept := slept w ++ [wait_time] |}
          else
            (GaveUp,
             {| store := store w;
                upsert_calls := S (upsert_calls w);
                requests := requests w ++ [batch];
                slept := slept w |})
      end
  end.

(** [points[i:i+batch_size]]. *)
Definition batch_at {A} (points : list A) (batch_size i : nat) : list A :=
  slice points (Z.of_nat i) (Z.of_nat i + Z.of_nat batch_size).

(** The [for i in range(0, len(points), batch_size)] loop of line 170:
    [inl w] when a batch gave up ([return False]), otherwise the count of
    successful batches. *)
Fixpoint upload_loop (db : Upserts) (points : list PointStruct)
    (batch_size : nat) (starts : list nat) (successful_batches : nat)
    (w : World) : World + (nat * World) :=
  match starts with
  | [] => inr (successful_batches, w)
  | i :: starts' =>
      let batch := batch_at points batch_size i in
      match upload_batch db batch MAX_RETRIES 0 w with
      | (Uploaded, w') =>
          upload_loop db points batch_size starts' (S successful_batches) w'
      | (GaveUp, w') => inl w'
      | (RangeExhausted, w') =>
          upload_loop db points batch_size starts' successful_batches w'
      end
  end.

(** [VectorStore.add_points]. *)
Definition add_points (db : Upserts) (points : list PointStruct) (w : World)
    : bool * World :=
  match points with
  | [] => (true, w)
  | _ =>
      let batch_size := Nat.min MAX_BATCH_SIZE (List.length points) in
      let total_batches := ((List.length points - 1) / batch_size + 1)%nat in
      match upload_loop db points batch_size
              (range0 (List.length points) batch_size) 0 w with
      | inl w' => (false, w')
      | inr (successful_batches, w') =>
          ((successful_batches =? total_batches)%nat, w')
      end
  end.

(** *** query *)

(** [metadata.get("path", "unknown")], ["unknown"] also without metadata. *)
Definition path_of (pl : Payload) : str :=
  match metadata_path pl with
  | Some p => p
  | None => s "unknown"
  end.

(** [payload.get("timestamp", 0)]. *)
Definition timestamp_of (pl : Payload) : Z :=
  match timestamp pl with
  | Some t => t
  | None => 0
  end.

(** The [existing_timestamp] of lines 289-292. *)
Definition hit_timestamp (hit : ScoredPoint) : Z :=
  match hit_payload hit with
  | Some pl => timestamp_of pl
  | None => 0
  end.

Definition PathGroups := list (str * (ScoredPoint * Q)).

(** One turn of the [for hit in search_result] loop of lines 275-295. *)
Definition group_hit (path_groups : PathGroups) (hit : ScoredPoint)
    : PathGroups :=
  match hit_payload hit with
  | None => path_groups
  | Some pl =>
      let path := path_of pl in
      let timestamp := timestamp_of pl in
      match dict_get str_eq_dec path path_groups with
      | None => dict_set str_eq_dec path (hit, score hit) path_groups
      | Some (existing_hit, existing_score) =>
          let existing_timestamp := hit_timestamp existing_hit in
          if timestamp >? existing_timestamp
          then dict_set str_eq_dec path (hit, score hit) path_groups
          else path_groups
      end
  end.

Definition score_leb (a b : ScoredPoint * Q) : bool :=
  Qle_bool (snd a) (snd b).

(** The latest-only post-processing of lines 271-299. *)
Definition latest_only_filter (search_result : list ScoredPoint) (limit : Z)
    : list ScoredPoint :=
  let path_groups := fold_left group_hit search_result [] in
  let results_by_score :=
    slice_to (sorted_desc score_leb (map snd path_groups)) limit in
  map fst results_by_score.

(** One entry of the list [query] returns. *)
Record QueryResult := {
  r_text : str;
  r_metadata : Metadata;
  r_score : Q;
  r_timestamp : option Z;
  r_version_date : option str;
  r_chunk_index : option Z;
  r_total_chunks : option Z
}.

(** Lines 303-319. *)
Definition format_hit (hit : ScoredPoint) : list QueryResult :=
  match hit_payload hit with
  | None => []
  | Some pl =>
      [{| r_text := match text pl with Some x => x | None => [] end;
          r_metadata := match metadata pl with Some m => m | None => [] end;
          r_score := score hit;
          r_timestamp := timestamp pl;
          r_version_date := version_date pl;
          r_chunk_index := chunk_index pl;
          r_total_chunks := total_chunks pl |}]
  end.

(** [VectorStore.query].  [search n] is the answer of [client.search]
    for the embedded query text, the filters and [limit = n], or [None]
    when it raises. *)
Definition query (search : Z -> option (list ScoredPoint)) (limit : Z)
    (latest_only : bool) : list QueryResult :=
  match search (if latest_only then limit * 3 else limit) with
  | None => []
  | Some search_result =>
      let search_result :=
        if latest_only then latest_only_filter search_result limit
        else search_result in
      flat_map format_hit search_result
  end.

(** *** get_document_versions *)

Definition pair_leb (a b : Z * str) : bool :=
  if fst a <? fst b then true
  else if fst b <? fst a then false
  else str_leb (snd a) (snd b).

Section Versions.
(** [format_timestamp] (versioning.py) renders local time; [None] when
    [datetime.fromtimestamp] raises. *)
Variable format_timestamp : Z -> option str.

(** One turn of the loop of lines 366-372; [None] when it raises. *)
Definition collect_version (versions : list (Z * str)) (point : PointStruct)
    : option (list (Z * str)) :=
  match payload point with
  | None => Some versions
  | Some pl =>
      match timestamp pl with
      | None => Some versions
      | Some ts =>
          if negb (ts =? 0)
             && (match chunk_index pl with Some c => c | None => 0 end =? 0)
          then
            match format_timestamp ts with
            | None => None
            | Some formatted =>
                let date :=
                  match version_date pl with
                  | Some d => d
                  | None => formatted
                  end in
                Some (dict_set Z.eq_dec ts date versions)
            end
          else Some versions
      end
  end.

Fixpoint collect_versions (versions : list (Z * str))
    (points : list PointStruct) : option (list (Z * str)) :=
  match points with
  | [] => Some versions
  | point :: points' =>
      match collect_version versions point with
      | None => None
      | Some versions' => collect_versions versions' points'
      end
  end.

(** [VectorStore.get_document_versions]. *)
Definition get_document_versions (store : Store) (path : str)
    : list (Z * str) :=
  let points := scroll store path 100 in
  match collect_versions [] points with
  | None => []
  | Some versions => sorted_desc pair_leb versions
  end.
End Versions.
End VectorStore.

(** ** knowledge_base.py *)

Module KnowledgeBase.
Import Py PyData DocumentProcessor Versioning Embeddings Qdrant VectorStore.

(** [DocumentProcessor.__init__]. *)
Record Processor := {
  max_chunk_size : Z;
  chunk_overlap : Z;
  max_file_size_mb : Z
}.

(** What surrounds the knowledge base: the files, the embedding provider,
    the vector database, the clock and the local-time formatter. *)
Record Env := {
  fs : str -> option File;
  api : Api;
  db : Upserts;
  now : Z;
  format_timestamp : Z -> option str
}.

Record KbWorld := {
  vector_store : World;
  api_calls : nat
}.

Definition MAX_EMBEDDING_BATCH_SIZE : nat := 16.

(** [metadata.get(key, default)]. *)
Definition metadata_get (m : Metadata) (key default : str) : str :=
  match dict_get str_eq_dec key m with
  | Some v => v
  | None => default
  end.

(** The points of one sub-batch: lines 207-228. *)
Fixpoint batch_points (metadata : Metadata) (timestamp : Z)
    (version_date : str) (total_chunks : nat) (chunk_index : nat)
    (pairs : list (str * vector)) : list PointStruct :=
  match pairs with
  | [] => []
  | (chunk, embedding) :: pairs' =>
      {| id := get_versioned_id (metadata_get metadata (s "path") (s "text"))
                 timestamp (Z.of_nat chunk_index);
         vector_ := embedding;
         payload :=
           Some {| text := Some chunk;
                   Qdrant.metadata := Some metadata;
                   Qdrant.timestamp := Some timestamp;
                   Qdrant.version_date := Some version_date;
                   Qdrant.chunk_index := Some (Z.of_nat chunk_index);
                   Qdrant.total_chunks := Some (Z.of_nat total_chunks) |} |}
      :: batch_points metadata timestamp version_date total_chunks
           (S chunk_index) pairs'
  end.

(** The loop of lines 191-240. *)
Fixpoint embed_loop (e : Env) (chunks : list str) (metadata : Metadata)
    (timestamp : Z) (version_date : str) (starts : list nat)
    (all_points : list PointStruct) (total_added calls : nat)
    : list PointStruct * nat * nat :=
  match starts with
  | [] => (all_points, total_added, calls)
  | i :: starts' =>
      let batch := batch_at chunks MAX_EMBEDDING_BATCH_SIZE i in
      let '(embeddings, calls') := get_embeddings (api e) batch calls in
      if (List.length embeddings =? List.length batch)%nat then
        let points :=
          batch_points metadata timestamp version_date (List.length chunks) i
            (combine batch embeddings) in
        embed_loop e chunks metadata timestamp version_date starts'
          (all_points ++ points) (total_added + List.length points) calls'
      else
        embed_loop e chunks metadata timestamp version_date starts'
          all_points total_added calls'
  end.

(** [KnowledgeBase._process_chunks]. *)
Definition _process_chunks (e : Env) (chunks : list str) (metadata : Metadata)
    (w : KbWorld) : (bool * nat) * KbWorld :=
  let timestamp := now e in
  match format_timestamp e timestamp with
  | None => ((false, 0%nat), w)
  | Some version_date =>
      let '(all_points, total_added, calls) :=
        embed_loop e chunks metadata timestamp version_date
          (range0 (List.length chunks) MAX_EMBEDDING_BATCH_SIZE)
          [] 0 (api_calls w) in
      match all_points with
      | [] => ((false, 0%nat),
               {| vector_store := vector_store w; api_calls := calls |})
      | _ =>
          let '(success, vs) := add_points (db e) all_points (vector_store w) in
          ((if success then (true, total_added) else (false, 0%nat)),
           {| vector_store := vs; api_calls := calls |})
      end
  end.

(** [metadata = metadata or {}], seen from the caller: an empty dict is
    falsy and a new one takes its place, so the caller's stays empty; any
    other dict is the one the function goes on to write, in place. *)
Definition caller_dict (metadata written : Metadata) : Metadata :=
  match metadata with
  | [] => []
  | _ => written
  end.

(** Lines 100-102 of [add_document]: the writes to [metadata]. *)
Definition document_metadata (file_path : str) (metadata : Metadata)
    : Metadata :=
  let metadata :=
    dict_set str_eq_dec (s "type")
      (metadata_get metadata (s "type") (s "document")) metadata in
  dict_set str_eq_dec (s "path") file_path metadata.

(** [KnowledgeBase.add_document]: the answer, the caller's [metadata]
    dict after the call, and the world; [None] when the chunker does not
    come back within [fuel] iterations.  The writes of lines 100-102 come
    before the [try]. *)
Definition add_document (fuel : nat) (e : Env) (processor : Processor)
    (file_path : str) (metadata : Metadata) (w : KbWorld)
    : option ((bool * nat) * Metadata * KbWorld) :=
  let caller := caller_dict metadata (document_metadata file_path metadata) in
  let metadata := document_metadata file_path metadata in
  match read_file (fs e) file_path (max_file_size_mb processor) with
  | inl _ => Some ((false, 0%nat), caller, w)
  | inr content =>
      match chunk_text fuel content (max_chunk_size processor)
              (chunk_overlap processor) with
      | None => None
      | Some [] => Some ((false, 0%nat), caller, w)
      | Some chunks =>
          let '(answer, w') := _process_chunks e chunks metadata w in
          Some (answer, caller, w')
      end
  end.
End KnowledgeBase.

(** ** Properties the claims are stated with, and sample data *)

Module Properties.
Import Py PyData DocumentProcessor Sha1 Uuid Versioning Embeddings Qdrant VectorStore
  KnowledgeBase.

(** The separator of the hashed name. *)
Definition underscore : ascii := "_"%char.

Definition is_byte (b : Z) : Prop := 0 <= b < 256.

(** A provider that answers every call with a rate-limit error. *)
Definition always_rate_limited : Api := fun _ _ => RateLimitError.

(** Hits without a payload are skipped by the grouping loop. *)
Definition has_payload (hit : ScoredPoint) : Prop := hit_payload hit <> None.

(** [metadata.path] of a hit, as its payload has it; ["unknown"] where
    the payload, its metadata or the path is missing. *)
Definition hit_path (hit : ScoredPoint) : str :=
  match hit_payload hit with
  | Some pl =>
      match match metadata pl with
            | Some m => dict_get str_eq_dec (s "path") m
            | None => None
            end with
      | Some p => p
      | None => s "unknown"
      end
  | None => s "unknown"
  end.

(** The [timestamp] of a hit's payload, 0 where it is missing. *)
Definition hit_time (hit : ScoredPoint) : Z :=
  match hit_payload hit with
  | Some pl =>
      match timestamp pl with
      | Some t => t
      | None => 0
      end
  | None => 0
  end.

(** No hit of [hits] with the path of [h] has a higher timestamp. *)
Definition newest_in (hits : list ScoredPoint) (h : ScoredPoint) : Prop :=
  forall h', In h' hits -> has_payload h' -> hit_path h' = hit_path h ->
             hit_time h' <= hit_time h.

(** The invariant of the grouping loop after the hits [seen]. *)
Definition groups_inv (seen : list ScoredPoint) (g : PathGroups) : Prop :=
  NoDup (map fst g)
  /\ (forall k h sc, In (k, (h, sc)) g ->
        In h seen /\ has_payload h /\ hit_path h = k /\ sc = score h
        /\ newest_in seen h)
  /\ (forall h', In h' seen -> has_payload h' -> In (hit_path h') (map fst g)).

(** The survivors of the collapse, ranked: one hit per path, the newest of
    its path, by descending score. *)
Definition ranked (search_result : list ScoredPoint) : list ScoredPoint :=
  map fst (sorted_desc score_leb
             (map snd (fold_left group_hit search_result []))).

(** The two hits of the scenario. *)
Definition doc_hit (ts : Z) (sc : Q) : ScoredPoint :=
  {| hit_id := s "id";
     hit_payload :=
       Some {| text := Some (s "chunk");
               metadata := Some [(s "type", s "document");
                                 (s "path", s "doc.md")];
               timestamp := Some ts;
               version_date := None;
               chunk_index := Some 0;
               total_chunks := Some 1 |};
     score := sc |}.

(** A point the loop of [get_document_versions] records under [ts]: it
    has a payload with a non-zero timestamp [ts] and chunk index 0 (or
    none). *)
Definition selected (p : PointStruct) (ts : Z) : Prop :=
  exists pl,
    payload p = Some pl /\ timestamp pl = Some ts /\ ts <> 0
    /\ (chunk_index pl = None \/ chunk_index pl = Some 0).








(** A stored chunk of ["doc.md"]. *)
Definition doc_point (ts chunk : Z) (date : string) : PointStruct :=
  {| id := s "id";
     vector_ := [];
     payload :=
       Some {| text := Some (s "chunk");
               metadata := Some [(s "type", s "document");
                                 (s "path", s "doc.md")];
               timestamp := Some ts;
               version_date := Some (s date);
               chunk_index := Some chunk;
               total_chunks := Some 2 |} |}.




(** The world in which [upload_loop] stops. *)
Definition final_world (r : World + (nat * World)) : World :=
  match r with
  | inl w' => w'
  | inr (_, w') => w'
  end.

(** The requests made when batch [k] is sent [tries[k]] times, for the
    batches that have an entry in [tries]. *)
Definition sent {A} (batches : list (list A)) (tries : list nat)
    : list (list A) :=
  List.concat (map (fun bt => repeat (fst bt) (snd bt))
                 (combine batches tries)).

(** The waits [2 ** attempt] of the attempts that may be retried. *)
Definition backoff_wait (x : Z) : Prop := x = 2 ^ 0 \/ x = 2 ^ 1.

(** A database whose every [upsert] raises, and a fresh world. *)
Definition always_failing : Upserts := fun _ => Some QdrantException.

Definition fresh_world : World :=
  {| store := []; upsert_calls := 0; requests := []; slept := [] |}.

(** A file of 0 bytes and its surroundings. *)
Definition empty_file : File :=
  {| st_size := 0; readable := true; content := [] |}.

Definition one_file_env : Env :=
  {| fs := fun p => if str_eq_dec p (s "empty.md") then Some empty_file
                    else None;
     api := fun _ _ => OtherError;
     db := fun _ => None;
     now := 1700000000;
     format_timestamp := fun _ => Some (s "2023-11-14 22:13:20") |}.

(** Surroundings in which the provider is rate-limited throughout. *)
Definition rate_limited_env : Env :=
  {| fs := fun _ => None;
     api := always_rate_limited;
     db := fun _ => None;
     now := 1700000000;
     format_timestamp := fun _ => Some (s "2023-11-14 22:13:20") |}.

Definition default_processor : Processor :=
  {| max_chunk_size := 3800; chunk_overlap := 100; max_file_size_mb := 10 |}.

Definition empty_world : KbWorld :=
  {| vector_store := fresh_world; api_calls := 0 |}.

End Properties.

(** ** More Python string primitives *)

Module PyStr.
Import Py.

(** The characters [str.strip] removes, among those below U+0100:
    [Py_UNICODE_ISSPACE]. *)
Definition is_space (c : ascii) : bool :=
  let n := N_of_ascii c in
  ((9 <=? n) && (n <=? 13) || (28 <=? n) && (n <=? 32)
   || (n =? 133) || (n =? 160))%N.

Fixpoint lstrip (t : str) : str :=
  match t with
  | [] => []
  | c :: t' => if is_space c then lstrip t' else t
  end.

(** [t.strip()]. *)
Definition strip (t : str) : str := rev (lstrip (rev (lstrip t))).

(** [t.split(sep)] for a one-character [sep]. *)
Fixpoint split (sep : ascii) (t : str) : list str :=
  match t with
  | [] => [[]]
  | c :: t' =>
      if Ascii.eqb c sep then [] :: split sep t'
      else
        match split sep t' with
        | piece :: pieces => (c :: piece) :: pieces
        | [] => [[c]]
        end
  end.

(** [sep.join(pieces)]. *)
Fixpoint join (sep : str) (pieces : list str) : str :=
  match pieces with
  | [] => []
  | [piece] => piece
  | piece :: pieces' => piece ++ sep ++ join sep pieces'
  end.

End PyStr.

(** ** embeddings.py: one text *)

Module EmbeddingGenerator.
Import Py PyStr DocumentProcessor Embeddings.

(** What [get_embedding] raises: the provider's error on the last
    attempt, an exception outside the provider's hierarchy, or
    [EmbeddingError] when the attempts ran out. *)
Inductive Raised := RaisedOpenAIError | RaisedOther | EmbeddingError.

(** The [for attempt in range(self.max_retries)] loop of lines 78-117;
    the provider is called with the one truncated text.  An answer without
    data makes [response.data[0]] raise. *)
Fixpoint single_attempts (api : Api) (max_retries : nat) (input : str)
    (left attempt calls : nat) : (Raised + vector) * nat :=
  match left with
  | O => (inl EmbeddingError, calls)
  | S left' =>
      match api calls [input] with
      | Response (embedding :: _) => (inr embedding, S calls)
      | Response [] => (inl RaisedOther, S calls)
      | RateLimitError | APITimeoutError | APIConnectionError =>
          single_attempts api max_retries input left' (S attempt) (S calls)
      | OpenAIError =>
          if (Z.of_nat attempt <? Z.of_nat max_retries - 1)%Z then
            single_attempts api max_retries input left' (S attempt) (S calls)
          else (inl RaisedOpenAIError, S calls)
      | OtherError => (inl RaisedOther, S calls)
      end
  end.

(** [EmbeddingGenerator.get_embedding]: lines 51-117. *)
Definition get_embedding (api : Api) (max_retries : nat) (text : str)
    (calls : nat) : (Raised + vector) * nat :=
  match strip text with
  | [] => (inr placeholder, calls)
  | _ => single_attempts api max_retries (clean text) max_retries 0 calls
  end.

End EmbeddingGenerator.

Module DefaultGenerator.
Import Py Embeddings.

(** The module-level [get_embedding] (lines 201-217): the default
    generator ([max_retries = 5]), a zero vector when it raises. *)
Definition get_embedding (api : Api) (text : str) (calls : nat)
    : vector * nat :=
  match EmbeddingGenerator.get_embedding api 5 text calls with
  | (inr embedding, calls') => (embedding, calls')
  | (inl _, calls') => (placeholder, calls')
  end.

End DefaultGenerator.

(** ** versioning.py: versioned payloads *)

Module VersionedPayload.
Import Py PyData.

(** A metadata value ([Dict[str, Any]]): a string or an integer. *)
Inductive Value := VStr (x : str) | VInt (n : Z).

Definition Meta := list (str * Value).

Definition value_eq_dec : forall a b : Value, {a = b} + {a <> b}.
Proof. decide equality; [apply str_eq_dec | apply Z.eq_dec]. Defined.

(** The clock and the formatter ([None] when formatting raises). *)
Record Clock := {
  get_current_timestamp : Z;
  format_timestamp : Z -> option str
}.

(** [prepare_version_metadata]: lines 58-77; [None] when
    [format_timestamp] raises. *)
Definition prepare_version_metadata (clock : Clock) (metadata : Meta)
    : option Meta :=
  let timestamp := get_current_timestamp clock in
  match format_timestamp clock timestamp with
  | None => None
  | Some date =>
      Some (dict_set str_eq_dec (s "version_date") (VStr date)
              (dict_set str_eq_dec (s "timestamp") (VInt timestamp) metadata))
  end.

(** The dictionary [create_versioned_payload] returns. *)
Record Payload := {
  text : str;
  chunk_index : Z;
  total_chunks : Z;
  timestamp : Value;
  version_date : Value;
  metadata : Meta
}.

Inductive PayloadError := KeyError (key : str) | FormatError.

(** [VersionManager.create_versioned_payload]: lines 140-165. *)
Definition create_versioned_payload (clock : Clock) (text : str)
    (metadata : Meta) (chunk_index total_chunks : Z)
    : PayloadError + Payload :=
  let prepared :=
    match dict_get str_eq_dec (s "timestamp") metadata with
    | None => prepare_version_metadata clock metadata
    | Some _ => Some metadata
    end in
  match prepared with
  | None => inl FormatError
  | Some metadata =>
      match dict_get str_eq_dec (s "timestamp") metadata with
      | None => inl (KeyError (s "timestamp"))
      | Some timestamp =>
          match dict_get str_eq_dec (s "version_date") metadata with
          | None => inl (KeyError (s "version_date"))
          | Some version_date =>
              inr {| text := text;
                     chunk_index := chunk_index;
                     total_chunks := total_chunks;
                     timestamp := timestamp;
                     version_date := version_date;
                     metadata := metadata |}
          end
      end
  end.

End VersionedPayload.

(** ** knowledge_base.py: add_text and query *)

Module KnowledgeBaseText.
Import Py PyData DocumentProcessor Embeddings Qdrant VectorStore KnowledgeBase.

(** Lines 141-142 of [add_text]: the write to [metadata]. *)
Definition text_metadata (metadata : Metadata) : Metadata :=
  dict_set str_eq_dec (s "type")
    (metadata_get metadata (s "type") (s "text")) metadata.

(** [KnowledgeBase.add_text]: lines 125-161: the answer, the caller's
    [metadata] dict after the call, and the world; [None] when the chunker
    does not come back within [fuel] iterations. *)
Definition add_text (fuel : nat) (e : Env) (processor : Processor)
    (text : str) (metadata : Metadata) (w : KbWorld)
    : option ((bool * nat) * Metadata * KbWorld) :=
  let caller := caller_dict metadata (text_metadata metadata) in
  let metadata := text_metadata metadata in
  match chunk_text fuel text (max_chunk_size processor)
          (chunk_overlap processor) with
  | None => None
  | Some [] => Some ((false, 0%nat), caller, w)
  | Some chunks =>
      let '(answer, w') := _process_chunks e chunks metadata w in
      Some (answer, caller, w')
  end.

(** [KnowledgeBase.query]: lines 335-365, [latest_only=True] fixed. *)
Definition query (search : Z -> option (list ScoredPoint)) (limit : Z)
    : list QueryResult :=
  VectorStore.query search limit true.

End KnowledgeBaseText.

(** ** cli.py: parse_file_extensions *)

Module Cli.
Import Py PyStr.

(** The default of lines 75-77. *)
Definition default_extensions : list str :=
  map s [".txt"; ".md"; ".py"; ".js"; ".html"; ".css"; ".json"; ".yaml";
         ".yml"]%string.

(** [parse_file_extensions]: lines 65-79. *)
Definition parse_file_extensions (extensions_str : str) : list str :=
  match extensions_str with
  | [] => default_extensions
  | _ => map strip (split ","%char extensions_str)
  end.

End Cli.

(** ** Further properties *)

Module ExtraProperties.
Import Py PyData PyStr DocumentProcessor Embeddings Qdrant VectorStore
  KnowledgeBase Properties.

(** A chunk that ends right after a newline or a space. *)
Definition ends_with_break (chunk : str) : Prop :=
  exists front b, chunk = front ++ [b] /\ (b = newline \/ b = space).

(** A chunk cut inside the text: longer than half of [max_size], and of
    full size unless it ends at a break. *)
Definition well_cut (max_size : Z) (chunk : str) : Prop :=
  max_size / 2 < len chunk
  /\ (len chunk = max_size \/ ends_with_break chunk).

(** A text as the provider receives it: no newline, at most 8191
    characters. *)
Definition sendable (t : str) : Prop := ~ In newline t /\ len t <= 8191.

(** The provider errors after which an attempt is not the last word. *)
Definition transient (o : ApiOutcome) : Prop :=
  o = RateLimitError \/ o = APITimeoutError \/ o = APIConnectionError.

Definition retryable (o : ApiOutcome) : Prop := transient o \/ o = OpenAIError.

(** A provider that answers with one vector per text. *)
Definition well_sized (api : Api) : Prop :=
  forall n input data,
    api n input = Response data -> List.length data = List.length input.

Definition never_transient (api : Api) : Prop :=
  forall n input, ~ transient (api n input).

(** A provider that embeds every text as the empty vector. *)
Definition obliging : Api := fun _ input => Response (map (fun _ => []) input).

(** Two providers that differ only on texts with a newline. *)
Definition fussy : Api :=
  fun _ input =>
    if forallb (fun t => negb (existsb (Ascii.eqb newline) t)) input
    then Response (map (fun _ => []) input)
    else OtherError.

(** A database whose [upsert] never raises. *)
Definition reliable : Upserts := fun _ => None.

(** [h] stands in [hits], no earlier hit of its path is as new, and no
    later one is newer: the first of the newest hits of its path. *)
Definition first_newest (hits : list ScoredPoint) (h : ScoredPoint) : Prop :=
  exists before after,
    hits = before ++ h :: after
    /\ (forall h', In h' before -> has_payload h' ->
          hit_path h' = hit_path h -> hit_time h' < hit_time h)
    /\ (forall h', In h' after -> has_payload h' ->
          hit_path h' = hit_path h -> hit_time h' <= hit_time h).

(** [hit.payload is not None]. *)
Definition has_payload_b (hit : ScoredPoint) : bool :=
  match hit_payload hit with
  | Some _ => true
  | None => false
  end.

(** The paths under which the hits with a payload are grouped, each
    once. *)
Definition distinct_paths (hits : list ScoredPoint) : list str :=
  nodup str_eq_dec (map hit_path (filter has_payload_b hits)).

(** Surroundings in which the provider and the database oblige. *)
Definition obliging_env : Env :=
  {| fs := fun p => if str_eq_dec p (s "note.md")
                    then Some {| st_size := 5; readable := true;
                                 content := s "hello" |}
                    else if str_eq_dec p (s "long.md")
                    then Some {| st_size := 11; readable := true;
                                 content := s "hello world" |}
                    else None;
     api := obliging;
     db := reliable;
     now := 1700000000;
     format_timestamp := fun _ => Some (s "2023-11-14 22:13:20") |}.

(** A processor with small chunks. *)
Definition small_processor : Processor :=
  {| max_chunk_size := 5; chunk_overlap := 2; max_file_size_mb := 10 |}.

(** The point made of chunk 0 of a one-chunk document. *)
Definition single_point (base_id : str) (md : Metadata) (ts : Z) (vd : str)
    (chunk : str) (embedding : vector) : PointStruct :=
  {| id := Versioning.create_versioned_id base_id ts 0;
     vector_ := embedding;
     payload :=
       Some {| text := Some chunk;
               metadata := Some md;
               timestamp := Some ts;
               version_date := Some vd;
               chunk_index := Some 0;
               total_chunks := Some 1 |} |}.

(** The separator of the extension list. *)
Definition comma : ascii := ","%char.

(** A text that neither begins nor ends with whitespace. *)
Definition trimmed (t : str) : Prop :=
  match t with
  | [] => True
  | c :: _ => is_space c = false
  end
  /\ match rev t with
     | [] => True
     | c :: _ => is_space c = false
     end.

(** Only whitespace, as [str.strip] sees it. *)
Definition blank (t : str) : Prop := Forall (fun c => is_space c = true) t.

End ExtraProperties.

(** ** Sample clock and metadata for versioned payloads *)

Module PayloadSamples.
Import Py PyData VersionedPayload.

Definition sample_clock : Clock :=
  {| get_current_timestamp := 1700000000;
     format_timestamp := fun _ => Some (s "2023-11-14 22:13:20") |}.

(** Metadata with a stale date and no timestamp. *)
Definition stale_metadata : Meta :=
  [(s "path", VStr (s "doc.md")); (s "version_date", VStr (s "old"))].

(** Metadata with a timestamp and no date. *)
Definition undated_metadata : Meta :=
  [(s "path", VStr (s "doc.md")); (s "timestamp", VInt 100)].

End PayloadSamples.

(** * Proofs *)

(** ** Facts about the Python primitives *)

Module PyFacts.
Import Py.

Lemma len_nonneg {A} (l : list A) : 0 <= len l.
Proof. unfold len. lia. Qed.

Lemma len_app {A} (l1 l2 : list A) : len (l1 ++ l2) = len l1 + len l2.
Proof. unfold len. rewrite length_app. lia. Qed.

Lemma adjust_id (n i : Z) : 0 <= i <= n -> adjust n i = i.
Proof.
  intros H. unfold adjust.
  destruct (i <? 0) eqn:E; [apply Z.ltb_lt in E; lia | lia].
Qed.

Lemma adjust_nonneg_arg (n i : Z) : 0 <= i -> adjust n i = Z.min i n.
Proof.
  intros H. unfold adjust.
  destruct (i <? 0) eqn:E; [apply Z.ltb_lt in E; lia | reflexivity].
Qed.

Lemma rfind_below_range (text : str) (c : ascii) (lo : Z) (hi : nat) :
  rfind_below text c lo hi = -1
  \/ lo <= rfind_below text c lo hi < Z.of_nat hi.
Proof.
  induction hi as [|k IH]; [left; reflexivity|].
  cbn [rfind_below].
  destruct ((lo <=? Z.of_nat k)
            && match nth_error text k with
               | Some x => Ascii.eqb x c
               | None => false
               end) eqn:E.
  - apply andb_true_iff in E. destruct E as [E _].
    apply Z.leb_le in E. right. lia.
  - destruct IH as [IH|IH]; [left; exact IH | right; lia].
Qed.

(** A hit of [rfind] lies inside the searched window when the window's
    bounds are ordinary (non-negative) positions. *)
Lemma rfind_range (text : str) (c : ascii) (a b : Z) :
  0 <= a -> 0 <= b <= len text ->
  rfind text c a b = -1 \/ (a <= rfind text c a b < b).
Proof.
  intros Ha Hb. unfold rfind.
  rewrite (adjust_id (len text) b) by lia.
  rewrite (adjust_nonneg_arg (len text) a) by lia.
  destruct (rfind_below_range text c (Z.min a (len text)) (Z.to_nat b))
    as [H|H]; [left; exact H|].
  right. lia.
Qed.

Lemma firstn_add_skipn {A} (a b : nat) (l : list A) :
  firstn (a + b) l = firstn a l ++ firstn b (skipn a l).
Proof.
  revert l. induction a as [|a IH]; intros l; [reflexivity|].
  destruct l as [|x l]; cbn [Nat.add firstn skipn app].
  - now rewrite firstn_nil.
  - now rewrite IH.
Qed.

(** Two adjacent slices glue into one. *)
Lemma slice_glue {A} (l : list A) (i j : Z) :
  0 <= i <= j -> j <= len l ->
  slice l 0 i ++ slice l i j = slice l 0 j.
Proof.
  intros Hi Hj. unfold slice.
  rewrite !(adjust_id (len l)) by lia.
  cbn [Z.to_nat skipn]. rewrite !Z.sub_0_r.
  replace (Z.to_nat j) with (Z.to_nat i + Z.to_nat (j - i))%nat by lia.
  now rewrite firstn_add_skipn.
Qed.

Lemma slice_all {A} (l : list A) : slice l 0 (len l) = l.
Proof.
  unfold slice. rewrite !(adjust_id (len l)) by (pose proof (len_nonneg l); lia).
  cbn [Z.to_nat skipn]. rewrite Z.sub_0_r. unfold len.
  rewrite Nat2Z.id. apply firstn_all.
Qed.

Lemma slice_empty {A} (l : list A) : slice l 0 0 = [].
Proof.
  unfold slice. rewrite !(adjust_id (len l)) by (pose proof (len_nonneg l); lia).
  reflexivity.
Qed.

Lemma len_slice {A} (l : list A) (i j : Z) :
  0 <= i <= j -> j <= len l -> len (slice l i j) = j - i.
Proof.
  intros Hi Hj. unfold slice.
  rewrite !(adjust_id (len l)) by lia.
  unfold len in *. rewrite length_firstn, length_skipn. lia.
Qed.

Lemma firstn_Forall {A} (P : A -> Prop) (n : nat) (l : list A) :
  Forall P l -> Forall P (firstn n l).
Proof.
  intros H. rewrite <- (firstn_skipn n l) in H.
  apply Forall_app in H. apply H.
Qed.
End PyFacts.

(** ** Facts about [sorted] and [dict] *)

Module PyDataFacts.
Import Py PyFacts PyData.

Section SortedFacts.
Context {A : Type}.
Variable leb : A -> A -> bool.

Lemma insert_desc_perm (x : A) (l : list A) :
  Permutation (insert_desc leb x l) (x :: l).
Proof.
  induction l as [|y l IH]; cbn [insert_desc]; [reflexivity|].
  destruct (leb y x); [reflexivity|].
  rewrite IH. apply perm_swap.
Qed.

Lemma sorted_desc_perm (l : list A) : Permutation (sorted_desc leb l) l.
Proof.
  induction l as [|x l IH]; cbn [sorted_desc fold_right]; [reflexivity|].
  fold (sorted_desc leb l). rewrite insert_desc_perm. now rewrite IH.
Qed.

(** [before a b]: [a] may stand in front of [b] in the output. *)
Variable before : A -> A -> Prop.
Hypothesis leb_true : forall a b, leb a b = true -> before b a.
Hypothesis leb_false : forall a b, leb a b = false -> before a b.

Lemma insert_desc_sorted (x : A) (l : list A) :
  Sorted before l -> Sorted before (insert_desc leb x l).
Proof.
  induction l as [|y l IH]; intros Hs; cbn [insert_desc].
  - repeat constructor.
  - destruct (leb y x) eqn:E.
    + constructor; [exact Hs|]. constructor. now apply leb_true.
    + inversion Hs as [|? ? Hs' Hhd]; subst.
      constructor; [now apply IH|].
      destruct l as [|z l]; cbn [insert_desc].
      * constructor. now apply leb_false.
      * destruct (leb z x); constructor;
          [now apply leb_false | now inversion Hhd].
Qed.

Lemma sorted_desc_sorted (l : list A) : Sorted before (sorted_desc leb l).
Proof.
  induction l as [|x l IH]; cbn [sorted_desc fold_right]; [constructor|].
  now apply insert_desc_sorted.
Qed.
End SortedFacts.

Lemma StronglySorted_map {A B} (f : A -> B) (R : B -> B -> Prop) (l : list A) :
  StronglySorted (fun a b => R (f a) (f b)) l -> StronglySorted R (map f l).
Proof.
  induction 1 as [|a l Hs IH Hall]; cbn [map]; constructor; [exact IH|].
  apply Forall_map. exact Hall.
Qed.

Lemma StronglySorted_firstn {A} (R : A -> A -> Prop) (n : nat) (l : list A) :
  StronglySorted R l -> StronglySorted R (firstn n l).
Proof.
  intros H. revert n. induction H as [|a l Hs IH Hall]; intros [|n];
    cbn [firstn]; try constructor; [apply IH|].
  rewrite <- (firstn_skipn n l) in Hall. apply Forall_app in Hall. apply Hall.
Qed.

Lemma NoDup_firstn {A} (n : nat) (l : list A) : NoDup l -> NoDup (firstn n l).
Proof.
  intros H. rewrite <- (firstn_skipn n l) in H.
  now apply NoDup_app_remove_r in H.
Qed.

Lemma In_firstn {A} (n : nat) (l : list A) (x : A) :
  In x (firstn n l) -> In x l.
Proof.
  intros H. rewrite <- (firstn_skipn n l). apply in_or_app. now left.
Qed.

(** [l[:limit]] for a non-negative [limit]. *)
Lemma slice_to_firstn {A} (l : list A) (limit : Z) :
  0 <= limit -> slice_to l limit = firstn (Z.to_nat limit) l.
Proof.
  intros H. unfold slice_to, slice.
  rewrite (adjust_id (len l) 0) by (pose proof (len_nonneg l); lia).
  rewrite adjust_nonneg_arg by lia.
  cbn [Z.to_nat skipn]. rewrite Z.sub_0_r.
  destruct (Z.le_gt_cases limit (len l)) as [Hle|Hgt].
  - now rewrite Z.min_l by lia.
  - rewrite Z.min_r by lia. unfold len in *.
    rewrite Nat2Z.id, firstn_all. symmetry. apply firstn_all2. lia.
Qed.

Section DictFacts.
Context {K V : Type}.
Variable eq_dec : forall a b : K, {a = b} + {a <> b}.
Implicit Types (d : list (K * V)) (k : K) (v : V).

Lemma dict_get_In k v d : dict_get eq_dec k d = Some v -> In (k, v) d.
Proof.
  induction d as [|[k' v'] d IH]; cbn [dict_get]; [discriminate|].
  destruct (eq_dec k k') as [->|Hne].
  - intros [= ->]. now left.
  - intros H. right. now apply IH.
Qed.

Lemma dict_get_None k d :
  dict_get eq_dec k d = None -> ~ In k (map fst d).
Proof.
  induction d as [|[k' v'] d IH]; cbn [dict_get map fst In]; [tauto|].
  destruct (eq_dec k k') as [->|Hne]; [discriminate|].
  intros H [E|Hin]; [congruence | now apply IH].
Qed.

Lemma dict_set_keys k v d k' :
  In k' (map fst (dict_set eq_dec k v d)) <-> k' = k \/ In k' (map fst d).
Proof.
  induction d as [|[k0 v0] d IH]; cbn [dict_set map fst In].
  - intuition congruence.
  - destruct (eq_dec k k0) as [->|Hne]; cbn [map fst In].
    + intuition congruence.
    + rewrite IH. intuition congruence.
Qed.

Lemma dict_set_NoDup k v d :
  NoDup (map fst d) -> NoDup (map fst (dict_set eq_dec k v d)).
Proof.
  induction d as [|[k0 v0] d IH]; cbn [dict_set map fst]; intros H.
  - repeat constructor. intros [].
  - inversion H as [|? ? Hnin Hnd]; subst.
    destruct (eq_dec k k0) as [->|Hne]; cbn [map fst].
    + now constructor.
    + constructor; [|now apply IH].
      rewrite dict_set_keys. intros [E|Hin]; [congruence | tauto].
Qed.

Lemma dict_set_In k v d k' v' :
  NoDup (map fst d) ->
  In (k', v') (dict_set eq_dec k v d) ->
  (k' = k /\ v' = v) \/ (k' <> k /\ In (k', v') d).
Proof.
  induction d as [|[k0 v0] d IH]; cbn [dict_set map fst In]; intros Hnd H.
  - destruct H as [[= <- <-]|[]]. now left.
  - inversion Hnd as [|? ? Hnin Hnd']; subst.
    destruct (eq_dec k k0) as [->|Hne]; cbn [In] in H.
    + destruct H as [[= <- <-]|H]; [now left|].
      right. split; [|now right].
      intros ->. apply Hnin. apply in_map_iff. now exists (k0, v').
    + destruct H as [[= <- <-]|H].
      * right. split; [congruence | now left].
      * destruct (IH Hnd' H) as [?|[? ?]]; [now left|].
        right. split; [assumption | now right].
Qed.

Lemma dict_set_In_same k v d : In (k, v) (dict_set eq_dec k v d).
Proof.
  induction d as [|[k0 v0] d IH]; cbn [dict_set]; [now left|].
  destruct (eq_dec k k0); [now left | now right].
Qed.

Lemma dict_set_In_other k v d k' v' :
  k' <> k -> In (k', v') d -> In (k', v') (dict_set eq_dec k v d).
Proof.
  intros Hne. induction d as [|[k0 v0] d IH]; cbn [dict_set In]; [tauto|].
  destruct (eq_dec k k0) as [E|E]; cbn [In]; intros [H|H].
  - injection H as H1 H2. congruence.
  - now right.
  - now left.
  - right. now apply IH.
Qed.
End DictFacts.
End PyDataFacts.

(** ** Facts about the chunker *)

Module ChunkFacts.
Import Py PyFacts DocumentProcessor.

Section Window.
Variable text : str.
Variables max_size start : Z.
Hypothesis Hmax : 1 <= max_size.
Hypothesis Hstart : 0 <= start < len text.

Lemma half_bounds : 0 <= max_size / 2 < max_size.
Proof.
  split; [apply Z.div_pos; lia | apply Z.div_lt_upper_bound; lia].
Qed.

(** The window never reaches past [start + max_size] nor past the text,
    and it is never empty. *)
Lemma window_end_bounds :
  start < window_end text max_size start
  /\ window_end text max_size start <= Z.min (start + max_size) (len text).
Proof.
  pose proof half_bounds as Hh.
  unfold window_end.
  set (e := Z.min (start + max_size) (len text)).
  assert (He : start < e <= len text) by (unfold e; lia).
  destruct (e <? len text) eqn:E1; [|lia].
  destruct (rfind_range text newline start e) as [Hn|Hn]; try lia.
  - rewrite Hn.
    destruct (-1 >? start + max_size / 2) eqn:E2;
      [apply Z.gtb_lt in E2; lia|].
    destruct (rfind_range text space (start + max_size / 2) e) as [Hs|Hs];
      try lia.
    + rewrite Hs. destruct (-1 >? start) eqn:E3;
        [apply Z.gtb_lt in E3; lia | lia].
    + destruct (rfind text space (start + max_size / 2) e >? start) eqn:E3;
        [apply Z.gtb_lt in E3; lia | lia].
  - destruct (rfind text newline start e >? start + max_size / 2) eqn:E2;
      [apply Z.gtb_lt in E2; lia|].
    destruct (rfind_range text space (start + max_size / 2) e) as [Hs|Hs];
      try lia.
    + rewrite Hs. destruct (-1 >? start) eqn:E3;
        [apply Z.gtb_lt in E3; lia | lia].
    + destruct (rfind text space (start + max_size / 2) e >? start) eqn:E3;
        [apply Z.gtb_lt in E3; lia | lia].
Qed.

(** A window that stops before the end of the text covers more than half
    of [max_size]. *)
Lemma window_end_half :
  window_end text max_size start < len text ->
  start + max_size / 2 + 1 <= window_end text max_size start.
Proof.
  pose proof half_bounds as Hh.
  unfold window_end.
  set (e := Z.min (start + max_size) (len text)).
  assert (He : start < e <= len text) by (unfold e; lia).
  destruct (e <? len text) eqn:E1; [|lia].
  apply Z.ltb_lt in E1.
  assert (Hee : e = start + max_size) by (unfold e in *; lia).
  intros _.
  destruct (rfind text newline start e >? start + max_size / 2) eqn:E2;
    [apply Z.gtb_lt in E2; lia|].
  destruct (rfind_range text space (start + max_size / 2) e) as [Hs|Hs];
    try lia.
  - rewrite Hs. destruct (-1 >? start) eqn:E3;
      [apply Z.gtb_lt in E3; lia | lia].
  - destruct (rfind text space (start + max_size / 2) e >? start) eqn:E3;
      [lia | lia].
Qed.

End Window.
End ChunkFacts.

(** ** The chunking loop *)

Module ChunkLoop.
Import Py PyFacts DocumentProcessor ChunkFacts.

Lemma adjust_le (n i : Z) : 0 <= n -> adjust n i <= n.
Proof.
  intros Hn. unfold adjust. destruct (i <? 0) eqn:E; [|lia].
  apply Z.ltb_lt in E. lia.
Qed.

Lemma rfind_lt_len (text : str) (c : ascii) (a b : Z) :
  rfind text c a b < len text.
Proof.
  pose proof (len_nonneg text) as Hn.
  unfold rfind.
  pose proof (adjust_le (len text) b Hn) as Hb.
  destruct (rfind_below_range text c (adjust (len text) a)
              (Z.to_nat (adjust (len text) b))) as [H|H]; lia.
Qed.

(** Whatever the start, a window never ends past the end of the text. *)
Lemma window_end_le_len (text : str) (max_size start : Z) :
  window_end text max_size start <= len text.
Proof.
  unfold window_end.
  set (e := Z.min (start + max_size) (len text)).
  pose proof (rfind_lt_len text newline start e) as Hn.
  pose proof (rfind_lt_len text space (start + max_size / 2) e) as Hs.
  destruct (e <? len text); [|unfold e; lia].
  destruct (rfind text newline start e >? start + max_size / 2); [lia|].
  destruct (rfind text space (start + max_size / 2) e >? start);
    [lia | unfold e; lia].
Qed.

(** With a positive overlap the loop condition [start < len(text)] holds
    again after every iteration, so the loop is never left. *)
Lemma chunk_loop_never_exits (text : str) (max_size overlap : Z) :
  1 <= overlap ->
  forall (fuel : nat) (start : Z) (chunks : list str),
    start < len text ->
    chunk_loop fuel text max_size overlap start chunks = None.
Proof.
  intros Hov fuel. induction fuel as [|fuel IH]; intros start chunks Hs;
    cbn [chunk_loop];
    (destruct (start <? len text) eqn:E;
     [|apply Z.ltb_ge in E; lia]).
  - reflexivity.
  - apply IH. pose proof (window_end_le_len text max_size start). lia.
Qed.

Lemma chunk_text_never_returns (text : str) (max_size overlap : Z) :
  len text > max_size -> 0 <= max_size -> 1 <= overlap ->
  forall fuel : nat, chunk_text fuel text max_size overlap = None.
Proof.
  intros Hlen Hmax Hov fuel. unfold chunk_text.
  destruct text as [|c text]; [unfold len in Hlen; cbn in Hlen; lia|].
  destruct (len (c :: text) <=? max_size) eqn:E;
    [apply Z.leb_le in E; lia|].
  apply chunk_loop_never_exits; [exact Hov | lia].
Qed.

(** The loop invariant for [overlap = 0]: the chunks collected so far
    concatenate to [text[0:start]], none is longer than [max_size], and
    [len(text) - start] iterations suffice. *)
Lemma chunk_loop_zero_overlap (text : str) (max_size : Z) :
  1 <= max_size ->
  forall (fuel : nat) (start : Z) (chunks : list str),
    0 <= start <= len text ->
    len text - start <= Z.of_nat fuel ->
    List.concat chunks = slice text 0 start ->
    Forall (fun c => len c <= max_size) chunks ->
    exists r,
      chunk_loop fuel text max_size 0 start chunks = Some r
      /\ List.concat r = text
      /\ Forall (fun c => len c <= max_size) r
      /\ (List.length chunks + Nat.b2n (start <? len text)%Z
          <= List.length r)%nat.
Proof.
  intros Hmax fuel.
  induction fuel as [|fuel IH]; intros start chunks Hs Hf Hc Hall;
    cbn [chunk_loop]; destruct (start <? len text) eqn:E.
  - apply Z.ltb_lt in E. lia.
  - apply Z.ltb_ge in E. exists chunks.
    assert (start = len text) as -> by lia.
    rewrite slice_all in Hc. repeat split; auto. cbn [Nat.b2n]. lia.
  - apply Z.ltb_lt in E.
    destruct (window_end_bounds text max_size start Hmax (conj (proj1 Hs) E))
      as [Hlo Hhi].
    rewrite Z.sub_0_r.
    destruct (IH (window_end text max_size start)
                 (chunks ++ [slice text start (window_end text max_size start)]))
      as (r & Hr & Hcat & Hsz & Hlen).
    + lia.
    + lia.
    + rewrite concat_app. cbn [List.concat]. rewrite app_nil_r, Hc.
      apply slice_glue; lia.
    + apply Forall_app. split; [exact Hall|].
      constructor; [|constructor].
      rewrite len_slice by lia. lia.
    + exists r. repeat split; auto.
      rewrite length_app in Hlen. cbn [List.length Nat.b2n] in *. lia.
  - apply Z.ltb_ge in E. exists chunks.
    assert (start = len text) as -> by lia.
    rewrite slice_all in Hc. repeat split; auto. cbn [Nat.b2n]. lia.
Qed.

(** [chunk_text] with [overlap = 0] on a text longer than [max_size]. *)
Lemma chunk_text_zero_overlap (text : str) (max_size : Z) :
  1 <= max_size -> len text > max_size ->
  exists chunks,
    chunk_text (List.length text) text max_size 0 = Some chunks
    /\ List.concat chunks = text
    /\ Forall (fun c => len c <= max_size) chunks
    /\ (2 <= List.length chunks)%nat.
Proof.
  intros Hmax Hlen. unfold chunk_text.
  destruct text as [|c0 text]; [unfold len in Hlen; cbn in Hlen; lia|].
  set (t := c0 :: text) in *.
  destruct (len t <=? max_size) eqn:E; [apply Z.leb_le in E; lia|].
  assert (H0 : 0 <= 0 < len t) by lia.
  destruct (window_end_bounds t max_size 0 Hmax H0) as [Hlo Hhi].
  change (List.length t) with (S (List.length text)).
  cbn [chunk_loop].
  destruct (0 <? len t) eqn:E0; [|apply Z.ltb_ge in E0; lia].
  rewrite Z.sub_0_r. cbn [app].
  destruct (chunk_loop_zero_overlap t max_size Hmax (List.length text)
              (window_end t max_size 0) [slice t 0 (window_end t max_size 0)])
    as (r & Hr & Hcat & Hsz & Hn).
  - lia.
  - unfold len, t in *. cbn [List.length] in *. lia.
  - cbn [List.concat]. apply app_nil_r.
  - constructor; [|constructor]. rewrite len_slice by lia. lia.
  - exists r. repeat split; auto.
    destruct (window_end t max_size 0 <? len t) eqn:E1;
      [|apply Z.ltb_ge in E1; lia].
    cbn [List.length Nat.b2n] in Hn. lia.
Qed.
End ChunkLoop.

(** ** Claims about the chunker *)

Module ChunkClaims.
Import Py PyFacts DocumentProcessor ChunkFacts ChunkLoop.

(** C1: for a text longer than [max_size >= 1], any [overlap >= 1] keeps
    [chunk_text] in its loop for ever, whatever the fuel: nothing is
    returned.  With [overlap < max_size], the range of the claim, the
    window that starts at [len(text) - overlap] ends at the end of the
    text and the next window starts at [len(text) - overlap] again: no
    progress, and the loop condition still holds.  [overlap] is used as it
    is given: with [overlap >= max_size] the second window starts at 0 or
    before it. *)
Theorem chunk_text_overlap_stalls (text : str) (max_size overlap : Z) :
  len text > max_size -> 1 <= max_size -> 1 <= overlap ->
  (forall fuel : nat, chunk_text fuel text max_size overlap = None)
  /\ (overlap < max_size ->
      0 <= len text - overlap < len text
      /\ next_start text max_size overlap (len text - overlap)
         = len text - overlap)
  /\ (max_size <= overlap -> next_start text max_size overlap 0 <= 0).
Proof.
  intros Hlen Hmax Hov. split; [|split].
  - apply chunk_text_never_returns; lia.
  - intros Hlt. split; [lia|]. unfold next_start, window_end.
    replace (Z.min (len text - overlap + max_size) (len text))
      with (len text) by lia.
    now rewrite Z.ltb_irrefl.
  - intros Hbig. unfold next_start.
    destruct (window_end_bounds text max_size 0 Hmax ltac:(lia)). lia.
Qed.

Lemma chunk_text_overlap_stalls_witness :
  len (s "abc") > 2 /\ 1 <= 2 /\ 1 <= 1
  /\ (forall fuel : nat, chunk_text fuel (s "abc") 2 1 = None)
  /\ next_start (s "abc") 2 1 2 = 2.
Proof.
  assert (H1 : len (s "abc") > 2) by reflexivity.
  split; [exact H1|]. split; [lia|]. split; [lia|].
  pose proof (chunk_text_overlap_stalls (s "abc") 2 1 H1 ltac:(lia)
                ltac:(lia)) as (Hnone & Hstall & _).
  split; [exact Hnone|]. exact (proj2 (Hstall ltac:(lia))).
Defined.

(** C4 at the spec's own scenario: on ["A" * 5000] with [max_size = 1000]
    and [overlap = 50] the loop of [chunk_text] is never left, whatever
    the fuel; no list of chunks is returned. *)
Theorem chunk_text_5000_never_returns :
  forall fuel : nat,
    chunk_text fuel (repeat "A"%char 5000) 1000 50 = None.
Proof.
  intros fuel. apply chunk_text_never_returns; [|lia|lia].
  unfold len. rewrite repeat_length. reflexivity.
Qed.

(** C5 (as amended): a non-empty text no longer than [max_size] comes back
    as exactly one chunk, the text itself. *)
Theorem chunk_text_single (fuel : nat) (text : str) (max_size overlap : Z) :
  text <> [] -> len text <= max_size ->
  chunk_text fuel text max_size overlap = Some [text].
Proof.
  intros Hne Hlen. unfold chunk_text.
  destruct text as [|c text]; [congruence|].
  apply Z.leb_le in Hlen. now rewrite Hlen.
Qed.

Lemma chunk_text_single_witness :
  s "abc" <> [] /\ len (s "abc") <= 10
  /\ chunk_text 0 (s "abc") 10 2 = Some [s "abc"].
Proof.
  split; [discriminate|]. split; [unfold len; cbn; lia|].
  apply (chunk_text_single 0 (s "abc") 10 2); [discriminate|].
  unfold len; cbn; lia.
Defined.

(** C5 as stated fails on the empty text: its length is at most
    [max_size], yet no chunk is returned. *)
Lemma chunk_text_empty_no_chunk :
  len (s "") <= 10
  /\ chunk_text 0 (s "") 10 2 = Some []
  /\ chunk_text 0 (s "") 10 2 <> Some [s ""].
Proof.
  split; [unfold len; cbn; lia|]. split; [reflexivity | discriminate].
Qed.
End ChunkClaims.

(** ** Facts about identifiers *)

Module IdFacts.
Import Py PyFacts Sha1 Uuid Versioning Properties.

Lemma uint_no_underscore (d : Decimal.uint) :
  ~ In underscore (list_ascii_of_string (NilEmpty.string_of_uint d)).
Proof.
  induction d; cbn [NilEmpty.string_of_uint list_ascii_of_string In];
    [tauto | ..]; intros [H|H]; (discriminate H || tauto).
Qed.

Lemma nilzero_uint_no_underscore (d : Decimal.uint) :
  ~ In underscore (list_ascii_of_string (NilZero.string_of_uint d)).
Proof.
  destruct d;
    [ cbn; intros [H|[]]; discriminate H
    | match goal with
      | |- ~ In _ (list_ascii_of_string (NilZero.string_of_uint ?x)) =>
          exact (uint_no_underscore x)
      end .. ].
Qed.

Lemma str_of_int_no_underscore (n : Z) : ~ In underscore (str_of_int n).
Proof.
  unfold str_of_int, NilZero.string_of_int.
  destruct (Z.to_int n) as [d|d].
  - apply nilzero_uint_no_underscore.
  - cbn [list_ascii_of_string In]. intros [H|H]; [discriminate H|].
    revert H. apply nilzero_uint_no_underscore.
Qed.

Lemma to_int_not_nil (n : Z) :
  Z.to_int n <> Decimal.Pos Decimal.Nil
  /\ Z.to_int n <> Decimal.Neg Decimal.Nil.
Proof.
  destruct n as [|p|p]; cbn [Z.to_int]; split; try discriminate;
    intros [= H]; exact (DecimalPos.Unsigned.to_uint_nonnil p H).
Qed.

Lemma str_of_int_inj (n m : Z) : str_of_int n = str_of_int m -> n = m.
Proof.
  unfold str_of_int. intros H.
  apply (f_equal string_of_list_ascii) in H.
  rewrite !string_of_list_ascii_of_string in H.
  apply (f_equal NilZero.int_of_string) in H.
  destruct (to_int_not_nil n) as [Hn1 Hn2].
  destruct (to_int_not_nil m) as [Hm1 Hm2].
  rewrite !NilZero.isi in H by assumption.
  injection H as H. now apply DecimalZ.to_int_inj.
Qed.

(** *** Splitting a name at its last separators *)

Lemma split_at_first {A} (c : A) (a b x y : list A) :
  ~ In c a -> ~ In c b -> a ++ c :: x = b ++ c :: y -> a = b /\ x = y.
Proof.
  revert b. induction a as [|u a IH]; intros [|v b] Ha Hb H;
    cbn [app] in H.
  - injection H as H. now split.
  - injection H as H1 H2. subst v. exfalso. apply Hb. now left.
  - injection H as H1 H2. subst u. exfalso. apply Ha. now left.
  - injection H as H1 H2. subst v.
    destruct (IH b) as [E1 E2]; auto.
    + intros Hin. apply Ha. now right.
    + intros Hin. apply Hb. now right.
    + now subst.
Qed.

Lemma split_at_last {A} (c : A) (a b x y : list A) :
  ~ In c a -> ~ In c b -> x ++ c :: a = y ++ c :: b -> x = y /\ a = b.
Proof.
  intros Ha Hb H.
  apply (f_equal (@rev A)) in H.
  rewrite !rev_app_distr in H. cbn [rev] in H. rewrite <- !app_assoc in H.
  cbn [app] in H.
  apply split_at_first in H; try (rewrite <- in_rev; assumption).
  destruct H as [H1 H2].
  apply (f_equal (@rev A)) in H1, H2. rewrite !rev_involutive in H1, H2.
  now split.
Qed.

(** Distinct (path, timestamp, chunk_index) triples have distinct names. *)
Lemma versioned_name_inj (p p' : str) (t t' i i' : Z) :
  versioned_name p t i = versioned_name p' t' i' ->
  p = p' /\ t = t' /\ i = i'.
Proof.
  unfold versioned_name. intros H.
  change (s "_") with [underscore] in H.
  rewrite !app_assoc in H. rewrite <- !(app_assoc _ [underscore]) in H.
  cbn [app] in H.
  apply split_at_last in H; try apply str_of_int_no_underscore.
  destruct H as [H Hi]. apply str_of_int_inj in Hi.
  apply split_at_last in H; try apply str_of_int_no_underscore.
  destruct H as [Hp Ht]. apply str_of_int_inj in Ht.
  now repeat split.
Qed.

Lemma from_bytes_be_bound (bs : bytes) (acc : Z) :
  Forall is_byte bs -> 0 <= acc ->
  0 <= fold_left (fun a b => a * 256 + b) bs acc
    < (acc + 1) * 256 ^ Z.of_nat (List.length bs).
Proof.
  revert acc. induction bs as [|b bs IH]; intros acc Hall Hacc.
  - cbn [fold_left List.length Z.of_nat]. lia.
  - inversion Hall as [|? ? Hb Hbs]; subst. unfold is_byte in Hb.
    cbn [fold_left]. specialize (IH (acc * 256 + b) Hbs ltac:(lia)).
    rewrite length_cons, Nat2Z.inj_succ, Z.pow_succ_r by lia.
    assert (0 < 256 ^ Z.of_nat (List.length bs)) by (apply Z.pow_pos_nonneg; lia).
    nia.
Qed.

Lemma to_bytes_be_bytes (n : nat) (x : Z) : Forall is_byte (to_bytes_be n x).
Proof.
  unfold to_bytes_be. apply Forall_forall. intros b Hb.
  apply in_map_iff in Hb. destruct Hb as (k & <- & _).
  unfold is_byte. apply Z.mod_pos_bound. lia.
Qed.

Lemma sha1_bytes (msg : bytes) : Forall is_byte (sha1 msg).
Proof.
  unfold sha1.
  destruct (fold_left compress _ init) as [[[[h0 h1] h2] h3] h4].
  repeat (apply Forall_app; split); apply to_bytes_be_bytes.
Qed.

Lemma digest128_range (namespace : Z) (name : str) :
  0 <= digest128 namespace name < 2 ^ 128.
Proof.
  unfold digest128, from_bytes_be.
  set (bs := firstn 16 (sha1 (to_bytes_be 16 namespace ++ encode name))).
  assert (Hall : Forall is_byte bs).
  { unfold bs. apply firstn_Forall, sha1_bytes. }
  assert (Hlen : (List.length bs <= 16)%nat) by (unfold bs; apply firstn_le_length).
  pose proof (from_bytes_be_bound bs 0 Hall ltac:(lia)) as H.
  assert (256 ^ Z.of_nat (List.length bs) <= 256 ^ 16)
    by (apply Z.pow_le_mono_r; lia).
  change (256 ^ 16) with (2 ^ 128) in *. lia.
Qed.

(** *** Pigeonhole *)

Lemma bounded_search (f : nat -> nat) (v n : nat) :
  (exists k, (k <= n)%nat /\ f k = v) \/ (forall k, (k <= n)%nat -> f k <> v).
Proof.
  induction n as [|n [(k & Hk & E)|IH]].
  - destruct (Nat.eq_dec (f 0%nat) v) as [E|E].
    + left. exists 0%nat. split; [lia | exact E].
    + right. intros k Hk. assert (k = 0)%nat as -> by lia. exact E.
  - left. exists k. split; [lia | exact E].
  - destruct (Nat.eq_dec (f (S n)) v) as [E|E].
    + left. exists (S n). split; [lia | exact E].
    + right. intros k Hk.
      destruct (Nat.eq_dec k (S n)) as [->|Hne]; [exact E|].
      apply IH. lia.
Qed.

Lemma pigeonhole (n : nat) :
  forall f : nat -> nat,
    (forall k, (k <= n)%nat -> (f k < n)%nat) ->
    exists i j, (i < j <= n)%nat /\ f i = f j.
Proof.
  induction n as [|n IH]; intros f Hf.
  - specialize (Hf 0%nat (Nat.le_refl _)). lia.
  - destruct (bounded_search f (f (S n)) n) as [(k & Hk & E)|Hfresh].
    + exists k, (S n). split; [lia | exact E].
    + set (g := fun k => if (f k <? f (S n))%nat then f k else pred (f k)).
      destruct (IH g) as (i & j & Hij & E).
      * intros k Hk. unfold g.
        pose proof (Hf k ltac:(lia)). pose proof (Hf (S n) ltac:(lia)).
        pose proof (Hfresh k Hk).
        destruct (f k <? f (S n))%nat eqn:E;
          [apply Nat.ltb_lt in E | apply Nat.ltb_ge in E]; cbv beta iota; lia.
      * exists i, j. split; [lia|].
        pose proof (Hfresh i ltac:(lia)). pose proof (Hfresh j ltac:(lia)).
        unfold g in E.
        destruct (Nat.ltb_spec (f i) (f (S n)));
          destruct (Nat.ltb_spec (f j) (f (S n))); lia.
Qed.

(** Two different paths whose identifiers coincide exist: there are more
    paths than 128-bit digests. *)
Lemma create_versioned_id_collision (t i : Z) :
  exists p p' : str,
    p <> p' /\ create_versioned_id p t i = create_versioned_id p' t i.
Proof.
  set (path := fun k : nat => repeat "a"%char k).
  set (f := fun k : nat =>
              Z.to_nat (digest128 NAMESPACE_URL (versioned_name (path k) t i))).
  destruct (pigeonhole (Z.to_nat (2 ^ 128)) f) as (a & b & Hab & E).
  - intros k _. unfold f. apply Z2Nat.inj_lt;
      try apply digest128_range; lia.
  - exists (path a), (path b). split.
    + intros H. apply (f_equal (@List.length ascii)) in H.
      unfold path in H. rewrite !repeat_length in H. lia.
    + unfold f in E. apply Z2Nat.inj in E; try apply digest128_range.
      unfold create_versioned_id, uuid5. now rewrite E.
Qed.
End IdFacts.

(** ** Claims about identifiers *)

Module IdClaims.
Import Py Sha1 Uuid Versioning IdFacts Properties.

Example sha1_abc :
  hex 40 (from_bytes_be (sha1 (encode (s "abc"))))
  = s "a9993e364706816aba3e25717850c26c9cd0d89d".
Proof. vm_compute. reflexivity. Qed.

Example uuid5_python_org :
  uuid_str (uuid5 NAMESPACE_DNS (s "python.org"))
  = s "886313e1-3b8a-5372-9b90-0c9aee199e5d".
Proof. vm_compute. reflexivity. Qed.

Example create_versioned_id_doc_md :
  create_versioned_id (s "doc.md") 100 0
  = s "f3606779-bc73-57ec-936a-d17da44eae78"
  /\ create_versioned_id (s "doc.md") 100 1
     <> create_versioned_id (s "doc.md") 100 0.
Proof. split; vm_compute; [reflexivity | discriminate]. Qed.

End IdClaims.

(** ** Claims about batch embedding *)

Module EmbeddingClaims.
Import Py Embeddings Properties.

Lemma attempts_rate_limited (max_retries : nat) (cleaned : list str)
    (n left attempt calls : nat) :
  attempts always_rate_limited max_retries cleaned n left attempt calls
  = ([], (calls + left)%nat).
Proof.
  revert attempt calls. induction left as [|left IH]; intros attempt calls;
    cbn [attempts always_rate_limited].
  - f_equal. lia.
  - fold always_rate_limited. rewrite IH. f_equal. lia.
Qed.

(** When every call is rate-limited, nothing at all is returned. *)
Lemma batch_loop_rate_limited (max_retries chunk_size : nat)
    (texts : list str) (starts : list nat) (acc : list vector) (calls : nat) :
  fst (batch_loop always_rate_limited max_retries chunk_size texts starts
         acc calls) = acc.
Proof.
  revert acc calls. induction starts as [|i starts IH]; intros acc calls;
    cbn [batch_loop]; [reflexivity|].
  rewrite attempts_rate_limited. rewrite IH. apply app_nil_r.
Qed.

(** Whatever the texts, the retry ceiling and the batch size, a provider
    that only ever answers with rate-limit errors leaves the result
    empty. *)
Lemma get_embeddings_batch_all_rate_limited (max_retries chunk_size : nat)
    (texts : list str) (calls : nat) :
  chunk_size <> 0%nat ->
  exists calls',
    get_embeddings_batch always_rate_limited max_retries texts chunk_size
      calls = Some ([], calls').
Proof.
  intros Hsize. unfold get_embeddings_batch.
  destruct chunk_size as [|n]; [congruence|].
  pose proof (batch_loop_rate_limited max_retries (S n) texts
                (range0 (List.length texts) (S n)) [] calls) as H.
  destruct (batch_loop always_rate_limited max_retries (S n) texts
              (range0 (List.length texts) (S n)) [] calls) as [out calls'].
  cbn [fst] in H. subst out. now exists calls'.
Qed.

(** C3 at a failing input: one text, five attempts, each answered with a
    rate-limit error.  The list returned is empty, not one zero vector. *)
Theorem get_embeddings_batch_rate_limited :
  get_embeddings_batch always_rate_limited 5 [s "a"] 16 0
  = Some ([], 5%nat)
  /\ List.length (@nil vector) <> List.length [s "a"].
Proof. split; [reflexivity | discriminate]. Qed.

(** The sibling path: five provider errors outside the transient ones do
    give one zero vector of the configured dimensionality. *)
Example get_embeddings_batch_openai_error :
  get_embeddings_batch (fun _ _ => OpenAIError) 5 [s "a"] 16 0
  = Some ([placeholder], 5%nat)
  /\ List.length placeholder = 3072%nat.
Proof. split; vm_compute; reflexivity. Qed.
End EmbeddingClaims.

(** ** The latest-only collapse of [query] *)

Module QueryFacts.
Import Py PyFacts PyData PyDataFacts Qdrant VectorStore Properties.

Lemma In_dict_get {K V} (eq_dec : forall a b : K, {a = b} + {a <> b})
    (d : list (K * V)) (k : K) (v : V) :
  NoDup (map fst d) -> In (k, v) d -> dict_get eq_dec k d = Some v.
Proof.
  induction d as [|[k0 v0] d IH]; cbn [map fst In dict_get]; [tauto|].
  intros Hnd H. inversion Hnd as [|? ? Hnin Hnd']; subst.
  destruct (eq_dec k k0) as [->|Hne].
  - destruct H as [[= ->]|H]; [reflexivity|].
    exfalso. apply Hnin. apply in_map_iff. now exists (k0, v).
  - destruct H as [[= E _]|H]; [congruence | now apply IH].
Qed.

Lemma groups_inv_keep (seen : list ScoredPoint) (g : PathGroups)
    (hit : ScoredPoint) :
  groups_inv seen g ->
  (~ has_payload hit
   \/ exists eh es, In (hit_path hit, (eh, es)) g
                    /\ hit_time hit <= hit_time eh) ->
  groups_inv (seen ++ [hit]) g.
Proof.
  intros (Hnd & Hent & Hcov) Hhit. split; [exact Hnd|]. split.
  - intros k h sc Hin. destruct (Hent k h sc Hin) as (H1 & H2 & H3 & H4 & H5).
    repeat split; auto; [apply in_or_app; now left|].
    intros h' Hin' Hp' Hpath. apply in_app_or in Hin'.
    destruct Hin' as [Hin'|[<-|[]]]; [now apply H5|].
    destruct Hhit as [Hno|(eh & es & Hin2 & Hle)]; [contradiction|].
    rewrite Hpath, H3 in Hin2.
    pose proof (In_dict_get str_eq_dec g k _ Hnd Hin) as E1.
    pose proof (In_dict_get str_eq_dec g k _ Hnd Hin2) as E2.
    rewrite E1 in E2. injection E2 as -> _. exact Hle.
  - intros h' Hin' Hp'. apply in_app_or in Hin'.
    destruct Hin' as [Hin'|[<-|[]]]; [now apply Hcov|].
    destruct Hhit as [Hno|(eh & es & Hin2 & Hle)]; [contradiction|].
    apply in_map_iff. now exists (hit_path hit, (eh, es)).
Qed.

Lemma groups_inv_set (seen : list ScoredPoint) (g : PathGroups)
    (hit : ScoredPoint) :
  groups_inv seen g -> has_payload hit -> newest_in seen hit ->
  groups_inv (seen ++ [hit])
             (dict_set str_eq_dec (hit_path hit) (hit, score hit) g).
Proof.
  intros (Hnd & Hent & Hcov) Hp Hnew. split; [now apply dict_set_NoDup|]. split.
  - intros k h sc Hin. apply dict_set_In in Hin; [|exact Hnd].
    destruct Hin as [[-> [= -> ->]]|[Hne Hin]].
    + repeat split; auto; [apply in_or_app; right; now left|].
      intros h' Hin' Hp' Hpath. apply in_app_or in Hin'.
      destruct Hin' as [Hin'|[<-|[]]]; [now apply Hnew | lia].
    + destruct (Hent k h sc Hin) as (H1 & H2 & H3 & H4 & H5).
      repeat split; auto; [apply in_or_app; now left|].
      intros h' Hin' Hp' Hpath. apply in_app_or in Hin'.
      destruct Hin' as [Hin'|[<-|[]]]; [now apply H5 | congruence].
  - intros h' Hin' Hp'. apply dict_set_keys. apply in_app_or in Hin'.
    destruct Hin' as [Hin'|[<-|[]]]; [right; now apply Hcov | now left].
Qed.

Lemma group_hit_inv (seen : list ScoredPoint) (g : PathGroups)
    (hit : ScoredPoint) :
  groups_inv seen g -> groups_inv (seen ++ [hit]) (group_hit g hit).
Proof.
  intros Hinv. unfold group_hit. change hit_timestamp with hit_time.
  destruct (hit_payload hit) as [pl|] eqn:Hpl.
  - assert (Hp : has_payload hit) by (unfold has_payload; congruence).
    assert (Hpath : path_of pl = hit_path hit)
      by (unfold hit_path; now rewrite Hpl).
    assert (Hts : timestamp_of pl = hit_time hit)
      by (unfold hit_time; now rewrite Hpl).
    rewrite Hpath, Hts.
    destruct Hinv as (Hnd & Hent & Hcov).
    destruct (dict_get str_eq_dec (hit_path hit) g) as [[eh es]|] eqn:Hget.
    + apply dict_get_In in Hget.
      destruct (Hent _ _ _ Hget) as (H1 & H2 & H3 & H4 & H5).
      destruct (hit_time hit >? hit_time eh) eqn:Hgt.
      * apply Z.gtb_lt in Hgt.
        apply groups_inv_set; [exact (conj Hnd (conj Hent Hcov)) | exact Hp |].
        intros h' Hin' Hp' Hsame.
        assert (hit_time h' <= hit_time eh)
          by (apply H5; congruence).
        lia.
      * apply groups_inv_keep; [exact (conj Hnd (conj Hent Hcov))|].
        right. exists eh, es. split; [exact Hget|].
        destruct (Z.gtb_spec (hit_time hit) (hit_time eh));
          [discriminate | lia].
    + apply dict_get_None in Hget.
      apply groups_inv_set; [exact (conj Hnd (conj Hent Hcov)) | exact Hp |].
      intros h' Hin' Hp' Hsame. exfalso. apply Hget.
      rewrite <- Hsame. now apply Hcov.
  - apply groups_inv_keep; [exact Hinv|]. left.
    unfold has_payload. now rewrite Hpl.
Qed.

Lemma fold_group_hit_inv (hits seen : list ScoredPoint) (g : PathGroups) :
  groups_inv seen g ->
  groups_inv (seen ++ hits) (fold_left group_hit hits g).
Proof.
  revert seen g. induction hits as [|hit hits IH]; intros seen g Hinv;
    cbn [fold_left].
  - now rewrite app_nil_r.
  - replace (seen ++ hit :: hits) with ((seen ++ [hit]) ++ hits)
      by (now rewrite <- app_assoc).
    apply IH. now apply group_hit_inv.
Qed.

Lemma groups_inv_nil : groups_inv [] [].
Proof.
  split; [constructor|]. split; [intros ? ? ? []|intros ? []].
Qed.

Lemma score_leb_true (a b : ScoredPoint * Q) :
  score_leb a b = true -> (snd a <= snd b)%Q.
Proof. unfold score_leb. apply Qle_bool_iff. Qed.

Lemma score_leb_false (a b : ScoredPoint * Q) :
  score_leb a b = false -> (snd b <= snd a)%Q.
Proof.
  unfold score_leb. intros H. apply Qlt_le_weak. apply Qnot_le_lt.
  intros Hle. apply Qle_bool_iff in Hle. congruence.
Qed.

Lemma latest_only_filter_ranked (search_result : list ScoredPoint) (limit : Z) :
  0 <= limit ->
  latest_only_filter search_result limit
  = firstn (Z.to_nat limit) (ranked search_result).
Proof.
  intros H. unfold latest_only_filter, ranked.
  rewrite slice_to_firstn by exact H. symmetry. apply firstn_map.
Qed.

Lemma ranked_entries (search_result : list ScoredPoint) :
  let g := fold_left group_hit search_result [] in
  forall e, In e (sorted_desc score_leb (map snd g)) ->
            exists k, In (k, e) g.
Proof.
  intros g e Hin.
  apply (Permutation_in _ (sorted_desc_perm score_leb (map snd g))) in Hin.
  apply in_map_iff in Hin. destruct Hin as ([k e'] & <- & Hin). now exists k.
Qed.

Lemma ranked_sorted (search_result : list ScoredPoint) :
  StronglySorted (fun a b => (score b <= score a)%Q) (ranked search_result).
Proof.
  pose proof (fold_group_hit_inv search_result [] [] groups_inv_nil)
    as (Hnd & Hent & Hcov).
  cbn [app] in *. unfold ranked.
  set (g := fold_left group_hit search_result []) in *.
  assert (Hs : StronglySorted (fun a b : ScoredPoint * Q => (snd b <= snd a)%Q)
                 (sorted_desc score_leb (map snd g))).
  { apply Sorted_StronglySorted.
    - intros a b c Hab Hbc. eapply Qle_trans; eassumption.
    - apply sorted_desc_sorted.
      + intros a b. apply score_leb_true.
      + intros a b. apply score_leb_false. }
  assert (Hsc : forall e, In e (sorted_desc score_leb (map snd g)) ->
                          snd e = score (fst e)).
  { intros [h sc] Hin. destruct (ranked_entries search_result _ Hin) as (k & Hk).
    now destruct (Hent _ _ _ Hk) as (_ & _ & _ & -> & _). }
  apply StronglySorted_map.
  revert Hsc. induction Hs as [|a l Hs IH Hall]; intros Hsc; constructor.
  - apply IH. intros e He. apply Hsc. now right.
  - apply Forall_forall. intros b Hb.
    rewrite Forall_forall in Hall. specialize (Hall b Hb).
    rewrite <- (Hsc a) by now left. rewrite <- (Hsc b) by now right.
    exact Hall.
Qed.

Lemma ranked_members (search_result : list ScoredPoint) (h : ScoredPoint) :
  In h (ranked search_result) ->
  In h search_result /\ has_payload h /\ newest_in search_result h.
Proof.
  pose proof (fold_group_hit_inv search_result [] [] groups_inv_nil)
    as (Hnd & Hent & Hcov).
  cbn [app] in *. unfold ranked. intros Hin.
  apply in_map_iff in Hin. destruct Hin as ([h' sc] & <- & Hin).
  destruct (ranked_entries search_result _ Hin) as (k & Hk).
  destruct (Hent _ _ _ Hk) as (H1 & H2 & H3 & H4 & H5). now repeat split.
Qed.

Lemma ranked_paths_NoDup (search_result : list ScoredPoint) :
  NoDup (map hit_path (ranked search_result)).
Proof.
  pose proof (fold_group_hit_inv search_result [] [] groups_inv_nil)
    as (Hnd & Hent & Hcov).
  cbn [app] in *. unfold ranked.
  set (g := fold_left group_hit search_result []) in *.
  apply (Permutation_NoDup (l := map fst g)); [|exact Hnd].
  transitivity (map hit_path (map fst (map snd g))).
  - rewrite !map_map. clear Hnd Hcov.
    induction g as [|[k [h sc]] g IH]; cbn [map fst snd]; [reflexivity|].
    destruct (Hent k h sc (or_introl eq_refl)) as (_ & _ & -> & _).
    constructor. apply IH. intros k' h' sc' Hin. apply Hent. now right.
  - apply Permutation_map, Permutation_map. symmetry.
    apply sorted_desc_perm.
Qed.

Lemma ranked_covers (search_result : list ScoredPoint) (h' : ScoredPoint) :
  In h' search_result -> has_payload h' ->
  exists h, In h (ranked search_result) /\ hit_path h = hit_path h'.
Proof.
  pose proof (fold_group_hit_inv search_result [] [] groups_inv_nil)
    as (Hnd & Hent & Hcov).
  cbn [app] in *. unfold ranked. intros Hin Hp.
  set (g := fold_left group_hit search_result []) in *.
  specialize (Hcov h' Hin Hp). apply in_map_iff in Hcov.
  destruct Hcov as ([k [h sc]] & Hk & Hin2). cbn [fst] in Hk. subst k.
  exists h. split.
  - apply in_map_iff. exists (h, sc). split; [reflexivity|].
    apply (Permutation_in _ (Permutation_sym
             (sorted_desc_perm score_leb (map snd g)))).
    apply in_map_iff. now exists (hit_path h', (h, sc)).
  - now destruct (Hent _ _ _ Hin2) as (_ & _ & -> & _).
Qed.
End QueryFacts.

(** ** Claims about [query] *)

Module QueryClaims.
Import Py PyFacts PyData PyDataFacts Qdrant VectorStore QueryFacts Properties.

Lemma group_two (old new : ScoredPoint) (p_old p_new : Payload) :
  hit_payload old = Some p_old -> hit_payload new = Some p_new ->
  path_of p_old = path_of p_new ->
  timestamp_of p_old < timestamp_of p_new ->
  fold_left group_hit [old; new] [] = [(path_of p_new, (new, score new))]
  /\ fold_left group_hit [new; old] [] = [(path_of p_new, (new, score new))].
Proof.
  intros Ho Hn Hpath Hts.
  cbn [fold_left]. unfold group_hit at 2 4. rewrite Ho, Hn.
  cbn [dict_get dict_set]. unfold group_hit. rewrite Ho, Hn, Hpath.
  cbn [dict_get dict_set].
  destruct (str_eq_dec (path_of p_new) (path_of p_new)) as [_|Hne];
    [|congruence].
  unfold hit_timestamp. rewrite Ho, Hn.
  destruct (Z.gtb_spec (timestamp_of p_new) (timestamp_of p_old)); [|lia].
  destruct (Z.gtb_spec (timestamp_of p_old) (timestamp_of p_new)); [lia|].
  split; reflexivity.
Qed.

(** C2: for a non-negative [limit], the latest-only post-processing keeps
    one hit per [metadata.path], in each group a hit of the highest
    timestamp, ranks the kept hits by descending score and returns the
    first [limit] of them, which [query] then formats.  With two hits for
    one path, timestamps 100 (score 0.9) and 200 (score 0.7), and
    [limit = 1], only the timestamp-200 hit is returned, in whichever
    order the search returned them. *)
Theorem query_latest_only_collapse (search_result : list ScoredPoint)
    (limit : Z) :
  0 <= limit ->
  let kept := latest_only_filter search_result limit in
  kept = firstn (Z.to_nat limit) (ranked search_result)
  /\ Z.of_nat (List.length kept) <= limit
  /\ StronglySorted (fun a b => (score b <= score a)%Q) (ranked search_result)
  /\ NoDup (map hit_path (ranked search_result))
  /\ (forall h, In h (ranked search_result) ->
        In h search_result /\ has_payload h /\ newest_in search_result h)
  /\ (forall h', In h' search_result -> has_payload h' ->
        exists h, In h (ranked search_result) /\ hit_path h = hit_path h')
  /\ (forall search, search (limit * 3) = Some search_result ->
        query search limit true = flat_map format_hit kept)
  /\ (forall (old new : ScoredPoint) (p_old p_new : Payload)
             (m_old m_new : Metadata),
        hit_payload old = Some p_old -> hit_payload new = Some p_new ->
        metadata p_old = Some m_old -> metadata p_new = Some m_new ->
        dict_get str_eq_dec (s "path") m_old = Some (s "doc.md") ->
        dict_get str_eq_dec (s "path") m_new = Some (s "doc.md") ->
        timestamp p_old = Some 100 -> timestamp p_new = Some 200 ->
        score old = 0.9%Q -> score new = 0.7%Q ->
        latest_only_filter [old; new] 1 = [new]
        /\ latest_only_filter [new; old] 1 = [new]
        /\ query (fun _ => Some [old; new]) 1 true = format_hit new ++ []
        /\ query (fun _ => Some [new; old]) 1 true = format_hit new ++ []).
Proof.
  intros Hlimit kept.
  assert (Hkept : kept = firstn (Z.to_nat limit) (ranked search_result))
    by (now apply latest_only_filter_ranked).
  split; [exact Hkept|]. split.
  { rewrite Hkept.
    pose proof (firstn_le_length (Z.to_nat limit) (ranked search_result)).
    lia. }
  split; [apply ranked_sorted|]. split; [apply ranked_paths_NoDup|].
  split; [apply ranked_members|]. split; [apply ranked_covers|]. split.
  { intros search Hs. unfold query. now rewrite Hs. }
  intros old new p_old p_new m_old m_new Ho Hn Hmo Hmn Hpo Hpn Hto Htn _ _.
  destruct (group_two old new p_old p_new Ho Hn) as [E1 E2].
  { unfold path_of, metadata_path. now rewrite Hmo, Hmn, Hpo, Hpn. }
  { unfold timestamp_of. rewrite Hto, Htn. lia. }
  assert (F1 : latest_only_filter [old; new] 1 = [new])
    by (unfold latest_only_filter; rewrite E1; reflexivity).
  assert (F2 : latest_only_filter [new; old] 1 = [new])
    by (unfold latest_only_filter; rewrite E2; reflexivity).
  repeat split; try assumption; unfold query; rewrite ?F1, ?F2; reflexivity.
Qed.

Lemma query_latest_only_collapse_witness :
  0 <= 1
  /\ latest_only_filter [doc_hit 100 0.9; doc_hit 200 0.7] 1
     = [doc_hit 200 0.7]
  /\ map r_timestamp
       (query (fun _ => Some [doc_hit 100 0.9; doc_hit 200 0.7]) 1 true)
     = [Some 200].
Proof.
  split; [lia|].
  pose proof (query_latest_only_collapse
                [doc_hit 100 0.9; doc_hit 200 0.7] 1 ltac:(lia)) as H.
  cbv zeta in H.
  destruct H as (_ & _ & _ & _ & _ & _ & _ & H).
  destruct (H (doc_hit 100 0.9) (doc_hit 200 0.7) _ _ _ _ eq_refl eq_refl
              eq_refl eq_refl eq_refl eq_refl eq_refl eq_refl eq_refl eq_refl)
    as (H1 & _ & H3 & _).
  split; [exact H1|]. rewrite H3. reflexivity.
Defined.
End QueryClaims.

(** ** Versions of a document *)

Module VersionFacts.
Import Py PyFacts PyData PyDataFacts Qdrant VectorStore Properties.

Section Collect.
Variable format_timestamp : Z -> option str.











End Collect.






End VersionFacts.

(** ** Claims about [get_document_versions] *)

Module VersionClaims.
Import Py PyFacts PyData PyDataFacts Qdrant VectorStore VersionFacts Properties.



End VersionClaims.

(** ** Batched upload *)

Module UploadFacts.
Import Py PyFacts PyData PyDataFacts Qdrant VectorStore.

(** A slice between natural positions. *)
Lemma slice_nat {A} (l : list A) (a b : nat) :
  slice l (Z.of_nat a) (Z.of_nat a + Z.of_nat b) = firstn b (skipn a l).
Proof.
  unfold slice. rewrite !adjust_nonneg_arg by lia. unfold len.
  set (n := List.length l).
  destruct (Nat.le_gt_cases n a) as [Hge|Hlt].
  - rewrite (skipn_all2 l Hge).
    replace (Z.to_nat (Z.min (Z.of_nat a) (Z.of_nat n))) with n by lia.
    unfold n. rewrite skipn_all. now rewrite !firstn_nil.
  - replace (Z.to_nat (Z.min (Z.of_nat a) (Z.of_nat n))) with a by lia.
    destruct (Nat.le_gt_cases (a + b) n) as [Hle|Hgt].
    + f_equal. lia.
    + rewrite !firstn_all2; [reflexivity | |]; rewrite length_skipn;
        fold n; lia.
Qed.

Lemma batch_at_nat {A} (l : list A) (size i : nat) :
  batch_at l size i = firstn size (skipn i l).
Proof. apply slice_nat. Qed.

Lemma ceil_div_bounds (n size : nat) :
  (1 <= size)%nat ->
  (n <= (n + size - 1) / size * size
   /\ (1 <= n -> ((n + size - 1) / size - 1) * size < n))%nat.
Proof.
  intros Hsize.
  pose proof (Nat.div_mod_eq (n + size - 1) size) as E.
  pose proof (Nat.mod_upper_bound (n + size - 1) size ltac:(lia)) as Hr.
  set (q := ((n + size - 1) / size)%nat) in *.
  set (r := ((n + size - 1) mod size)%nat) in *.
  split; [nia|]. intros Hn. destruct q as [|q]; [lia|].
  cbn [Nat.sub]. rewrite Nat.sub_0_r. nia.
Qed.

Lemma range0_length (n size : nat) :
  (1 <= n)%nat -> (1 <= size)%nat ->
  List.length (range0 n size) = ((n - 1) / size + 1)%nat.
Proof.
  intros Hn Hsize. unfold range0. rewrite length_map, length_seq.
  replace (n + size - 1)%nat with ((n - 1) + 1 * size)%nat by lia.
  rewrite Nat.div_add by lia. reflexivity.
Qed.

Lemma batches_prefix {A} (l : list A) (size m : nat) :
  List.concat (map (fun k => batch_at l size (k * size)) (seq 0 m))
  = firstn (m * size) l.
Proof.
  induction m as [|m IH]; [reflexivity|].
  rewrite seq_S, map_app, concat_app, IH. cbn [Nat.add map List.concat].
  rewrite app_nil_r, batch_at_nat.
  replace (S m * size)%nat with (m * size + size)%nat by lia.
  symmetry. apply firstn_add_skipn.
Qed.

(** The batches are the list, cut in order. *)
Lemma batches_concat {A} (l : list A) (size : nat) :
  (1 <= size)%nat ->
  List.concat (map (batch_at l size) (range0 (List.length l) size)) = l.
Proof.
  intros Hsize. unfold range0. rewrite map_map, batches_prefix.
  apply firstn_all2. now apply ceil_div_bounds.
Qed.




(** One batch: [a] attempts fail and are followed by the sleeps
    [2 ** 0], [2 ** 1], ...; then either an attempt succeeds and the batch
    is stored, or the third attempt has failed and the loop gives up. *)
Lemma upload_batch_spec (db : Upserts) (batch : list PointStruct) (w : World) :
  exists a : nat,
    let '(o, w') := upload_batch db batch MAX_RETRIES 0 w in
    slept w' = slept w ++ firstn a [2 ^ 0; 2 ^ 1]
    /\ requests w' = requests w ++ repeat batch (S a)
    /\ (forall j, (j < a)%nat -> db (upsert_calls w + j)%nat <> None)
    /\ ((o = Uploaded /\ (a < 3)%nat
         /\ db (upsert_calls w + a)%nat = None
         /\ store w' = upsert (store w) batch
         /\ upsert_calls w' = (upsert_calls w + a + 1)%nat)
        \/ (o = GaveUp /\ a = 2%nat
            /\ db (upsert_calls w + 2)%nat <> None
            /\ store w' = store w
            /\ upsert_calls w' = (upsert_calls w + 3)%nat)).
Proof.
  unfold MAX_RETRIES. cbn [upload_batch].
  destruct (db (upsert_calls w)) as [e0|] eqn:E0.
  2:{ exists 0%nat. cbn. rewrite app_nil_r, Nat.add_0_r.
      split; [reflexivity|]. split; [reflexivity|].
      split; [intros j Hj; lia|].
      left. repeat split; auto. lia. }
  cbn [Z.of_nat Z.ltb Z.sub Z.add Z.compare Pos.compare Pos.compare_cont
       Z.opp Z.pos_sub Pos.of_succ_nat Pos.succ Z.pow Z.pow_pos Pos.iter Z.mul
       Pos.mul upsert_calls store slept requests].
  destruct (db (S (upsert_calls w))) as [e1|] eqn:E1.
  2:{ exists 1%nat. cbn.
      replace (upsert_calls w + 1)%nat with (S (upsert_calls w)) by lia.
      split; [reflexivity|]. split; [now rewrite <- app_assoc|]. split.
      - intros j Hj. assert (j = 0)%nat as -> by lia.
        rewrite Nat.add_0_r. congruence.
      - left. repeat split; auto. lia. }
  cbn [upsert_calls store slept requests].
  destruct (db (S (S (upsert_calls w)))) as [e2|] eqn:E2.
  - exists 2%nat. cbn.
    replace (upsert_calls w + 2)%nat with (S (S (upsert_calls w))) by lia.
    split; [now rewrite <- app_assoc|].
    split; [now rewrite <- !app_assoc|]. split.
    + intros j Hj. destruct j as [|[|j]]; try lia.
      * rewrite Nat.add_0_r. congruence.
      * replace (upsert_calls w + 1)%nat with (S (upsert_calls w)) by lia.
        congruence.
    + right. repeat split; auto; [congruence | lia].
  - exists 2%nat. cbn.
    replace (upsert_calls w + 2)%nat with (S (S (upsert_calls w))) by lia.
    split; [now rewrite <- app_assoc|].
    split; [now rewrite <- !app_assoc|]. split.
    + intros j Hj. destruct j as [|[|j]]; try lia.
      * rewrite Nat.add_0_r. congruence.
      * replace (upsert_calls w + 1)%nat with (S (upsert_calls w)) by lia.
        congruence.
    + left. repeat split; auto. lia.
Qed.
End UploadFacts.

Module UploadLoop.
Import Py PyFacts PyData PyDataFacts Qdrant VectorStore UploadFacts Properties.

Lemma backoff_waits (a : nat) : Forall backoff_wait (firstn a [2 ^ 0; 2 ^ 1]).
Proof.
  apply firstn_Forall.
  apply Forall_cons; [now left|]. apply Forall_cons; [now right|].
  apply Forall_nil.
Qed.

Lemma upload_loop_spec (db : Upserts) (points : list PointStruct) (size : nat) :
  forall (starts : list nat) (successful : nat) (w : World),
  exists (committed : nat) (tries : list nat) (waits : list Z),
    let r := upload_loop db points size starts successful w in
    let w' := final_world r in
    store w'
    = fold_left upsert (map (batch_at points size) (firstn committed starts))
        (store w)
    /\ requests w'
       = requests w ++ sent (map (batch_at points size) starts) tries
    /\ Forall (fun n => (1 <= n <= 3)%nat) tries
    /\ upsert_calls w' = (upsert_calls w + list_sum tries)%nat
    /\ slept w' = slept w ++ waits
    /\ Forall backoff_wait waits
    /\ match r with
       | inr (successful', _) =>
           committed = List.length starts
           /\ List.length tries = committed
           /\ successful' = (successful + List.length starts)%nat
           /\ (upsert_calls w' <= upsert_calls w + 3 * committed)%nat
       | inl _ =>
           (committed < List.length starts)%nat
           /\ List.length tries = S committed
           /\ last tries 0%nat = 3%nat
           /\ (upsert_calls w + 3 <= upsert_calls w'
               <= upsert_calls w + 3 * committed + 3)%nat
           /\ (forall j, (j < 3)%nat ->
                 db (upsert_calls w' - 1 - j)%nat <> None)
           /\ exists earlier, waits = earlier ++ [2 ^ 0; 2 ^ 1]
       end.
Proof.
  induction starts as [|i starts IH]; intros successful w.
  - exists 0%nat, [], []. cbn. rewrite !app_nil_r.
    repeat split; auto; lia.
  - cbn [upload_loop].
    destruct (upload_batch_spec db (batch_at points size i) w) as (a & Hspec).
    destruct (upload_batch db (batch_at points size i) MAX_RETRIES 0 w)
      as [o w1] eqn:E.
    destruct Hspec as (Hsl & Hrq & Hfail
                       & [(-> & Ha & Hok & Hst & Hcalls)
                         |(-> & -> & Hlast & Hst & Hcalls)]).
    + destruct (IH (S successful) w1) as (c & tries & waits & H).
      cbv zeta in H.
      destruct H as (Hst' & Hrq' & Htries & Hsum & Hsl' & Hw & Hres).
      exists (S c), (S a :: tries), (firstn a [2 ^ 0; 2 ^ 1] ++ waits).
      cbv zeta.
      cbn [firstn map fold_left List.length]. rewrite <- Hst.
      split; [exact Hst'|].
      split.
      { rewrite Hrq', Hrq. unfold sent. cbn [combine map List.concat fst snd].
        now rewrite <- app_assoc. }
      split; [constructor; [lia | exact Htries]|].
      split; [change (list_sum (S a :: tries))
                with (S a + list_sum tries)%nat; lia|].
      split; [now rewrite Hsl', Hsl, app_assoc|].
      split; [apply Forall_app; split; [apply backoff_waits | exact Hw]|].
      destruct (upload_loop db points size starts (S successful) w1)
        as [w2|[s2 w2]]; cbn [final_world] in *.
      * destruct Hres as (Hc & Hlen & Hlt & Hcalls2 & Hlast3 & earlier & ->).
        split; [lia|]. split; [cbn [List.length]; lia|].
        split.
        { destruct tries as [|n tries]; [discriminate Hlen|]. exact Hlt. }
        split; [lia|]. split; [exact Hlast3|].
        exists (firstn a [2 ^ 0; 2 ^ 1] ++ earlier). now rewrite app_assoc.
      * destruct Hres as (Hc & Hlen & Hs2 & Hcalls2).
        repeat split; cbn [List.length]; lia.
    + exists 0%nat, [3%nat], [2 ^ 0; 2 ^ 1]. cbv zeta.
      cbn [firstn map fold_left List.length final_world].
      split; [exact Hst|].
      split.
      { rewrite Hrq. unfold sent. cbn [combine map List.concat fst snd].
        destruct (map (batch_at points size) starts);
          cbn [combine map List.concat]; now rewrite app_nil_r. }
      split; [constructor; [lia | constructor]|].
      split; [change (list_sum [3%nat]) with 3%nat; lia|].
      split; [exact Hsl|].
      split; [apply (backoff_waits 2)|].
      split; [lia|]. split; [reflexivity|]. split; [reflexivity|].
      split; [lia|]. split.
      * intros j Hj. rewrite Hcalls.
        destruct j as [|[|[|j]]]; try lia.
        -- replace (upsert_calls w + 3 - 1 - 0)%nat
             with (upsert_calls w + 2)%nat by lia. exact Hlast.
        -- replace (upsert_calls w + 3 - 1 - 1)%nat
             with (upsert_calls w + 1)%nat by lia. apply Hfail. lia.
        -- replace (upsert_calls w + 3 - 1 - 2)%nat
             with (upsert_calls w + 0)%nat by lia. apply Hfail. lia.
      * now exists [].
Qed.
End UploadLoop.

(** ** Claims about [add_points] *)

Module UploadClaims.
Import Py PyFacts PyData PyDataFacts Qdrant VectorStore UploadFacts UploadLoop Properties.



(** C10: with no points, [add_points] answers [True], calls [upsert] not
    once and leaves the store as it was; the orchestrator, for its part,
    answers [(False, 0)] without calling [add_points] when its embedding
    loop produced no point. *)
Theorem add_points_empty (db : Upserts) (w : World) :
  add_points db [] w = (true, w)
  /\ forall (e : KnowledgeBase.Env) (chunks : list str) (metadata : Metadata)
            (kw : KnowledgeBase.KbWorld) (version_date : str),
       KnowledgeBase.format_timestamp e (KnowledgeBase.now e)
       = Some version_date ->
       fst (fst (KnowledgeBase.embed_loop e chunks metadata
                   (KnowledgeBase.now e) version_date
                   (range0 (List.length chunks)
                      KnowledgeBase.MAX_EMBEDDING_BATCH_SIZE)
                   [] 0 (KnowledgeBase.api_calls kw))) = [] ->
       fst (KnowledgeBase._process_chunks e chunks metadata kw)
       = (false, 0%nat)
       /\ KnowledgeBase.vector_store
            (snd (KnowledgeBase._process_chunks e chunks metadata kw))
          = KnowledgeBase.vector_store kw.
Proof.
  split; [reflexivity|].
  intros e chunks metadata kw version_date Hfmt Hnone.
  unfold KnowledgeBase._process_chunks. rewrite Hfmt.
  destruct (KnowledgeBase.embed_loop e chunks metadata (KnowledgeBase.now e)
              version_date
              (range0 (List.length chunks)
                 KnowledgeBase.MAX_EMBEDDING_BATCH_SIZE)
              [] 0 (KnowledgeBase.api_calls kw)) as [[pts added] calls].
  cbn [fst] in Hnone. subst pts. split; reflexivity.
Qed.

Lemma add_points_empty_witness :
  add_points always_failing [] fresh_world = (true, fresh_world)
  /\ fst (KnowledgeBase._process_chunks rate_limited_env [s "chunk"] []
            empty_world)
     = (false, 0%nat).
Proof.
  split; [exact (proj1 (add_points_empty always_failing fresh_world))|].
  refine (proj1 (proj2 (add_points_empty always_failing fresh_world)
                   rate_limited_env [s "chunk"] [] empty_world
                   (s "2023-11-14 22:13:20") eq_refl _)).
  reflexivity.
Defined.

End UploadClaims.

(** ** Claims about [add_document] *)

Module KnowledgeBaseClaims.
Import Py PyData DocumentProcessor Embeddings Qdrant VectorStore KnowledgeBase Properties.

(** C9: on a file of 0 bytes, whose text is empty, [add_document] answers
    [(False, 0)] and leaves the vector store and the call counts
    untouched: the chunker gives no chunk for the empty text.  Of the
    call only the writes to the caller's metadata dict remain. *)
Theorem add_document_empty_file (fuel : nat) (e : Env) (processor : Processor)
    (file_path : str) (metadata : Metadata) (w : KbWorld) (f : File) :
  fs e file_path = Some f -> st_size f = 0 -> content f = [] ->
  chunk_text fuel (content f) (max_chunk_size processor)
    (chunk_overlap processor) = Some []
  /\ add_document fuel e processor file_path metadata w
     = Some ((false, 0%nat),
             caller_dict metadata (document_metadata file_path metadata), w).
Proof.
  intros Hf Hsize Hcontent. split; [now rewrite Hcontent|].
  unfold add_document, read_file. rewrite Hf.
  destruct (st_size f >? max_file_size_mb processor * (1024 * 1024));
    [reflexivity|].
  destruct (readable f); [|reflexivity].
  now rewrite Hcontent.
Qed.

Lemma add_document_empty_file_witness :
  fs one_file_env (s "empty.md") = Some empty_file
  /\ st_size empty_file = 0 /\ content empty_file = []
  /\ add_document 0 one_file_env default_processor (s "empty.md") []
       empty_world
     = Some ((false, 0%nat), [], empty_world).
Proof.
  split; [reflexivity|]. split; [reflexivity|]. split; [reflexivity|].
  exact (proj2 (add_document_empty_file 0 one_file_env default_processor
                  (s "empty.md") [] empty_world empty_file
                  eq_refl eq_refl eq_refl)).
Defined.
End KnowledgeBaseClaims.



(** * Further properties of the code *)

(** ** More facts about slices and [rfind] *)

Module SliceFacts.
Import Py PyFacts.

Lemma slice_glue_gen {A} (l : list A) (i j k : Z) :
  0 <= i <= j -> j <= k <= len l ->
  slice l i j ++ slice l j k = slice l i k.
Proof.
  intros Hi Hk. unfold slice. rewrite !(adjust_id (len l)) by lia.
  replace (Z.to_nat (k - i)) with (Z.to_nat (j - i) + Z.to_nat (k - j))%nat
    by lia.
  rewrite firstn_add_skipn, skipn_skipn.
  replace (Z.to_nat (j - i) + Z.to_nat i)%nat with (Z.to_nat j) by lia.
  reflexivity.
Qed.

Lemma firstn_1_skipn {A} (l : list A) (n : nat) (x : A) :
  nth_error l n = Some x -> firstn 1 (skipn n l) = [x].
Proof.
  revert l. induction n as [|n IH]; intros [|y l]; cbn; try discriminate.
  - now intros [= ->].
  - apply IH.
Qed.

Lemma slice_single {A} (l : list A) (j : Z) (x : A) :
  0 <= j < len l -> nth_error l (Z.to_nat j) = Some x ->
  slice l j (j + 1) = [x].
Proof.
  intros Hj Hx. unfold slice. rewrite !(adjust_id (len l)) by lia.
  replace (Z.to_nat (j + 1 - j)) with 1%nat by lia.
  now apply firstn_1_skipn.
Qed.

Lemma rfind_below_hit (text : str) (c : ascii) (lo : Z) (hi : nat) :
  rfind_below text c lo hi <> -1 ->
  nth_error text (Z.to_nat (rfind_below text c lo hi)) = Some c.
Proof.
  induction hi as [|k IH]; cbn [rfind_below]; [congruence|].
  destruct (lo <=? Z.of_nat k); cbn [andb]; [|exact IH].
  destruct (nth_error text k) as [x|] eqn:E; [|exact IH].
  destruct (Ascii.eqb_spec x c) as [->|Hne]; [|exact IH].
  intros _. now rewrite Nat2Z.id.
Qed.

Lemma rfind_hit (text : str) (c : ascii) (a b : Z) :
  rfind text c a b <> -1 ->
  nth_error text (Z.to_nat (rfind text c a b)) = Some c.
Proof. unfold rfind. apply rfind_below_hit. Qed.

End SliceFacts.

(** ** The chunker without overlap, and with it *)

Module ChunkExtras.
Import Py PyFacts DocumentProcessor ChunkFacts ChunkLoop SliceFacts
  ExtraProperties.

(** A window that stops inside the text gives a well-cut chunk. *)
Lemma window_cut (text : str) (max_size start : Z) :
  1 <= max_size -> 0 <= start < len text ->
  window_end text max_size start < len text ->
  well_cut max_size (slice text start (window_end text max_size start)).
Proof.
  intros Hmax Hstart Hend.
  destruct (window_end_bounds text max_size start Hmax Hstart) as [Hlo Hhi].
  pose proof (window_end_half text max_size start Hmax Hstart Hend) as Hhalf.
  pose proof (half_bounds max_size Hmax) as Hh.
  split; [rewrite len_slice by lia; lia|].
  revert Hend Hlo Hhi Hhalf. unfold window_end.
  set (e := Z.min (start + max_size) (len text)).
  destruct (e <? len text) eqn:E1; [|intros; lia].
  apply Z.ltb_lt in E1.
  assert (He : e = start + max_size) by (unfold e in *; lia).
  assert (Hbreak : forall c r, r = rfind text c start e
                               \/ r = rfind text c (start + max_size / 2) e ->
                     start < r -> r + 1 <= e ->
                     nth_error text (Z.to_nat r) = Some c ->
                     ends_with_break (slice text start (r + 1))
                     \/ (c <> newline /\ c <> space)).
  { intros c r _ Hr He' Hc.
    destruct (ascii_dec c newline) as [->|Hn].
    - left. exists (slice text start r), newline. split; [|now left].
      rewrite <- (slice_glue_gen text start r (r + 1)) by lia.
      f_equal. apply slice_single; [lia | exact Hc].
    - destruct (ascii_dec c space) as [->|Hs]; [|now right].
      left. exists (slice text start r), space. split; [|now right].
      rewrite <- (slice_glue_gen text start r (r + 1)) by lia.
      f_equal. apply slice_single; [lia | exact Hc]. }
  destruct (rfind text newline start e >? start + max_size / 2) eqn:E2.
  - apply Z.gtb_lt in E2. intros _ _ Hle _. right.
    destruct (Hbreak newline (rfind text newline start e)) as [H|[H _]];
      auto; try lia; [|congruence].
    apply rfind_hit. lia.
  - destruct (rfind text space (start + max_size / 2) e >? start) eqn:E3.
    + apply Z.gtb_lt in E3. intros _ _ Hle _. right.
      destruct (Hbreak space (rfind text space (start + max_size / 2) e))
        as [H|[_ H]]; auto; try lia; [|congruence].
      apply rfind_hit. lia.
    + intros _ _ _ _. left. rewrite len_slice by lia. lia.
Qed.

(** The loop invariant for [overlap = 0]: sizes, reconstruction, and the
    cuts of all chunks but the last. *)
Lemma chunk_loop_cuts (text : str) (max_size : Z) :
  1 <= max_size ->
  forall (fuel : nat) (start : Z) (chunks : list str),
    0 <= start <= len text ->
    len text - start <= Z.of_nat fuel ->
    List.concat chunks = slice text 0 start ->
    Forall (fun c => 1 <= len c <= max_size) chunks ->
    (if start <? len text then Forall (well_cut max_size) chunks
     else Forall (well_cut max_size) (removelast chunks)) ->
    exists r,
      chunk_loop fuel text max_size 0 start chunks = Some r
      /\ List.concat r = text
      /\ Forall (fun c => 1 <= len c <= max_size) r
      /\ Forall (well_cut max_size) (removelast r).
Proof.
  intros Hmax fuel.
  induction fuel as [|fuel IH]; intros start chunks Hs Hf Hc Hall Hcut;
    cbn [chunk_loop]; destruct (start <? len text) eqn:E;
    try (apply Z.ltb_ge in E; exists chunks;
         assert (start = len text) as -> by lia;
         rewrite slice_all in Hc; now repeat split).
  - apply Z.ltb_lt in E. lia.
  - apply Z.ltb_lt in E.
    destruct (window_end_bounds text max_size start Hmax (conj (proj1 Hs) E))
      as [Hlo Hhi].
    rewrite Z.sub_0_r.
    apply IH.
    + lia.
    + lia.
    + rewrite concat_app. cbn [List.concat]. rewrite app_nil_r, Hc.
      apply slice_glue; lia.
    + apply Forall_app. split; [exact Hall|].
      constructor; [|constructor]. rewrite len_slice by lia. lia.
    + destruct (window_end text max_size start <? len text) eqn:E2.
      * apply Z.ltb_lt in E2. apply Forall_app. split; [exact Hcut|].
        constructor; [|constructor].
        apply window_cut; [exact Hmax | lia | exact E2].
      * now rewrite removelast_last.
Qed.

(** X1: without overlap, a text longer than [max_size >= 1] is returned,
    for any fuel of at least [len(text)] iterations, as at least two
    chunks, none empty, none longer than [max_size], whose concatenation
    is the text. *)
Theorem chunk_text_no_overlap_partitions (fuel : nat) (text : str)
    (max_size : Z) :
  1 <= max_size -> len text > max_size -> (List.length text <= fuel)%nat ->
  exists chunks,
    chunk_text fuel text max_size 0 = Some chunks
    /\ List.concat chunks = text
    /\ Forall (fun c => 1 <= len c <= max_size) chunks
    /\ (2 <= List.length chunks)%nat.
Proof.
  intros Hmax Hlen Hfuel. unfold chunk_text.
  destruct text as [|c0 text]; [unfold len in Hlen; cbn in Hlen; lia|].
  set (t := c0 :: text) in *.
  destruct (len t <=? max_size) eqn:E; [apply Z.leb_le in E; lia|].
  destruct (chunk_loop_cuts t max_size Hmax fuel 0 [])
    as (r & Hr & Hcat & Hsz & _).
  - lia.
  - unfold len. lia.
  - cbn [List.concat]. now rewrite slice_empty.
  - constructor.
  - destruct (0 <? len t); constructor.
  - exists r. repeat split; auto.
    destruct r as [|c1 [|c2 r]]; cbn [List.length]; try lia.
    + cbn [List.concat] in Hcat. unfold t in Hcat. discriminate.
    + cbn [List.concat] in Hcat. rewrite app_nil_r in Hcat. subst c1.
      inversion Hsz as [|? ? Hc1 _]; subst. lia.
Qed.

Lemma chunk_text_no_overlap_partitions_witness :
  1 <= 4 /\ len (s "one two three") > 4
  /\ (List.length (s "one two three") <= 13)%nat
  /\ exists chunks,
       chunk_text 13 (s "one two three") 4 0 = Some chunks
       /\ List.concat chunks = s "one two three"
       /\ Forall (fun c => 1 <= len c <= 4) chunks
       /\ (2 <= List.length chunks)%nat.
Proof.
  split; [lia|]. split; [reflexivity|]. split; [cbn; lia|].
  apply (chunk_text_no_overlap_partitions 13 (s "one two three") 4);
    [lia | reflexivity | cbn; lia].
Defined.

(** X2: with an overlap of at least 1, [chunk_text] does not return on
    any non-empty text longer than [max_size]: whatever the fuel, the loop
    is still running. *)
Theorem chunk_text_overlap_never_returns (text : str)
    (max_size overlap : Z) :
  text <> [] -> len text > max_size -> 1 <= overlap ->
  forall fuel : nat, chunk_text fuel text max_size overlap = None.
Proof.
  intros Hne Hlen Hov fuel. unfold chunk_text.
  destruct text as [|c text]; [congruence|].
  destruct (len (c :: text) <=? max_size) eqn:E;
    [apply Z.leb_le in E; lia|].
  apply chunk_loop_never_exits; [exact Hov | unfold len; cbn; lia].
Qed.

Lemma chunk_text_overlap_never_returns_witness :
  s "hello world" <> [] /\ len (s "hello world") > 5 /\ 1 <= 2
  /\ chunk_text 1000 (s "hello world") 5 2 = None.
Proof.
  split; [discriminate|]. split; [reflexivity|]. split; [lia|].
  apply (chunk_text_overlap_never_returns (s "hello world") 5 2);
    [discriminate | reflexivity | lia].
Defined.

(** X3: without overlap, every chunk but the last is longer than
    [max_size // 2] and either has exactly [max_size] characters or ends
    right after a newline or a space. *)
Theorem chunk_text_no_overlap_cuts (fuel : nat) (text : str) (max_size : Z)
    (chunks : list str) :
  1 <= max_size -> len text > max_size ->
  chunk_text fuel text max_size 0 = Some chunks ->
  Forall (well_cut max_size) (removelast chunks).
Proof.
  intros Hmax Hlen. unfold chunk_text.
  destruct text as [|c0 text]; [unfold len in Hlen; cbn in Hlen; lia|].
  set (t := c0 :: text) in *.
  destruct (len t <=? max_size) eqn:E; [apply Z.leb_le in E; lia|].
  intros Hrun.
  assert (Hmono : forall f1 f2 st acc r,
             chunk_loop f1 t max_size 0 st acc = Some r ->
             (f1 <= f2)%nat ->
             chunk_loop f2 t max_size 0 st acc = Some r).
  { induction f1 as [|f1 IH]; intros f2 st acc r H Hle;
      destruct f2 as [|f2]; cbn [chunk_loop] in *;
      destruct (st <? len t); try discriminate; try exact H; try lia.
    apply IH; [exact H | lia]. }
  destruct (chunk_loop_cuts t max_size Hmax (Nat.max fuel (List.length t)) 0 [])
    as (r & Hr & _ & _ & Hcut).
  - lia.
  - unfold len. lia.
  - cbn [List.concat]. now rewrite slice_empty.
  - constructor.
  - destruct (0 <? len t); constructor.
  - apply (Hmono fuel (Nat.max fuel (List.length t))) in Hrun; [|lia].
    rewrite Hrun in Hr. injection Hr as <-. exact Hcut.
Qed.

Lemma chunk_text_no_overlap_cuts_witness :
  1 <= 8 /\ len (s "hello world foo bar") > 8
  /\ chunk_text 19 (s "hello world foo bar") 8 0
     = Some [s "hello "; s "world "; s "foo bar"]
  /\ Forall (well_cut 8) [s "hello "; s "world "].
Proof.
  split; [lia|]. split; [reflexivity|]. split; [reflexivity|].
  exact (chunk_text_no_overlap_cuts 19 (s "hello world foo bar") 8
           [s "hello "; s "world "; s "foo bar"]
           ltac:(lia) eq_refl eq_refl).
Defined.

End ChunkExtras.

(** ** Embeddings: what is sent, how often, and what comes back *)

Module EmbeddingExtras.
Import Py PyFacts PyData PyDataFacts PyStr DocumentProcessor Embeddings
  VectorStore UploadFacts Properties ExtraProperties.

Lemma In_slice {A} (l : list A) (i j : Z) (x : A) :
  In x (slice l i j) -> In x l.
Proof.
  unfold slice. intros H. apply In_firstn in H.
  rewrite <- (firstn_skipn (Z.to_nat (adjust (len l) i)) l).
  apply in_or_app. now right.
Qed.

Lemma clean_sendable (text : str) : sendable (clean text).
Proof.
  unfold clean, sendable. split.
  - intros H. apply In_slice in H. apply in_map_iff in H.
    destruct H as (c & Hc & _).
    destruct (Ascii.eqb c newline) eqn:E; [discriminate Hc|].
    apply Ascii.eqb_neq in E. congruence.
  - rewrite slice_to_firstn by lia. unfold len.
    rewrite length_firstn. lia.
Qed.

Lemma clean_length (text : str) : len (clean text) = Z.min (len text) 8191.
Proof.
  unfold clean. rewrite slice_to_firstn by lia. unfold len.
  rewrite length_firstn, length_map. lia.
Qed.

Lemma length_batch_at {A} (l : list A) (size i : nat) :
  (List.length (batch_at l size i) <= size)%nat.
Proof. rewrite batch_at_nat. apply firstn_le_length. Qed.

Section TwoProviders.
Variables api api' : Api.
Variable chunk_size : nat.
(** The two providers agree on every list of at most [chunk_size]
    sendable texts. *)
Hypothesis agree :
  forall n input,
    Forall sendable input -> (List.length input <= chunk_size)%nat ->
    api n input = api' n input.

Lemma attempts_agree (max_retries : nat) (cleaned : list str)
    (n left attempt calls : nat) :
  Forall sendable cleaned -> (List.length cleaned <= chunk_size)%nat ->
  attempts api max_retries cleaned n left attempt calls
  = attempts api' max_retries cleaned n left attempt calls.
Proof.
  intros Hs Hl. revert attempt calls.
  induction left as [|left IH]; intros attempt calls; cbn [attempts];
    [reflexivity|].
  rewrite (agree calls cleaned Hs Hl).
  destruct (api' calls cleaned); try reflexivity; try apply IH.
  destruct (Z.of_nat attempt <? Z.of_nat max_retries - 1); rewrite IH;
    reflexivity.
Qed.

Lemma batch_loop_agree (max_retries : nat) (texts : list str)
    (starts : list nat) (acc : list vector) (calls : nat) :
  batch_loop api max_retries chunk_size texts starts acc calls
  = batch_loop api' max_retries chunk_size texts starts acc calls.
Proof.
  revert acc calls. induction starts as [|i starts IH]; intros acc calls;
    cbn [batch_loop]; [reflexivity|].
  rewrite attempts_agree.
  - destruct (attempts api' max_retries _ _ max_retries 0 calls). apply IH.
  - apply Forall_forall. intros x Hx. apply in_map_iff in Hx.
    destruct Hx as (y & <- & _). apply clean_sendable.
  - rewrite length_map. apply (length_batch_at texts chunk_size i).
Qed.
End TwoProviders.

(** X4: [get_embeddings_batch] consults the provider only on lists of at
    most [chunk_size] texts, each without a newline and of at most 8191
    characters: two providers that agree on such lists give the same
    result and the same number of calls. *)
Theorem get_embeddings_batch_sends_clean_texts (api api' : Api)
    (max_retries chunk_size : nat) (texts : list str) (calls : nat) :
  (forall n input,
     Forall sendable input -> (List.length input <= chunk_size)%nat ->
     api n input = api' n input) ->
  get_embeddings_batch api max_retries texts chunk_size calls
  = get_embeddings_batch api' max_retries texts chunk_size calls.
Proof.
  intros Hagree. unfold get_embeddings_batch.
  destruct chunk_size as [|cs]; [reflexivity|].
  f_equal. now apply batch_loop_agree.
Qed.

Lemma fussy_obliging (n : nat) (input : list str) :
  Forall sendable input -> fussy n input = obliging n input.
Proof.
  intros H. unfold fussy, obliging.
  replace (forallb _ input) with true; [reflexivity|].
  symmetry. apply forallb_forall. intros t Ht.
  rewrite Forall_forall in H. destruct (H t Ht) as [Hn _].
  apply negb_true_iff. apply not_true_is_false. intros E.
  apply existsb_exists in E. destruct E as (c & Hc & Hcn).
  apply Ascii.eqb_eq in Hcn. subst c. contradiction.
Qed.

Lemma get_embeddings_batch_sends_clean_texts_witness :
  get_embeddings_batch fussy 5 [s "a"; DocumentProcessor.newline :: s "b"] 16 0
  = get_embeddings_batch obliging 5
      [s "a"; DocumentProcessor.newline :: s "b"] 16 0.
Proof.
  apply (get_embeddings_batch_sends_clean_texts fussy obliging 5 16).
  intros n input Hs _. now apply fussy_obliging.
Defined.

Lemma attempts_length (api : Api) (max_retries : nat) (cleaned : list str)
    (n : nat) :
  well_sized api -> never_transient api -> List.length cleaned = n ->
  forall left attempt calls,
    (1 <= left)%nat -> (left + attempt = max_retries)%nat ->
    List.length (fst (attempts api max_retries cleaned n left attempt calls))
    = n.
Proof.
  intros Hws Hnt Hn. induction left as [|left IH]; intros attempt calls Hl Hsum;
    [lia|].
  cbn [attempts]. pose proof (Hnt calls cleaned) as Ht. unfold transient in Ht.
  destruct (api calls cleaned) as [data| | | | |] eqn:E; cbn [fst];
    try (exfalso; apply Ht; auto; fail).
  - apply Hws in E. congruence.
  - destruct (Z.ltb_spec (Z.of_nat attempt) (Z.of_nat max_retries - 1)).
    + apply IH; lia.
    + assert (left = 0)%nat as -> by lia. cbn [attempts fst].
      rewrite app_nil_r. apply repeat_length.
  - apply repeat_length.
Qed.

Lemma batch_loop_length (api : Api) (max_retries chunk_size : nat)
    (texts : list str) :
  well_sized api -> never_transient api -> (1 <= max_retries)%nat ->
  forall starts acc calls,
    List.length (fst (batch_loop api max_retries chunk_size texts starts
                        acc calls))
    = (List.length acc
       + List.length (List.concat (map (batch_at texts chunk_size) starts)))%nat.
Proof.
  intros Hws Hnt Hr. induction starts as [|i starts IH]; intros acc calls;
    cbn [batch_loop map List.concat].
  - cbn. lia.
  - pose proof (attempts_length api max_retries
                  (map clean (batch_at texts chunk_size i))
                  (List.length (batch_at texts chunk_size i)) Hws Hnt
                  (length_map _ _) max_retries 0 calls Hr ltac:(lia)) as Hlen.
    unfold batch_at in *.
    destruct (attempts api max_retries _ _ max_retries 0 calls) as [out c'].
    cbn [fst] in Hlen. rewrite IH, !length_app, Hlen. lia.
Qed.

(** X5: when the provider answers with one vector per text and never
    with a rate-limit, timeout or connection error, and at least one
    attempt is allowed, [get_embeddings_batch] returns exactly one vector
    per input text. *)
Theorem get_embeddings_batch_length (api : Api)
    (max_retries chunk_size : nat) (texts : list str) (calls : nat) :
  well_sized api -> never_transient api ->
  (1 <= max_retries)%nat -> (1 <= chunk_size)%nat ->
  exists embeddings calls',
    get_embeddings_batch api max_retries texts chunk_size calls
    = Some (embeddings, calls')
    /\ List.length embeddings = List.length texts.
Proof.
  intros Hws Hnt Hr Hcs. unfold get_embeddings_batch.
  destruct chunk_size as [|cs]; [lia|].
  pose proof (batch_loop_length api max_retries (S cs) texts Hws Hnt Hr
                (range0 (List.length texts) (S cs)) [] calls) as H.
  destruct (batch_loop api max_retries (S cs) texts _ [] calls)
    as [embeddings calls'].
  exists embeddings, calls'. split; [reflexivity|].
  cbn [fst List.length Nat.add] in H. rewrite H.
  now rewrite batches_concat by lia.
Qed.

Lemma obliging_well_sized : well_sized obliging.
Proof.
  intros n input data [= <-]. apply length_map.
Qed.

Lemma obliging_never_transient : never_transient obliging.
Proof.
  intros n input [H|[H|H]]; discriminate H.
Qed.

Lemma get_embeddings_batch_length_witness :
  exists embeddings calls',
    get_embeddings_batch obliging 5 [s "a"; s "b"; s "c"] 2 0
    = Some (embeddings, calls')
    /\ List.length embeddings = 3%nat.
Proof.
  apply (get_embeddings_batch_length obliging 5 2 [s "a"; s "b"; s "c"] 0);
    [apply obliging_well_sized | apply obliging_never_transient | lia | lia].
Defined.

Lemma attempts_calls (api : Api) (max_retries : nat) (cleaned : list str)
    (n left attempt calls : nat) :
  (calls <= snd (attempts api max_retries cleaned n left attempt calls)
   <= calls + left)%nat.
Proof.
  revert attempt calls. induction left as [|left IH]; intros attempt calls;
    cbn [attempts]; [cbn; lia|].
  destruct (api calls cleaned); cbn [snd]; try lia;
    try (specialize (IH (S attempt) (S calls)); lia).
  destruct (Z.of_nat attempt <? Z.of_nat max_retries - 1).
  - specialize (IH (S attempt) (S calls)). lia.
  - specialize (IH (S attempt) (S calls)).
    destruct (attempts api max_retries cleaned n left (S attempt) (S calls)).
    cbn [snd] in *. lia.
Qed.

Lemma batch_loop_calls (api : Api) (max_retries chunk_size : nat)
    (texts : list str) (starts : list nat) (acc : list vector) (calls : nat) :
  (calls <= snd (batch_loop api max_retries chunk_size texts starts acc calls)
   <= calls + max_retries * List.length starts)%nat.
Proof.
  revert acc calls. induction starts as [|i starts IH]; intros acc calls;
    cbn [batch_loop List.length]; [cbn; lia|].
  pose proof (attempts_calls api max_retries
                (map clean (slice texts (Z.of_nat i)
                              (Z.of_nat i + Z.of_nat chunk_size)))
                (List.length (slice texts (Z.of_nat i)
                                (Z.of_nat i + Z.of_nat chunk_size)))
                max_retries 0 calls) as Hc.
  destruct (attempts api max_retries _ _ max_retries 0 calls) as [out c'].
  cbn [snd] in Hc. specialize (IH (acc ++ out) c'). lia.
Qed.

(** X6: whatever the provider does, [get_embeddings_batch] makes at most
    [max_retries] calls for each of the [ceil(len(texts) / chunk_size)]
    sub-batches. *)
Theorem get_embeddings_batch_calls (api : Api)
    (max_retries chunk_size : nat) (texts : list str) (calls : nat)
    (embeddings : list vector) (calls' : nat) :
  get_embeddings_batch api max_retries texts chunk_size calls
  = Some (embeddings, calls') ->
  (calls <= calls'
   <= calls + max_retries
              * ((List.length texts + chunk_size - 1) / chunk_size))%nat.
Proof.
  unfold get_embeddings_batch. destruct chunk_size as [|cs]; [discriminate|].
  intros [= H].
  pose proof (batch_loop_calls api max_retries (S cs) texts
                (range0 (List.length texts) (S cs)) [] calls) as Hc.
  rewrite H in Hc. cbn [snd] in Hc.
  unfold range0 in Hc. rewrite length_map, length_seq in Hc. exact Hc.
Qed.

Lemma get_embeddings_batch_calls_witness :
  get_embeddings_batch always_rate_limited 5 [s "a"; s "b"; s "c"] 2 0
  = Some ([], 10%nat)
  /\ (0 <= 10 <= 0 + 5 * ((3 + 2 - 1) / 2))%nat.
Proof.
  split; [reflexivity|].
  apply (get_embeddings_batch_calls always_rate_limited 5 2
           [s "a"; s "b"; s "c"] 0 [] 10).
  reflexivity.
Defined.

End EmbeddingExtras.

(** ** Embeddings: one text *)

Module SingleEmbeddingExtras.
Import Py PyFacts PyStr DocumentProcessor Embeddings Properties
  ExtraProperties.
Import EmbeddingGenerator.

Lemma lstrip_nil (t : str) : lstrip t = [] <-> blank t.
Proof.
  unfold blank. induction t as [|c t IH]; cbn [lstrip].
  - split; [constructor | reflexivity].
  - destruct (is_space c) eqn:E.
    + rewrite IH. split; [now constructor | now inversion 1].
    + split; [discriminate|]. inversion 1. congruence.
Qed.

Lemma lstrip_blank_or_head (t : str) :
  lstrip t = [] \/ exists c rest, lstrip t = c :: rest /\ is_space c = false.
Proof.
  induction t as [|c t IH]; cbn [lstrip]; [now left|].
  destruct (is_space c) eqn:E; [exact IH|].
  right. now exists c, t.
Qed.

Lemma lstrip_suffix (t : str) : exists front, t = front ++ lstrip t /\ blank front.
Proof.
  induction t as [|c t (front & Hf & Hb)]; cbn [lstrip].
  - exists []. split; [reflexivity | constructor].
  - destruct (is_space c) eqn:E.
    + exists (c :: front). split; [cbn; now f_equal | now constructor].
    + exists []. split; [reflexivity | constructor].
Qed.

(** [t.strip()] is empty exactly for a text of whitespace only. *)
Lemma strip_nil (t : str) : strip t = [] <-> blank t.
Proof.
  unfold strip. split.
  - intros H. apply (f_equal (@rev ascii)) in H. rewrite rev_involutive in H.
    cbn [rev] in H. apply lstrip_nil in H.
    destruct (lstrip_blank_or_head t) as [E|(c & rest & E & Hc)].
    + now apply lstrip_nil.
    + exfalso. rewrite E in H. unfold blank in H.
      rewrite Forall_forall in H.
      specialize (H c). rewrite <- in_rev in H.
      rewrite H in Hc; [discriminate | now left].
  - intros H. apply lstrip_nil in H. rewrite H. reflexivity.
Qed.

Lemma single_attempts_spec (api : Api) (max_retries : nat) (input : str) :
  forall left attempt calls,
    (left + attempt = max_retries)%nat ->
    let r := single_attempts api max_retries input left attempt calls in
    match fst r with
    | inr v =>
        exists k rest,
          (k < left)%nat /\ snd r = (calls + k + 1)%nat
          /\ api (calls + k)%nat [input] = Response (v :: rest)
          /\ forall j, (j < k)%nat -> retryable (api (calls + j)%nat [input])
    | inl EmbeddingError =>
        snd r = (calls + left)%nat
        /\ forall j, (j < left)%nat -> retryable (api (calls + j)%nat [input])
    | inl RaisedOpenAIError =>
        (1 <= left)%nat /\ snd r = (calls + left)%nat
        /\ api (calls + left - 1)%nat [input] = OpenAIError
    | inl RaisedOther =>
        exists k,
          (k < left)%nat /\ snd r = (calls + k + 1)%nat
          /\ (api (calls + k)%nat [input] = OtherError
              \/ api (calls + k)%nat [input] = Response [])
    end.
Proof.
  induction left as [|left IH]; intros attempt calls Hsum; cbn [single_attempts].
  - cbn. split; [lia | intros j Hj; lia].
  - assert (Hshift : forall j, (S calls + j = calls + S j)%nat) by (intros; lia).
    assert (Hnext :
      forall o, api calls [input] = o -> retryable o ->
        let r := single_attempts api max_retries input left (S attempt)
                   (S calls) in
        match fst r with
        | inr v =>
            exists k rest,
              (k < S left)%nat /\ snd r = (calls + k + 1)%nat
              /\ api (calls + k)%nat [input] = Response (v :: rest)
              /\ forall j, (j < k)%nat ->
                           retryable (api (calls + j)%nat [input])
        | inl EmbeddingError =>
            snd r = (calls + S left)%nat
            /\ forall j, (j < S left)%nat ->
                         retryable (api (calls + j)%nat [input])
        | inl RaisedOpenAIError =>
            (1 <= S left)%nat /\ snd r = (calls + S left)%nat
            /\ api (calls + S left - 1)%nat [input] = OpenAIError
        | inl RaisedOther =>
            exists k,
              (k < S left)%nat /\ snd r = (calls + k + 1)%nat
              /\ (api (calls + k)%nat [input] = OtherError
                  \/ api (calls + k)%nat [input] = Response [])
        end).
    { intros o Ho Hre. specialize (IH (S attempt) (S calls) ltac:(lia)).
      cbv zeta in *.
      destruct (single_attempts api max_retries input left (S attempt)
                  (S calls)) as [[[| |]|v] c']; cbn [fst snd] in *.
      - destruct IH as (H1 & H2 & H3). split; [lia|]. split; [lia|].
        replace (calls + S left - 1)%nat with (S calls + left - 1)%nat by lia.
        exact H3.
      - destruct IH as (k & H1 & H2 & H3). exists (S k).
        split; [lia|]. split; [lia|]. now rewrite <- Hshift.
      - destruct IH as (H1 & H2). split; [lia|].
        intros [|j] Hj; [rewrite Nat.add_0_r, Ho; exact Hre|].
        rewrite <- Hshift. apply H2. lia.
      - destruct IH as (k & rest & H1 & H2 & H3 & H4). exists (S k), rest.
        split; [lia|]. split; [lia|]. split; [now rewrite <- Hshift|].
        intros [|j] Hj; [rewrite Nat.add_0_r, Ho; exact Hre|].
        rewrite <- Hshift. apply H4. lia. }
    destruct (api calls [input]) as [[|v rest]| | | | |] eqn:E.
    + cbn. exists 0%nat. rewrite Nat.add_0_r. repeat split; auto; lia.
    + cbn. exists 0%nat, rest. rewrite Nat.add_0_r.
      repeat split; auto; try lia; intros j Hj; lia.
    + apply (Hnext RateLimitError eq_refl). left. now left.
    + apply (Hnext APITimeoutError eq_refl). left. right. now left.
    + apply (Hnext APIConnectionError eq_refl). left. right. now right.
    + destruct (Z.ltb_spec (Z.of_nat attempt) (Z.of_nat max_retries - 1)).
      * apply (Hnext OpenAIError eq_refl). now right.
      * cbn. split; [lia|]. split; [lia|].
        replace (calls + S left - 1)%nat with calls by lia. exact E.
    + cbn. exists 0%nat. rewrite Nat.add_0_r. repeat split; auto; lia.
Qed.

(** X7: a vector that [get_embedding] returns for a text that is not all
    whitespace is the first embedding of a provider answer to the cleaned
    text, given on call [k + 1 <= max_retries] after [k] calls that raised
    provider errors. *)
Theorem get_embedding_answer (api : Api) (max_retries : nat) (text : str)
    (calls calls' : nat) (v : vector) :
  ~ blank text ->
  get_embedding api max_retries text calls = (inr v, calls') ->
  exists k rest,
    (k < max_retries)%nat /\ calls' = (calls + k + 1)%nat
    /\ api (calls + k)%nat [clean text] = Response (v :: rest)
    /\ forall j, (j < k)%nat -> retryable (api (calls + j)%nat [clean text]).
Proof.
  intros Hnb. unfold get_embedding.
  destruct (strip text) as [|c rest] eqn:E;
    [exfalso; apply Hnb; now apply strip_nil|].
  intros H.
  pose proof (single_attempts_spec api max_retries (clean text) max_retries 0
                calls ltac:(lia)) as Hspec.
  cbv zeta in Hspec. rewrite H in Hspec. exact Hspec.
Qed.

Lemma get_embedding_answer_witness :
  ~ blank (s "hi")
  /\ get_embedding obliging 5 (s "hi") 0 = (inr [], 1%nat)
  /\ exists k rest,
       (k < 5)%nat /\ 1%nat = (0 + k + 1)%nat
       /\ obliging (0 + k)%nat [clean (s "hi")] = Response ([] :: rest)
       /\ forall j, (j < k)%nat ->
                    retryable (obliging (0 + j)%nat [clean (s "hi")]).
Proof.
  assert (H : ~ blank (s "hi")) by (intros H; inversion H; discriminate).
  split; [exact H|]. split; [reflexivity|].
  exact (get_embedding_answer obliging 5 (s "hi") 0 1 [] H eq_refl).
Defined.

(** X8: for a text of whitespace only (the empty text included),
    [get_embedding] returns the zero vector of the configured dimension
    without calling the provider. *)
Theorem get_embedding_blank (api : Api) (max_retries : nat) (text : str)
    (calls : nat) :
  blank text ->
  get_embedding api max_retries text calls = (inr placeholder, calls)
  /\ List.length placeholder = EMBEDDING_DIMENSIONS
  /\ Forall (fun x => x = 0%Q) placeholder.
Proof.
  intros H. apply strip_nil in H. unfold get_embedding. rewrite H.
  split; [reflexivity|]. unfold placeholder.
  split; [apply repeat_length|].
  apply Forall_forall. intros x Hx. now apply repeat_spec in Hx.
Qed.

Lemma get_embedding_blank_witness :
  blank [" "%char; newline; "009"%char]
  /\ get_embedding always_rate_limited 5 [" "%char; newline; "009"%char] 7
     = (inr placeholder, 7%nat).
Proof.
  assert (H : blank [" "%char; newline; "009"%char])
    by (repeat constructor).
  split; [exact H|].
  exact (proj1 (get_embedding_blank always_rate_limited 5 _ 7 H)).
Defined.

(** X9: the module-level [get_embedding] makes at most 5 calls and
    returns either the first embedding of a provider answer to the cleaned
    text or the zero vector; when every call raises a provider error and
    the text is not all whitespace, it returns the zero vector after
    exactly 5 calls. *)
Theorem default_get_embedding_fallback (api : Api) (text : str) (calls : nat) :
  let r := DefaultGenerator.get_embedding api text calls in
  (calls <= snd r <= calls + 5)%nat
  /\ (fst r = placeholder
      \/ exists k rest,
           (calls <= k < calls + 5)%nat
           /\ api k [clean text] = Response (fst r :: rest))
  /\ (~ blank text -> (forall n input, retryable (api n input)) ->
      r = (placeholder, (calls + 5)%nat)).
Proof.
  unfold DefaultGenerator.get_embedding, get_embedding.
  destruct (strip text) as [|c rest] eqn:E.
  { cbn. split; [lia|]. split; [now left|].
    intros Hnb. exfalso. apply Hnb. now apply strip_nil. }
  pose proof (single_attempts_spec api 5 (clean text) 5 0 calls eq_refl)
    as Hspec.
  cbv zeta in Hspec.
  destruct (single_attempts api 5 (clean text) 5 0 calls)
    as [[[| |]|v] c']; cbn [fst snd] in *.
  - destruct Hspec as (_ & -> & _). split; [lia|]. split; [now left|].
    reflexivity.
  - destruct Hspec as (k & Hk & -> & Hlast). split; [lia|].
    split; [now left|]. intros _ Hre. exfalso.
    specialize (Hre (calls + k)%nat [clean text]).
    destruct Hlast as [Hl|Hl]; rewrite Hl in Hre;
      destruct Hre as [[H|[H|H]]|H]; discriminate H.
  - destruct Hspec as (-> & _). split; [lia|]. split; [now left|].
    reflexivity.
  - destruct Hspec as (k & rest' & Hk & -> & Hans & _). split; [lia|]. split.
    + right. exists (calls + k)%nat, rest'. split; [lia | exact Hans].
    + intros _ Hre. exfalso. specialize (Hre (calls + k)%nat [clean text]).
      rewrite Hans in Hre. destruct Hre as [[H|[H|H]]|H]; discriminate H.
Qed.

Lemma default_get_embedding_fallback_witness :
  ~ blank (s "hi")
  /\ (forall n input, retryable (always_rate_limited n input))
  /\ DefaultGenerator.get_embedding always_rate_limited (s "hi") 0
     = (placeholder, 5%nat).
Proof.
  assert (H : ~ blank (s "hi")) by (intros H; inversion H; discriminate).
  assert (R : forall n input, retryable (always_rate_limited n input))
    by (intros n input; left; now left).
  split; [exact H|]. split; [exact R|].
  exact (proj2 (proj2 (default_get_embedding_fallback always_rate_limited
                         (s "hi") 0)) H R).
Defined.

End SingleEmbeddingExtras.

(** ** Versioned payloads *)

Module PayloadExtras.
Import Py PyData PyDataFacts VersionedPayload.

Section DictRoundTrip.
Context {K V : Type}.
Variable eq_dec : forall a b : K, {a = b} + {a <> b}.

Lemma dict_get_set_same (k : K) (v : V) (d : list (K * V)) :
  dict_get eq_dec k (dict_set eq_dec k v d) = Some v.
Proof.
  induction d as [|[k0 v0] d IH]; cbn [dict_set dict_get].
  - now destruct (eq_dec k k).
  - destruct (eq_dec k k0) as [E|E]; cbn [dict_get].
    + now destruct (eq_dec k k).
    + now destruct (eq_dec k k0).
Qed.

Lemma dict_get_set_other (k k' : K) (v : V) (d : list (K * V)) :
  k' <> k -> dict_get eq_dec k' (dict_set eq_dec k v d) = dict_get eq_dec k' d.
Proof.
  intros Hne. induction d as [|[k0 v0] d IH]; cbn [dict_set dict_get].
  - now destruct (eq_dec k' k).
  - destruct (eq_dec k k0) as [E|E]; cbn [dict_get].
    + subst k0. now destruct (eq_dec k' k).
    + destruct (eq_dec k' k0); [reflexivity | exact IH].
Qed.
End DictRoundTrip.

(** X10: a payload that [create_versioned_payload] returns carries the
    given text and indices, its [timestamp] and [version_date] are those
    of its metadata, and every other key of the caller's metadata is kept;
    metadata that already has a timestamp is used unchanged, and otherwise
    the clock's timestamp and its formatted date are written, over any
    [version_date] the caller passed. *)
Theorem create_versioned_payload_consistent (clock : Clock) (txt : str)
    (md : Meta) (ci tc : Z) (p : Payload) :
  create_versioned_payload clock txt md ci tc = inr p ->
  text p = txt /\ chunk_index p = ci /\ total_chunks p = tc
  /\ dict_get str_eq_dec (s "timestamp") (metadata p) = Some (timestamp p)
  /\ dict_get str_eq_dec (s "version_date") (metadata p)
     = Some (version_date p)
  /\ (forall k, k <> s "timestamp" -> k <> s "version_date" ->
        dict_get str_eq_dec k (metadata p) = dict_get str_eq_dec k md)
  /\ (dict_get str_eq_dec (s "timestamp") md <> None -> metadata p = md)
  /\ (dict_get str_eq_dec (s "timestamp") md = None ->
      timestamp p = VInt (get_current_timestamp clock)
      /\ exists date,
           format_timestamp clock (get_current_timestamp clock) = Some date
           /\ version_date p = VStr date).
Proof.
  unfold create_versioned_payload, prepare_version_metadata.
  destruct (dict_get str_eq_dec (s "timestamp") md) as [ts|] eqn:Hts.
  - rewrite Hts.
    destruct (dict_get str_eq_dec (s "version_date") md) as [vd|] eqn:Hvd;
      [|discriminate].
    intros [= <-]. cbn [text chunk_index total_chunks timestamp version_date
                        metadata].
    repeat split; auto; intros; congruence.
  - destruct (format_timestamp clock (get_current_timestamp clock))
      as [date|] eqn:Hf; [|discriminate].
    rewrite dict_get_set_other by discriminate.
    rewrite dict_get_set_same, dict_get_set_same.
    intros [= <-]. cbn [text chunk_index total_chunks timestamp version_date
                        metadata].
    split; [reflexivity|]. split; [reflexivity|]. split; [reflexivity|].
    split; [rewrite dict_get_set_other by discriminate;
            apply dict_get_set_same|].
    split; [apply dict_get_set_same|].
    split; [intros k H1 H2; now rewrite !dict_get_set_other by assumption|].
    split; [intros Hx; congruence|].
    intros _. split; [reflexivity | now exists date].
Qed.

Lemma create_versioned_payload_consistent_witness :
  exists p,
    create_versioned_payload PayloadSamples.sample_clock (s "chunk")
      PayloadSamples.stale_metadata 0 1 = inr p
    /\ timestamp p = VInt 1700000000
    /\ version_date p = VStr (s "2023-11-14 22:13:20")
    /\ dict_get str_eq_dec (s "version_date") (metadata p)
       = Some (version_date p).
Proof.
  eexists. split; [reflexivity|].
  pose proof (create_versioned_payload_consistent PayloadSamples.sample_clock
                (s "chunk") PayloadSamples.stale_metadata 0 1 _ eq_refl)
    as (_ & _ & _ & _ & H & _).
  split; [reflexivity|]. split; [reflexivity | exact H].
Defined.

(** X11: [create_versioned_payload] raises [KeyError] for
    ["version_date"] exactly when the metadata has a timestamp but no
    version date, fails with the formatter exactly when the metadata has
    no timestamp and formatting the clock's timestamp raises, and never
    raises [KeyError] for ["timestamp"]. *)
Theorem create_versioned_payload_errors (clock : Clock) (txt : str)
    (md : Meta) (ci tc : Z) :
  (create_versioned_payload clock txt md ci tc
   = inl (KeyError (s "version_date"))
   <-> dict_get str_eq_dec (s "timestamp") md <> None
       /\ dict_get str_eq_dec (s "version_date") md = None)
  /\ (create_versioned_payload clock txt md ci tc = inl FormatError
      <-> dict_get str_eq_dec (s "timestamp") md = None
          /\ format_timestamp clock (get_current_timestamp clock) = None)
  /\ create_versioned_payload clock txt md ci tc
     <> inl (KeyError (s "timestamp")).
Proof.
  unfold create_versioned_payload, prepare_version_metadata.
  destruct (dict_get str_eq_dec (s "timestamp") md) as [ts|] eqn:Hts.
  - rewrite Hts.
    destruct (dict_get str_eq_dec (s "version_date") md) as [vd|] eqn:Hvd.
    + repeat split; try discriminate; intros [H1 H2]; congruence.
    + repeat split; try discriminate; try congruence.
      intros [H1 H2]. congruence.
  - destruct (format_timestamp clock (get_current_timestamp clock))
      as [date|] eqn:Hf.
    + rewrite dict_get_set_other by discriminate.
      rewrite dict_get_set_same, dict_get_set_same.
      repeat split; try discriminate; intros [H1 H2]; congruence.
    + repeat split; try discriminate; try congruence.
      intros [H1 H2]. congruence.
Qed.

Lemma create_versioned_payload_errors_witness :
  create_versioned_payload PayloadSamples.sample_clock (s "chunk")
    PayloadSamples.undated_metadata 0 1
  = inl (KeyError (s "version_date")).
Proof.
  apply (proj1 (create_versioned_payload_errors PayloadSamples.sample_clock
                  (s "chunk") PayloadSamples.undated_metadata 0 1)).
  split; [discriminate | reflexivity].
Defined.

End PayloadExtras.

(** ** [add_points] when it succeeds *)

Module UploadExtras.
Import Py PyFacts PyData PyDataFacts Qdrant VectorStore UploadFacts UploadLoop
  Properties ExtraProperties.

(** Upserting batch after batch is upserting their concatenation. *)
Lemma fold_upsert_concat (batches : list (list PointStruct)) (st : Store) :
  fold_left upsert batches st = upsert st (List.concat batches).
Proof.
  revert st. induction batches as [|b batches IH]; intros st;
    cbn [fold_left List.concat]; [reflexivity|].
  rewrite IH. unfold upsert. now rewrite fold_left_app.
Qed.

(** X12: whenever [add_points] answers [True], the store is what one
    [upsert] of the whole list would have made it: the batching does not
    show. *)
Theorem add_points_true_is_one_upsert (db : Upserts)
    (points : list PointStruct) (w w' : World) :
  add_points db points w = (true, w') ->
  store w' = upsert (store w) points.
Proof.
  unfold add_points. destruct points as [|p points]; [now intros [= <-]|].
  set (pts := p :: points).
  set (size := Nat.min MAX_BATCH_SIZE (List.length pts)).
  assert (Hsize : (1 <= size)%nat)
    by (unfold size, MAX_BATCH_SIZE, pts; cbn [List.length]; lia).
  destruct (upload_loop_spec db pts size (range0 (List.length pts) size) 0 w)
    as (committed & tries & waits & H).
  cbv zeta in H.
  destruct (upload_loop db pts size (range0 (List.length pts) size) 0 w)
    as [w1|[n w1]]; [discriminate|].
  cbn [final_world] in H.
  destruct H as (Hst & _ & _ & _ & _ & _ & Hc & _).
  intros [= _ <-]. rewrite Hst, Hc, firstn_all, fold_upsert_concat.
  now rewrite batches_concat.
Qed.

Lemma add_points_true_is_one_upsert_witness :
  add_points reliable [doc_point 100 0 "v100"; doc_point 100 1 "v100"]
    fresh_world
  = (true, {| store := [doc_point 100 1 "v100"];
              upsert_calls := 1;
              requests := [[doc_point 100 0 "v100"; doc_point 100 1 "v100"]];
              slept := [] |})
  /\ [doc_point 100 1 "v100"]
     = upsert [] [doc_point 100 0 "v100"; doc_point 100 1 "v100"].
Proof.
  split; [reflexivity|].
  exact (add_points_true_is_one_upsert reliable
           [doc_point 100 0 "v100"; doc_point 100 1 "v100"] fresh_world
           _ eq_refl).
Defined.

Lemma upload_loop_reliable (db : Upserts) (points : list PointStruct)
    (size : nat) :
  (forall n, db n = None) ->
  forall starts successful w,
    upload_loop db points size starts successful w
    = inr ((successful + List.length starts)%nat,
           {| store := fold_left upsert (map (batch_at points size) starts)
                         (store w);
              upsert_calls := (upsert_calls w + List.length starts)%nat;
              requests := requests w ++ map (batch_at points size) starts;
              slept := slept w |}).
Proof.
  intros Hdb. induction starts as [|i starts IH]; intros successful w.
  - cbn. rewrite !Nat.add_0_r, app_nil_r. now destruct w.
  - cbn [upload_loop]. unfold MAX_RETRIES. cbn [upload_batch].
    rewrite Hdb, IH.
    cbn [store upsert_calls requests slept map fold_left List.length].
    rewrite <- app_assoc. cbn [app].
    do 2 f_equal; [lia|]. f_equal. lia.
Qed.

(** X13: when no [upsert] call raises, [add_points] on a non-empty list
    answers [True] after exactly [ceil(len(points) / 100)] calls, one per
    batch, without sleeping, and the store is the one [upsert] of the
    whole list gives. *)
Theorem add_points_reliable (db : Upserts) (points : list PointStruct)
    (w : World) :
  (forall n, db n = None) -> points <> [] ->
  add_points db points w
  = (true,
     {| store := upsert (store w) points;
        upsert_calls :=
          (upsert_calls w + (List.length points + 99) / 100)%nat;
        requests :=
          requests w
          ++ map (batch_at points (Nat.min MAX_BATCH_SIZE (List.length points)))
               (range0 (List.length points)
                  (Nat.min MAX_BATCH_SIZE (List.length points)));
        slept := slept w |}).
Proof.
  intros Hdb Hne. unfold add_points.
  destruct points as [|p points]; [congruence|].
  set (pts := p :: points).
  set (size := Nat.min MAX_BATCH_SIZE (List.length pts)).
  assert (Hlen : (1 <= List.length pts)%nat) by (unfold pts; cbn; lia).
  assert (Hsize : (1 <= size <= 100)%nat)
    by (unfold size, MAX_BATCH_SIZE; lia).
  rewrite (upload_loop_reliable db pts size Hdb).
  rewrite range0_length by lia. cbn [Nat.add].
  rewrite Nat.eqb_refl, fold_upsert_concat, batches_concat by lia.
  fold size. f_equal. f_equal. f_equal.
  destruct (Nat.le_gt_cases (List.length pts) 100) as [Hle|Hgt].
  - assert (size = List.length pts) as -> by (unfold size, MAX_BATCH_SIZE; lia).
    rewrite (Nat.div_small (List.length pts - 1)) by lia.
    cbn [Nat.add].
    apply Nat.div_unique with (r := (List.length pts - 1)%nat); lia.
  - assert (size = 100%nat) as -> by (unfold size, MAX_BATCH_SIZE; lia).
    replace (List.length pts + 99)%nat with (List.length pts - 1 + 1 * 100)%nat
      by lia.
    now rewrite Nat.div_add by lia.
Qed.

Lemma add_points_reliable_witness :
  (forall n, reliable n = None)
  /\ [doc_point 100 0 "v100"] <> []
  /\ add_points reliable [doc_point 100 0 "v100"] fresh_world
     = (true, {| store := [doc_point 100 0 "v100"];
                 upsert_calls := 1;
                 requests := [[doc_point 100 0 "v100"]];
                 slept := [] |}).
Proof.
  split; [reflexivity|]. split; [discriminate|].
  exact (add_points_reliable reliable [doc_point 100 0 "v100"] fresh_world
           (fun _ => eq_refl) ltac:(discriminate)).
Defined.

End UploadExtras.

(** ** [query]: what it returns, and which hit of a path *)

Module QueryExtras.
Import Py PyFacts PyData PyDataFacts Qdrant VectorStore QueryFacts
  EmbeddingExtras Properties ExtraProperties.

Lemma length_slice_le {A} (l : list A) (i j : Z) :
  (List.length (slice l i j) <= List.length l)%nat.
Proof.
  unfold slice. rewrite length_firstn, length_skipn. lia.
Qed.

Lemma dict_set_length {K V} (eq_dec : forall a b : K, {a = b} + {a <> b})
    (k : K) (v : V) (d : list (K * V)) :
  (List.length (dict_set eq_dec k v d) <= S (List.length d))%nat.
Proof.
  induction d as [|[k0 v0] d IH]; cbn [dict_set List.length]; [lia|].
  destruct (eq_dec k k0); cbn [List.length]; lia.
Qed.

Lemma group_hit_length (g : PathGroups) (hit : ScoredPoint) :
  (List.length (group_hit g hit) <= S (List.length g))%nat.
Proof.
  unfold group_hit. destruct (hit_payload hit) as [pl|]; [|lia].
  destruct (dict_get str_eq_dec (path_of pl) g) as [[eh es]|].
  - destruct (timestamp_of pl >? hit_timestamp eh);
      [apply dict_set_length | lia].
  - apply dict_set_length.
Qed.

Lemma fold_group_hit_length (hits : list ScoredPoint) (g : PathGroups) :
  (List.length (fold_left group_hit hits g)
   <= List.length g + List.length hits)%nat.
Proof.
  revert g. induction hits as [|hit hits IH]; intros g; cbn [fold_left];
    [cbn; lia|].
  specialize (IH (group_hit g hit)).
  pose proof (group_hit_length g hit). cbn [List.length]. lia.
Qed.

Lemma ranked_length (search_result : list ScoredPoint) :
  (List.length (ranked search_result) <= List.length search_result)%nat.
Proof.
  unfold ranked. rewrite length_map.
  rewrite (Permutation_length (sorted_desc_perm score_leb _)), length_map.
  apply (fold_group_hit_length search_result []).
Qed.

Lemma latest_only_filter_In (search_result : list ScoredPoint) (limit : Z)
    (h : ScoredPoint) :
  In h (latest_only_filter search_result limit) ->
  In h (ranked search_result).
Proof.
  unfold latest_only_filter, ranked, slice_to. intros H.
  apply in_map_iff in H. destruct H as (e & <- & He).
  apply in_map. now apply In_slice in He.
Qed.

Lemma format_hit_length (hit : ScoredPoint) :
  (List.length (format_hit hit) <= 1)%nat.
Proof. unfold format_hit. destruct (hit_payload hit); cbn; lia. Qed.

Lemma flat_map_format_length (hits : list ScoredPoint) :
  (List.length (flat_map format_hit hits) <= List.length hits)%nat.
Proof.
  induction hits as [|h hits IH]; cbn [flat_map List.length]; [lia|].
  rewrite length_app. pose proof (format_hit_length h). lia.
Qed.

(** X14: whatever the limit (negative ones included) and the mode,
    [query] returns [[]] when the search raises, and otherwise every
    result is the formatting of a hit of the search answer that has a
    payload, and there are no more results than hits. *)
Theorem query_sound (search : Z -> option (list ScoredPoint)) (limit : Z)
    (latest_only : bool) :
  match search (if latest_only then limit * 3 else limit) with
  | None => query search limit latest_only = []
  | Some search_result =>
      (forall r, In r (query search limit latest_only) ->
         exists hit, In hit search_result /\ has_payload hit
                     /\ format_hit hit = [r] /\ r_score r = score hit)
      /\ (List.length (query search limit latest_only)
          <= List.length search_result)%nat
  end.
Proof.
  unfold query.
  destruct (search (if latest_only then limit * 3 else limit))
    as [search_result|]; [|reflexivity].
  assert (Hfmt : forall hits r,
             In r (flat_map format_hit hits) ->
             exists hit, In hit hits /\ has_payload hit
                         /\ format_hit hit = [r] /\ r_score r = score hit).
  { intros hits r Hr. apply in_flat_map in Hr. destruct Hr as (hit & Hin & Hr).
    exists hit. split; [exact Hin|]. unfold format_hit, has_payload in *.
    destruct (hit_payload hit) as [pl|]; [|destruct Hr].
    destruct Hr as [<-|[]]. repeat split. discriminate. }
  destruct latest_only.
  - split.
    + intros r Hr. destruct (Hfmt _ r Hr) as (hit & Hin & Hp & Hf).
      exists hit. split; [|now split].
      apply latest_only_filter_In in Hin. now apply ranked_members in Hin.
    + etransitivity; [apply flat_map_format_length|].
      unfold latest_only_filter, slice_to. rewrite length_map.
      etransitivity; [apply length_slice_le|].
      rewrite (Permutation_length (sorted_desc_perm score_leb _)), length_map.
      apply (fold_group_hit_length search_result []).
  - split; [apply Hfmt | apply flat_map_format_length].
Qed.

Lemma query_sound_witness :
  (forall r,
     In r (query (fun _ => Some [doc_hit 100 0.9; doc_hit 200 0.7]) (-1) true) ->
     exists hit, In hit [doc_hit 100 0.9; doc_hit 200 0.7] /\ has_payload hit
                 /\ format_hit hit = [r] /\ r_score r = score hit)
  /\ (List.length
        (query (fun _ => Some [doc_hit 100 0.9; doc_hit 200 0.7]) (-1) true)
      <= 2)%nat.
Proof.
  exact (query_sound (fun _ => Some [doc_hit 100 0.9; doc_hit 200 0.7])
           (-1) true).
Defined.

(** The invariant of the grouping loop that tells which hit of a path is
    kept. *)
Lemma first_newest_keep (seen : list ScoredPoint) (h hit : ScoredPoint) :
  first_newest seen h ->
  (has_payload hit -> hit_path hit = hit_path h ->
   hit_time hit <= hit_time h) ->
  first_newest (seen ++ [hit]) h.
Proof.
  intros (before & after & -> & Hb & Ha) Hhit.
  exists before, (after ++ [hit]). split; [now rewrite <- app_assoc|].
  split; [exact Hb|]. intros h' Hin Hp Hpath. apply in_app_or in Hin.
  destruct Hin as [Hin|[<-|[]]]; [now apply Ha | now apply Hhit].
Qed.

Lemma group_hit_first_newest (seen : list ScoredPoint) (g : PathGroups)
    (hit : ScoredPoint) :
  groups_inv seen g ->
  (forall k h sc, In (k, (h, sc)) g -> first_newest seen h) ->
  forall k h sc, In (k, (h, sc)) (group_hit g hit) ->
                 first_newest (seen ++ [hit]) h.
Proof.
  intros (Hnd & Hent & Hcov) Hfirst k h sc. unfold group_hit.
  assert (Hnew : (forall h', In h' seen -> has_payload h' ->
                    hit_path h' = hit_path hit ->
                    hit_time h' < hit_time hit) ->
                 first_newest (seen ++ [hit]) hit).
  { intros H. exists seen, []. split; [reflexivity|]. split; [exact H|].
    intros h' []. }
  assert (Hold : forall k h sc, In (k, (h, sc)) g ->
                   (hit_path hit = k -> has_payload hit ->
                    hit_time hit <= hit_time h) ->
                   first_newest (seen ++ [hit]) h).
  { intros k0 h0 sc0 Hin Hle. apply first_newest_keep; [eapply Hfirst; eauto|].
    intros Hp Hpath. apply Hle; [|exact Hp].
    destruct (Hent _ _ _ Hin) as (_ & _ & <- & _). exact Hpath. }
  destruct (hit_payload hit) as [pl|] eqn:Hpl.
  2:{ intros Hin. apply (Hold k h sc Hin). intros _ Hp.
      exfalso. apply Hp. exact Hpl. }
  assert (Hpath : path_of pl = hit_path hit)
    by (unfold hit_path; now rewrite Hpl).
  assert (Hts : timestamp_of pl = hit_time hit)
    by (unfold hit_time; now rewrite Hpl).
  rewrite Hpath, Hts. change hit_timestamp with hit_time.
  destruct (dict_get str_eq_dec (hit_path hit) g) as [[eh es]|] eqn:Hget.
  - pose proof (dict_get_In _ _ _ _ Hget) as Hin_e.
    destruct (Hent _ _ _ Hin_e) as (_ & _ & Hpe & _ & Hnewest).
    destruct (Z.gtb_spec (hit_time hit) (hit_time eh)) as [Hgt|Hle].
    + intros Hin. apply dict_set_In in Hin; [|exact Hnd].
      destruct Hin as [[-> [= -> ->]]|[Hne Hin]].
      * apply Hnew. intros h' Hin' Hp' Hsame.
        assert (hit_time h' <= hit_time eh)
          by (apply Hnewest; congruence).
        lia.
      * apply (Hold k h sc Hin). intros E. congruence.
    + intros Hin. apply (Hold k h sc Hin). intros E _. subst k.
      pose proof (In_dict_get str_eq_dec g _ _ Hnd Hin) as E1.
      rewrite Hget in E1. injection E1 as -> _. exact Hle.
  - apply dict_get_None in Hget.
    intros Hin. apply dict_set_In in Hin; [|exact Hnd].
    destruct Hin as [[-> [= -> ->]]|[Hne Hin]].
    + apply Hnew. intros h' Hin' Hp' Hsame. exfalso. apply Hget.
      rewrite <- Hsame. now apply Hcov.
    + apply (Hold k h sc Hin). intros E. congruence.
Qed.

Lemma fold_group_hit_first_newest (hits seen : list ScoredPoint)
    (g : PathGroups) :
  groups_inv seen g ->
  (forall k h sc, In (k, (h, sc)) g -> first_newest seen h) ->
  forall k h sc, In (k, (h, sc)) (fold_left group_hit hits g) ->
                 first_newest (seen ++ hits) h.
Proof.
  revert seen g. induction hits as [|hit hits IH]; intros seen g Hinv Hf;
    cbn [fold_left].
  - rewrite app_nil_r. exact Hf.
  - replace (seen ++ hit :: hits) with ((seen ++ [hit]) ++ hits)
      by (now rewrite <- app_assoc).
    apply IH; [now apply group_hit_inv|].
    now apply group_hit_first_newest.
Qed.

(** X15: of the hits of one path, latest-only filtering keeps the first,
    in the order of the search answer, among those of the highest
    timestamp: no earlier hit of the path is as new and no later one is
    newer.  This holds for every limit. *)
Theorem latest_only_filter_keeps_first_newest
    (search_result : list ScoredPoint) (limit : Z) (h : ScoredPoint) :
  In h (latest_only_filter search_result limit) ->
  first_newest search_result h.
Proof.
  intros H. apply latest_only_filter_In in H. unfold ranked in H.
  apply in_map_iff in H. destruct H as ([h' sc] & <- & Hin).
  destruct (ranked_entries search_result _ Hin) as (k & Hk).
  apply (fold_group_hit_first_newest search_result [] [] groups_inv_nil)
    with (k := k) (sc := sc); [intros ? ? ? []|exact Hk].
Qed.

Lemma latest_only_filter_keeps_first_newest_witness :
  In (doc_hit 200 0.8)
     (latest_only_filter
        [doc_hit 100 0.9; doc_hit 200 0.8; doc_hit 200 0.7] 5)
  /\ first_newest [doc_hit 100 0.9; doc_hit 200 0.8; doc_hit 200 0.7]
       (doc_hit 200 0.8).
Proof.
  assert (H : In (doc_hit 200 0.8)
                (latest_only_filter
                   [doc_hit 100 0.9; doc_hit 200 0.8; doc_hit 200 0.7] 5))
    by (left; reflexivity).
  split; [exact H|].
  exact (latest_only_filter_keeps_first_newest _ 5 _ H).
Defined.

Lemma has_payload_b_true (hit : ScoredPoint) :
  has_payload_b hit = true <-> has_payload hit.
Proof.
  unfold has_payload_b, has_payload. destruct (hit_payload hit);
    split; congruence.
Qed.

Lemma ranked_paths (search_result : list ScoredPoint) :
  Permutation (map hit_path (ranked search_result))
              (distinct_paths search_result).
Proof.
  apply NoDup_Permutation; [apply ranked_paths_NoDup | apply NoDup_nodup|].
  intros path. unfold distinct_paths. rewrite nodup_In. split.
  - intros H. apply in_map_iff in H. destruct H as (h & <- & Hin).
    apply ranked_members in Hin. destruct Hin as (Hin & Hp & _).
    apply in_map. apply filter_In. split; [exact Hin|].
    now apply has_payload_b_true.
  - intros H. apply in_map_iff in H. destruct H as (h' & <- & Hin).
    apply filter_In in Hin. destruct Hin as [Hin Hp].
    apply has_payload_b_true in Hp.
    destruct (ranked_covers search_result h' Hin Hp) as (h & Hh & <-).
    now apply in_map.
Qed.

(** X16: for a non-negative limit, latest-only filtering returns
    [min(limit, n)] hits, [n] being the number of distinct paths among
    the hits that have a payload. *)
Theorem latest_only_filter_count (search_result : list ScoredPoint)
    (limit : Z) :
  0 <= limit ->
  List.length (latest_only_filter search_result limit)
  = Nat.min (Z.to_nat limit) (List.length (distinct_paths search_result)).
Proof.
  intros H. rewrite latest_only_filter_ranked by exact H.
  rewrite length_firstn.
  rewrite <- (Permutation_length (ranked_paths search_result)).
  now rewrite length_map.
Qed.

Lemma latest_only_filter_count_witness :
  0 <= 5
  /\ List.length (latest_only_filter
                    [doc_hit 100 0.9; doc_hit 200 0.8; doc_hit 200 0.7] 5)
     = 1%nat.
Proof.
  split; [lia|].
  exact (latest_only_filter_count
           [doc_hit 100 0.9; doc_hit 200 0.8; doc_hit 200 0.7] 5 ltac:(lia)).
Defined.

End QueryExtras.

(** ** [get_document_versions]: failures and size *)

Module VersionExtras.
Import Py PyFacts PyData PyDataFacts Qdrant VectorStore VersionFacts
  QueryExtras Properties ExtraProperties.

Lemma collect_version_raises (format_timestamp : Z -> option str)
    (vs : list (Z * str)) (p : PointStruct) (t : Z) :
  selected p t -> format_timestamp t = None ->
  collect_version format_timestamp vs p = None.
Proof.
  intros (pl & Hp & Ht & Hnz & Hc) Hf. unfold collect_version.
  rewrite Hp, Ht.
  replace (negb (t =? 0)) with true
    by (symmetry; apply negb_true_iff, Z.eqb_neq; exact Hnz).
  replace (match chunk_index pl with Some c => c | None => 0 end =? 0)
    with true by (destruct Hc as [-> | ->]; reflexivity).
  cbn [andb]. now rewrite Hf.
Qed.

Lemma collect_versions_raises (format_timestamp : Z -> option str)
    (points : list PointStruct) (p : PointStruct) (t : Z) :
  In p points -> selected p t -> format_timestamp t = None ->
  forall vs, collect_versions format_timestamp vs points = None.
Proof.
  intros Hin Hsel Hf. induction points as [|q points IH]; [destruct Hin|].
  intros vs. cbn [collect_versions]. destruct Hin as [->|Hin].
  - now rewrite (collect_version_raises format_timestamp vs p t).
  - destruct (collect_version format_timestamp vs q); [now apply IH|].
    reflexivity.
Qed.

(** X17: when formatting raises for the timestamp of one recorded point
    among those scrolled, [get_document_versions] returns no version at
    all, even if that point and all others carry a [version_date] of
    their own. *)
Theorem get_document_versions_format_raises
    (format_timestamp : Z -> option str) (store : Store) (path : str)
    (p : PointStruct) (t : Z) :
  In p (scroll store path 100) -> selected p t ->
  format_timestamp t = None ->
  get_document_versions format_timestamp store path = [].
Proof.
  intros Hin Hsel Hf. unfold get_document_versions.
  now rewrite (collect_versions_raises format_timestamp _ p t Hin Hsel Hf).
Qed.

Lemma get_document_versions_format_raises_witness :
  get_document_versions (fun t => if t =? 200 then None else Some (s "date"))
    [doc_point 100 0 "v100"; doc_point 200 0 "v200"] (s "doc.md")
  = [].
Proof.
  apply (get_document_versions_format_raises _ _ _
           (doc_point 200 0 "v200") 200).
  - right. left. reflexivity.
  - eexists. repeat split; [discriminate | now right].
  - reflexivity.
Defined.

Lemma collect_versions_length (format_timestamp : Z -> option str)
    (points : list PointStruct) :
  forall vs vs',
    collect_versions format_timestamp vs points = Some vs' ->
    (List.length vs' <= List.length vs + List.length points)%nat.
Proof.
  induction points as [|p points IH]; intros vs vs'; cbn [collect_versions].
  - intros [= <-]. cbn. lia.
  - destruct (collect_version format_timestamp vs p) as [vs1|] eqn:E;
      [|discriminate].
    intros H. apply IH in H. cbn [List.length].
    assert (List.length vs1 <= S (List.length vs))%nat; [|lia].
    unfold collect_version in E.
    destruct (payload p) as [pl|]; [|injection E as <-; lia].
    destruct (timestamp pl) as [ts|]; [|injection E as <-; lia].
    destruct (negb (ts =? 0) && _); [|injection E as <-; lia].
    destruct (format_timestamp ts); [|discriminate].
    injection E as <-. apply dict_set_length.
Qed.

(** X18: [get_document_versions] never returns more than 100 versions,
    nor more versions than there are stored points of the path. *)
Theorem get_document_versions_at_most_100
    (format_timestamp : Z -> option str) (store : Store) (path : str) :
  (List.length (get_document_versions format_timestamp store path) <= 100)%nat
  /\ (List.length (get_document_versions format_timestamp store path)
      <= List.length (filter (path_matches path) store))%nat.
Proof.
  unfold get_document_versions.
  destruct (collect_versions format_timestamp [] (scroll store path 100))
    as [vs|] eqn:E; [|cbn; split; lia].
  apply collect_versions_length in E.
  rewrite (Permutation_length (sorted_desc_perm pair_leb vs)).
  unfold scroll in E. rewrite length_firstn in E. cbn [List.length] in E.
  split; lia.
Qed.

End VersionExtras.

(** ** The orchestrator: from chunks to points *)

Module ProcessFacts.
Import Py PyFacts PyData PyDataFacts DocumentProcessor Versioning Embeddings
  Qdrant VectorStore KnowledgeBase UploadFacts EmbeddingExtras Properties
  ExtraProperties.

Lemma batch_points_length (md : Metadata) (ts : Z) (vd : str) (total i : nat)
    (pairs : list (str * vector)) :
  List.length (batch_points md ts vd total i pairs) = List.length pairs.
Proof.
  revert i. induction pairs as [|[c e] pairs IH]; intros i;
    cbn [batch_points List.length]; [reflexivity | now rewrite IH].
Qed.

Lemma batch_points_app (md : Metadata) (ts : Z) (vd : str) (total i : nat)
    (p1 p2 : list (str * vector)) :
  batch_points md ts vd total i (p1 ++ p2)
  = batch_points md ts vd total i p1
    ++ batch_points md ts vd total (i + List.length p1) p2.
Proof.
  revert i. induction p1 as [|[c e] p1 IH]; intros i;
    cbn [batch_points app List.length].
  - now rewrite Nat.add_0_r.
  - rewrite IH. do 3 f_equal. lia.
Qed.

(** What one point of a sub-batch looks like. *)
Lemma batch_points_nth (md : Metadata) (ts : Z) (vd : str) (total : nat)
    (pairs : list (str * vector)) :
  forall i k chunk embedding,
    nth_error pairs k = Some (chunk, embedding) ->
    nth_error (batch_points md ts vd total i pairs) k
    = Some {| id := get_versioned_id (metadata_get md (s "path") (s "text"))
                      ts (Z.of_nat (i + k));
              vector_ := embedding;
              payload :=
                Some {| text := Some chunk;
                        metadata := Some md;
                        timestamp := Some ts;
                        version_date := Some vd;
                        chunk_index := Some (Z.of_nat (i + k));
                        total_chunks := Some (Z.of_nat total) |} |}.
Proof.
  induction pairs as [|[c e] pairs IH]; intros i [|k] chunk embedding;
    cbn [nth_error batch_points]; try discriminate.
  - intros [= -> ->]. now rewrite Nat.add_0_r.
  - intros H. rewrite (IH (S i) k chunk embedding H).
    now replace (S i + k)%nat with (i + S k)%nat by lia.
Qed.

(** The embedding loop never counts more points than it made, nor makes
    more points than the batches hold chunks. *)
Lemma embed_loop_count (e : Env) (chunks : list str) (md : Metadata) (ts : Z)
    (vd : str) :
  forall starts acc added calls,
    let '(pts, added', calls') :=
      embed_loop e chunks md ts vd starts acc added calls in
    (List.length pts + added = List.length acc + added')%nat
    /\ (added' <= added
                  + List.length
                      (List.concat
                         (map (batch_at chunks MAX_EMBEDDING_BATCH_SIZE)
                              starts)))%nat
    /\ (calls <= calls')%nat.
Proof.
  induction starts as [|i starts IH]; intros acc added calls;
    cbn [embed_loop map List.concat]; [cbn; lia|].
  set (batch := batch_at chunks MAX_EMBEDDING_BATCH_SIZE i).
  assert (Hcalls : (calls <= snd (get_embeddings (api e) batch calls))%nat).
  { unfold get_embeddings, get_embeddings_batch.
    apply (batch_loop_calls (api e) 5 16 batch). }
  destruct (get_embeddings (api e) batch calls) as [embeddings calls1].
  cbn [snd] in Hcalls. rewrite length_app.
  destruct (Nat.eqb_spec (List.length embeddings) (List.length batch))
    as [Hlen|Hlen].
  - specialize (IH (acc ++ batch_points md ts vd (List.length chunks) i
                             (combine batch embeddings))
                   (added + List.length
                              (batch_points md ts vd (List.length chunks) i
                                 (combine batch embeddings)))%nat
                   calls1).
    destruct (embed_loop e chunks md ts vd starts _ _ calls1)
      as [[pts added'] calls'].
    rewrite length_app, batch_points_length, length_combine in IH. lia.
  - specialize (IH acc added calls1).
    destruct (embed_loop e chunks md ts vd starts acc added calls1)
      as [[pts added'] calls'].
    lia.
Qed.

Lemma get_embeddings_length (api : Api) (batch : list str) (calls : nat) :
  well_sized api -> never_transient api ->
  List.length (fst (get_embeddings api batch calls)) = List.length batch.
Proof.
  intros Hws Hnt. unfold get_embeddings, get_embeddings_batch.
  rewrite (batch_loop_length api 5 16 batch Hws Hnt ltac:(lia)).
  cbn [List.length Nat.add]. now rewrite batches_concat by lia.
Qed.

Lemma combine_app_eq {A B} (l1 l2 : list A) (e1 e2 : list B) :
  List.length e1 = List.length l1 ->
  combine (l1 ++ l2) (e1 ++ e2) = combine l1 e1 ++ combine l2 e2.
Proof.
  revert e1. induction l1 as [|a l1 IH]; intros [|b e1]; cbn;
    try discriminate; [reflexivity|].
  intros [= H]. now rewrite IH.
Qed.

Lemma combine_nth_error {A B} (l : list A) (l' : list B) (k : nat) (x : A) :
  List.length l' = List.length l -> nth_error l k = Some x ->
  exists y, nth_error (combine l l') k = Some (x, y).
Proof.
  revert l' k. induction l as [|a l IH]; intros [|b l'] [|k]; cbn;
    try discriminate.
  - intros _ [= ->]. now exists b.
  - intros [= H]. now apply IH.
Qed.

(** With a provider that answers one vector per text, the loop makes one
    point per chunk of the batches it goes through, numbered from the
    batch start on. *)
Lemma embed_loop_points (e : Env) (chunks : list str) (md : Metadata) (ts : Z)
    (vd : str) :
  well_sized (api e) -> never_transient (api e) ->
  forall n m embeddings added calls,
    List.length embeddings = List.length (firstn (m * 16) chunks) ->
    (n = 0 \/ (m + n - 1) * 16 < List.length chunks)%nat ->
    exists embeddings' calls',
      embed_loop e chunks md ts vd
        (map (fun k => (k * 16)%nat) (seq m n))
        (batch_points md ts vd (List.length chunks) 0
           (combine (firstn (m * 16) chunks) embeddings))
        added calls
      = (batch_points md ts vd (List.length chunks) 0
           (combine (firstn ((m + n) * 16) chunks) embeddings'),
         (added + (List.length (firstn ((m + n) * 16) chunks)
                   - List.length (firstn (m * 16) chunks)))%nat,
         calls')
      /\ List.length embeddings'
         = List.length (firstn ((m + n) * 16) chunks).
Proof.
  intros Hws Hnt. induction n as [|n IH]; intros m embeddings added calls He Hm.
  - exists embeddings, calls. cbn [seq map embed_loop].
    rewrite Nat.add_0_r, Nat.sub_diag, Nat.add_0_r. now split.
  - assert (Hstart : (m * 16 < List.length chunks)%nat)
      by (destruct Hm as [Hm|Hm]; [discriminate | nia]).
    cbn [seq map embed_loop].
    set (batch := batch_at chunks MAX_EMBEDDING_BATCH_SIZE (m * 16)).
    pose proof (get_embeddings_length (api e) batch calls Hws Hnt) as Hlen.
    destruct (get_embeddings (api e) batch calls) as [embs calls1].
    cbn [fst] in Hlen. rewrite Hlen, Nat.eqb_refl.
    assert (Hbatch : batch = firstn 16 (skipn (m * 16) chunks))
      by (unfold batch; apply batch_at_nat).
    assert (Hfl : List.length (firstn (m * 16) chunks) = (m * 16)%nat)
      by (rewrite length_firstn; lia).
    assert (Hacc :
      batch_points md ts vd (List.length chunks) 0
        (combine (firstn (m * 16) chunks) embeddings)
      ++ batch_points md ts vd (List.length chunks) (m * 16)
           (combine batch embs)
      = batch_points md ts vd (List.length chunks) 0
          (combine (firstn (S m * 16) chunks) (embeddings ++ embs))).
    { replace (S m * 16)%nat with (m * 16 + 16)%nat by lia.
      rewrite firstn_add_skipn, <- Hbatch.
      rewrite combine_app_eq by exact He.
      rewrite batch_points_app. do 2 f_equal.
      rewrite length_combine, He, Hfl. lia. }
    rewrite Hacc.
    destruct (IH (S m) (embeddings ++ embs)
                 (added + List.length
                            (batch_points md ts vd (List.length chunks)
                               (m * 16) (combine batch embs)))%nat
                 calls1)
      as (embeddings' & calls' & Hrun & He').
    + rewrite length_app, He, Hlen, Hbatch, Hfl.
      rewrite !length_firstn, length_skipn. lia.
    + destruct n as [|n]; [now left | right; lia].
    + exists embeddings', calls'.
      replace (m + S n)%nat with (S m + n)%nat by lia.
      rewrite Hrun. split; [|exact He']. do 2 f_equal.
      rewrite batch_points_length, length_combine, Hlen, Hbatch.
      rewrite !length_firstn, length_skipn. lia.
Qed.

(** The points [_process_chunks] makes and hands to [add_points] when the
    provider answers one vector per text. *)
Lemma process_chunks_points (e : Env) (chunks : list str) (md : Metadata)
    (w : KbWorld) (vd : str) :
  well_sized (api e) -> never_transient (api e) ->
  format_timestamp e (now e) = Some vd -> chunks <> [] ->
  exists embeddings calls',
    List.length embeddings = List.length chunks
    /\ _process_chunks e chunks md w
       = (let '(success, vs) :=
            add_points (db e)
              (batch_points md (now e) vd (List.length chunks) 0
                 (combine chunks embeddings))
              (vector_store w) in
          ((if success then (true, List.length chunks) else (false, 0%nat)),
           {| vector_store := vs; api_calls := calls' |})).
Proof.
  intros Hws Hnt Hfmt Hne. unfold _process_chunks. rewrite Hfmt.
  assert (Hlen : (1 <= List.length chunks)%nat)
    by (destruct chunks; [congruence | cbn; lia]).
  destruct (ceil_div_bounds (List.length chunks) 16 ltac:(lia)) as [Hup Hlast].
  destruct (embed_loop_points e chunks md (now e) vd Hws Hnt
              ((List.length chunks + 16 - 1) / 16) 0 [] 0 (api_calls w))
    as (embeddings & calls' & Hrun & He).
  - reflexivity.
  - right. specialize (Hlast Hlen). cbn [Nat.add]. exact Hlast.
  - cbn [Nat.add Nat.mul firstn combine batch_points] in Hrun.
    unfold range0, MAX_EMBEDDING_BATCH_SIZE. rewrite Hrun.
    rewrite firstn_all2 in * by lia.
    exists embeddings, calls'. split; [exact He|].
    cbn [List.length Nat.sub Nat.add]. rewrite Nat.sub_0_r.
    destruct (batch_points md (now e) vd (List.length chunks) 0
                (combine chunks embeddings)) as [|pt pts] eqn:Hpts;
      [|reflexivity].
    exfalso. apply (f_equal (@List.length _)) in Hpts.
    rewrite batch_points_length, length_combine, He in Hpts.
    cbn [List.length] in Hpts. lia.
Qed.

(** What lines 100-102 of [add_document] leave in the dict. *)
Lemma document_metadata_spec (file_path : str) (md : Metadata) :
  dict_get str_eq_dec (s "path") (document_metadata file_path md)
  = Some file_path
  /\ dict_get str_eq_dec (s "type") (document_metadata file_path md)
     = Some (metadata_get md (s "type") (s "document"))
  /\ forall k, k <> s "type" -> k <> s "path" ->
       dict_get str_eq_dec k (document_metadata file_path md)
       = dict_get str_eq_dec k md.
Proof.
  unfold document_metadata. split; [apply PayloadExtras.dict_get_set_same|]. split.
  - rewrite PayloadExtras.dict_get_set_other by discriminate. apply PayloadExtras.dict_get_set_same.
  - intros k Hk1 Hk2. now rewrite !PayloadExtras.dict_get_set_other by assumption.
Qed.

(** What lines 141-142 of [add_text] leave in the dict. *)
Lemma text_metadata_spec (md : Metadata) :
  dict_get str_eq_dec (s "type") (KnowledgeBaseText.text_metadata md)
  = Some (metadata_get md (s "type") (s "text"))
  /\ forall k, k <> s "type" ->
       dict_get str_eq_dec k (KnowledgeBaseText.text_metadata md) = dict_get str_eq_dec k md.
Proof.
  unfold KnowledgeBaseText.text_metadata. split; [apply PayloadExtras.dict_get_set_same|].
  intros k Hk. now apply PayloadExtras.dict_get_set_other.
Qed.

Lemma add_points_one_reliable (db : Upserts) (pt : PointStruct) (w : World) :
  (forall n, db n = None) ->
  add_points db [pt] w
  = (true, {| store := upsert_point (store w) pt;
              upsert_calls := S (upsert_calls w);
              requests := requests w ++ [[pt]];
              slept := slept w |}).
Proof.
  intros Hdb. unfold add_points. cbn [List.length].
  change (Nat.min MAX_BATCH_SIZE 1) with 1%nat.
  change (range0 1 1) with [0%nat].
  rewrite (UploadExtras.upload_loop_reliable db [pt] 1 Hdb).
  cbn [map fold_left List.length]. change (batch_at [pt] 1 0) with [pt].
  cbn. rewrite Nat.add_1_r. reflexivity.
Qed.

End ProcessFacts.

Module ProcessExtras.
Import Py PyFacts PyData PyDataFacts DocumentProcessor Versioning Embeddings
  Qdrant VectorStore KnowledgeBase KnowledgeBaseText UploadFacts
  EmbeddingExtras PayloadExtras ChunkLoop ProcessFacts Properties
  ExtraProperties.

(** X19: whatever the provider and the database do, [_process_chunks]
    never reports more chunks than it was given, reports at least one
    when it answers [True] and reports 0 when it answers [False]. *)
Theorem process_chunks_count (e : Env) (chunks : list str) (md : Metadata)
    (w : KbWorld) :
  let r := _process_chunks e chunks md w in
  (snd (fst r) <= List.length chunks)%nat
  /\ (fst (fst r) = true -> (1 <= snd (fst r))%nat)
  /\ (fst (fst r) = false -> snd (fst r) = 0%nat)
  /\ (api_calls w <= api_calls (snd r))%nat.
Proof.
  unfold _process_chunks.
  destruct (format_timestamp e (now e)) as [vd|];
    [|cbn; repeat split; try lia; discriminate].
  pose proof (embed_loop_count e chunks md (now e) vd
                (range0 (List.length chunks) MAX_EMBEDDING_BATCH_SIZE)
                [] 0 (api_calls w)) as H.
  destruct (embed_loop e chunks md (now e) vd _ [] 0 (api_calls w))
    as [[pts added] calls].
  destruct H as (Hlen & Hadd & Hcalls).
  unfold MAX_EMBEDDING_BATCH_SIZE in Hadd.
  rewrite batches_concat in Hadd by lia. cbn [List.length] in Hlen.
  destruct pts as [|pt pts]; [cbn; repeat split; try lia; discriminate|].
  destruct (add_points (db e) (pt :: pts) (vector_store w)) as [[|] vs];
    cbn [fst snd api_calls List.length] in *;
    repeat split; try lia; discriminate.
Qed.

(** X20: when the provider answers one vector per text (and never with a
    transient error) and the timestamp can be formatted, [_process_chunks]
    hands [add_points] exactly one point per chunk, in order: point [k]
    has the identifier of [(path, now, k)], the text of chunk [k], chunk
    index [k] and the total chunk count; it answers [(True, len(chunks))]
    if [add_points] succeeds and [(False, 0)] otherwise. *)
Theorem process_chunks_one_point_per_chunk (e : Env) (chunks : list str)
    (md : Metadata) (w : KbWorld) (vd : str) :
  well_sized (api e) -> never_transient (api e) ->
  format_timestamp e (now e) = Some vd -> chunks <> [] ->
  exists points calls',
    List.length points = List.length chunks
    /\ (forall k chunk,
          nth_error chunks k = Some chunk ->
          exists embedding,
            nth_error points k
            = Some {| id := create_versioned_id
                              (metadata_get md (s "path") (s "text"))
                              (now e) (Z.of_nat k);
                      vector_ := embedding;
                      payload :=
                        Some {| text := Some chunk;
                                metadata := Some md;
                                timestamp := Some (now e);
                                version_date := Some vd;
                                chunk_index := Some (Z.of_nat k);
                                total_chunks :=
                                  Some (Z.of_nat (List.length chunks)) |} |})
    /\ _process_chunks e chunks md w
       = (let '(success, vs) := add_points (db e) points (vector_store w) in
          ((if success then (true, List.length chunks) else (false, 0%nat)),
           {| vector_store := vs; api_calls := calls' |})).
Proof.
  intros Hws Hnt Hfmt Hne.
  destruct (process_chunks_points e chunks md w vd Hws Hnt Hfmt Hne)
    as (embeddings & calls' & He & Hrun).
  exists (batch_points md (now e) vd (List.length chunks) 0
            (combine chunks embeddings)), calls'.
  split; [rewrite batch_points_length, length_combine; lia|].
  split; [|exact Hrun].
  intros k chunk Hk.
  destruct (combine_nth_error chunks embeddings k chunk He Hk) as (emb & Hc).
  exists emb. now rewrite (batch_points_nth _ _ _ _ _ 0 k chunk emb Hc).
Qed.

Lemma process_chunks_one_point_per_chunk_witness :
  exists points calls',
    List.length points = 2%nat
    /\ _process_chunks obliging_env [s "a"; s "b"] [] empty_world
       = (let '(success, vs) := add_points reliable points fresh_world in
          ((if success then (true, 2%nat) else (false, 0%nat)),
           {| vector_store := vs; api_calls := calls' |})).
Proof.
  destruct (process_chunks_one_point_per_chunk obliging_env [s "a"; s "b"] []
              empty_world (s "2023-11-14 22:13:20")
              obliging_well_sized obliging_never_transient eq_refl
              ltac:(discriminate))
    as (points & calls' & H1 & _ & H3).
  now exists points, calls'.
Defined.

(** One chunk, an obliging provider and a reliable database. *)
Lemma process_one_chunk (e : Env) (chunk : str) (md : Metadata) (w : KbWorld)
    (vd : str) :
  well_sized (api e) -> never_transient (api e) ->
  (forall n, db e n = None) ->
  format_timestamp e (now e) = Some vd ->
  exists embedding calls',
    _process_chunks e [chunk] md w
    = ((true, 1%nat),
       {| vector_store :=
            {| store :=
                 upsert_point (store (vector_store w))
                   (single_point (metadata_get md (s "path") (s "text")) md
                      (now e) vd chunk embedding);
               upsert_calls := S (upsert_calls (vector_store w));
               requests :=
                 requests (vector_store w)
                 ++ [[(single_point (metadata_get md (s "path") (s "text")) md
                       (now e) vd chunk embedding)]];
               slept := slept (vector_store w) |};
          api_calls := calls' |}).
Proof.
  intros Hws Hnt Hdb Hfmt.
  destruct (process_chunks_points e [chunk] md w vd Hws Hnt Hfmt
              ltac:(discriminate)) as (embeddings & calls' & He & Hrun).
  destruct embeddings as [|embedding [|x rest]]; try discriminate He.
  exists embedding, calls'. rewrite Hrun.
  cbn [combine batch_points List.length].
  rewrite add_points_one_reliable by exact Hdb. reflexivity.
Qed.

(** X21: when the file does not exist, is larger than the size limit or
    cannot be opened, [add_document] answers [(False, 0)] and leaves the
    store and the call counts as they were.  The caller's metadata dict
    has been written all the same, unless it was empty: it has
    [path = file_path] and a ["type"], ["document"] if it had none, and
    its other keys as before. *)
Theorem add_document_unreadable (fuel : nat) (e : Env) (processor : Processor)
    (file_path : str) (md : Metadata) (w : KbWorld) :
  (fs e file_path = None
   \/ exists f,
        fs e file_path = Some f
        /\ (st_size f > max_file_size_mb processor * (1024 * 1024)
            \/ readable f = false)) ->
  exists md',
    add_document fuel e processor file_path md w
    = Some ((false, 0%nat), md', w)
    /\ (md = [] -> md' = [])
    /\ (md <> [] ->
        dict_get str_eq_dec (s "path") md' = Some file_path
        /\ dict_get str_eq_dec (s "type") md'
           = Some (metadata_get md (s "type") (s "document"))
        /\ forall k, k <> s "type" -> k <> s "path" ->
             dict_get str_eq_dec k md' = dict_get str_eq_dec k md).
Proof.
  intros H.
  exists (caller_dict md (document_metadata file_path md)). split.
  - unfold add_document, read_file.
    destruct H as [->|(f & -> & H)]; [reflexivity|].
    destruct (Z.gtb_spec (st_size f)
                (max_file_size_mb processor * (1024 * 1024)));
      [reflexivity|].
    destruct H as [H| ->]; [lia | reflexivity].
  - split; [now intros ->|]. intros Hne.
    destruct md as [|kv md]; [congruence|]. cbn [caller_dict].
    apply document_metadata_spec.
Qed.

Lemma add_document_unreadable_witness :
  fs obliging_env (s "missing.md") = None
  /\ add_document 0 obliging_env small_processor (s "missing.md")
       [(s "author", s "me")] empty_world
     = Some ((false, 0%nat),
             [(s "author", s "me"); (s "type", s "document");
              (s "path", s "missing.md")],
             empty_world)
  /\ exists md',
       add_document 0 obliging_env small_processor (s "missing.md")
         [(s "author", s "me")] empty_world
       = Some ((false, 0%nat), md', empty_world)
       /\ ([(s "author", s "me")] <> [] ->
           dict_get str_eq_dec (s "path") md' = Some (s "missing.md")).
Proof.
  split; [reflexivity|]. split; [reflexivity|].
  destruct (add_document_unreadable 0 obliging_env small_processor
              (s "missing.md") [(s "author", s "me")] empty_world
              (or_introl eq_refl))
    as (md' & Hrun & _ & Hwritten).
  exists md'. split; [exact Hrun|]. intros Hne. exact (proj1 (Hwritten Hne)).
Defined.

(** X22: [add_document] does not return on a readable file within the
    size limit whose text is longer than [max_chunk_size] when the
    configured overlap is at least 1 (as with the defaults 3800 and 100):
    whatever the fuel, its chunker is still running. *)
Theorem add_document_long_file_hangs (e : Env) (processor : Processor)
    (file_path : str) (md : Metadata) (w : KbWorld) (f : File) :
  fs e file_path = Some f ->
  st_size f <= max_file_size_mb processor * (1024 * 1024) ->
  readable f = true -> content f <> [] ->
  len (content f) > max_chunk_size processor ->
  1 <= chunk_overlap processor ->
  forall fuel : nat, add_document fuel e processor file_path md w = None.
Proof.
  intros Hf Hsize Hr Hne Hlen Hov fuel. unfold add_document, read_file.
  rewrite Hf, Hr.
  destruct (Z.gtb_spec (st_size f)
              (max_file_size_mb processor * (1024 * 1024))); [lia|].
  unfold chunk_text. destruct (content f) as [|c rest] eqn:E; [congruence|].
  destruct (Z.leb_spec (len (c :: rest)) (max_chunk_size processor)); [lia|].
  rewrite chunk_loop_never_exits; [reflexivity | exact Hov|].
  unfold len. cbn [List.length]. lia.
Qed.

Lemma add_document_long_file_hangs_witness :
  add_document 1000 obliging_env small_processor (s "long.md") [] empty_world
  = None.
Proof.
  apply (add_document_long_file_hangs obliging_env small_processor
           (s "long.md") [] empty_world
           {| st_size := 11; readable := true; content := s "hello world" |});
    try reflexivity; try discriminate; cbn; lia.
Defined.

(** X23: for the empty text [add_text] answers [(False, 0)] and leaves
    the store and the call counts as they were, while the caller's
    metadata dict, unless it was empty, has got a ["type"], ["text"] if
    it had none; and [add_text] does not return for a text longer than
    [max_chunk_size] when the configured overlap is at least 1. *)
Theorem add_text_empty_or_long (e : Env) (processor : Processor)
    (text : str) (md : Metadata) (w : KbWorld) (fuel : nat) :
  (text = [] ->
   exists md',
     add_text fuel e processor text md w = Some ((false, 0%nat), md', w)
     /\ (md = [] -> md' = [])
     /\ (md <> [] ->
         dict_get str_eq_dec (s "type") md'
         = Some (metadata_get md (s "type") (s "text"))
         /\ forall k, k <> s "type" ->
              dict_get str_eq_dec k md' = dict_get str_eq_dec k md))
  /\ (text <> [] -> len text > max_chunk_size processor ->
      1 <= chunk_overlap processor ->
      add_text fuel e processor text md w = None).
Proof.
  unfold add_text. split.
  - intros ->. exists (caller_dict md (text_metadata md)).
    split; [reflexivity|]. split; [now intros ->|]. intros Hne.
    destruct md as [|kv md]; [congruence|]. cbn [caller_dict].
    apply text_metadata_spec.
  - intros Hne Hlen Hov. unfold chunk_text.
    destruct text as [|c rest]; [congruence|].
    destruct (Z.leb_spec (len (c :: rest)) (max_chunk_size processor)); [lia|].
    rewrite chunk_loop_never_exits; [reflexivity | exact Hov|].
    unfold len. cbn [List.length]. lia.
Qed.

Lemma add_text_empty_or_long_witness :
  add_text 1000 obliging_env small_processor (s "hello world") [] empty_world
  = None
  /\ exists md',
       add_text 0 obliging_env small_processor (s "")
         [(s "author", s "me")] empty_world
       = Some ((false, 0%nat), md', empty_world)
       /\ ([(s "author", s "me")] <> [] ->
           dict_get str_eq_dec (s "type") md' = Some (s "text")).
Proof.
  split.
  - apply (proj2 (add_text_empty_or_long obliging_env small_processor
                    (s "hello world") [] empty_world 1000));
      [discriminate | reflexivity | cbn; lia].
  - destruct (proj1 (add_text_empty_or_long obliging_env small_processor
                       (s "") [(s "author", s "me")] empty_world 0) eq_refl)
      as (md' & Hrun & _ & Hwritten).
    exists md'. split; [exact Hrun|].
    intros Hne. exact (proj1 (Hwritten Hne)).
Defined.

(** X24: for a non-empty text of at most [max_chunk_size] characters,
    with a provider that answers one vector per text, a database that
    does not raise and a timestamp that can be formatted, [add_text]
    answers [(True, 1)] after one [upsert] that stores one point: its
    identifier is that of [(path, now, 0)], the path being the caller's
    metadata path or ["text"]; its payload has the text and the caller's
    metadata with ["type"] defaulting to ["text"], which is also what the
    caller's dict holds afterwards, unless it was empty. *)
Theorem add_text_one_chunk (fuel : nat) (e : Env) (processor : Processor)
    (text : str) (md : Metadata) (w : KbWorld) (vd : str) :
  text <> [] -> len text <= max_chunk_size processor ->
  well_sized (api e) -> never_transient (api e) ->
  (forall n, db e n = None) ->
  format_timestamp e (now e) = Some vd ->
  exists embedding calls' md',
    add_text fuel e processor text md w
    = Some ((true, 1%nat),
            caller_dict md md',
            {| vector_store :=
                 {| store :=
                      upsert_point (store (vector_store w))
                        (single_point
                           (metadata_get md (s "path") (s "text")) md'
                           (now e) vd text embedding);
                    upsert_calls := S (upsert_calls (vector_store w));
                    requests :=
                      requests (vector_store w)
                      ++ [[(single_point
                            (metadata_get md (s "path") (s "text")) md'
                            (now e) vd text embedding)]];
                    slept := slept (vector_store w) |};
               api_calls := calls' |})
    /\ dict_get str_eq_dec (s "type") md'
       = Some (metadata_get md (s "type") (s "text"))
    /\ forall k, k <> s "type" ->
         dict_get str_eq_dec k md' = dict_get str_eq_dec k md.
Proof.
  intros Hne Hlen Hws Hnt Hdb Hfmt. unfold add_text, text_metadata.
  set (md' := dict_set str_eq_dec (s "type")
                (metadata_get md (s "type") (s "text")) md).
  unfold chunk_text. destruct text as [|c rest]; [congruence|].
  destruct (Z.leb_spec (len (c :: rest)) (max_chunk_size processor)); [|lia].
  destruct (process_one_chunk e (c :: rest) md' w vd Hws Hnt Hdb Hfmt)
    as (embedding & calls' & Hrun).
  exists embedding, calls', md'. rewrite Hrun.
  assert (Hpath : metadata_get md' (s "path") (s "text")
                  = metadata_get md (s "path") (s "text")).
  { unfold metadata_get, md'.
    now rewrite dict_get_set_other by discriminate. }
  rewrite Hpath. split; [reflexivity|]. split.
  - apply dict_get_set_same.
  - intros k Hk. now apply dict_get_set_other.
Qed.

Lemma add_text_one_chunk_witness :
  exists embedding calls' md',
    add_text 0 obliging_env small_processor (s "hello") [] empty_world
    = Some ((true, 1%nat),
            [],
            {| vector_store :=
                 {| store :=
                      [single_point (s "text") md' 1700000000
                         (s "2023-11-14 22:13:20") (s "hello") embedding];
                    upsert_calls := 1;
                    requests :=
                      [[single_point (s "text") md' 1700000000
                          (s "2023-11-14 22:13:20") (s "hello") embedding]];
                    slept := [] |};
               api_calls := calls' |}).
Proof.
  destruct (add_text_one_chunk 0 obliging_env small_processor (s "hello") []
              empty_world (s "2023-11-14 22:13:20")
              ltac:(discriminate) ltac:(cbn; lia)
              obliging_well_sized obliging_never_transient
              (fun _ => eq_refl) eq_refl)
    as (embedding & calls' & md' & H & _).
  now exists embedding, calls', md'.
Defined.

(** X25: for a readable, non-empty file within the size limit and of at
    most [max_chunk_size] characters, under the same conditions,
    [add_document] answers [(True, 1)] and stores one point whose
    identifier is that of [(file_path, now, 0)]: the stored metadata has
    [path = file_path], whatever path the caller passed, and ["type"]
    defaulting to ["document"], and the caller's dict, unless it was
    empty, holds the same afterwards. *)
Theorem add_document_one_chunk (fuel : nat) (e : Env) (processor : Processor)
    (file_path : str) (md : Metadata) (w : KbWorld) (vd : str) (f : File) :
  fs e file_path = Some f ->
  st_size f <= max_file_size_mb processor * (1024 * 1024) ->
  readable f = true -> content f <> [] ->
  len (content f) <= max_chunk_size processor ->
  well_sized (api e) -> never_transient (api e) ->
  (forall n, db e n = None) ->
  format_timestamp e (now e) = Some vd ->
  exists embedding calls' md',
    add_document fuel e processor file_path md w
    = Some ((true, 1%nat),
            caller_dict md md',
            {| vector_store :=
                 {| store :=
                      upsert_point (store (vector_store w))
                        (single_point file_path md' (now e) vd (content f)
                           embedding);
                    upsert_calls := S (upsert_calls (vector_store w));
                    requests :=
                      requests (vector_store w)
                      ++ [[(single_point file_path md' (now e) vd (content f)
                            embedding)]];
                    slept := slept (vector_store w) |};
               api_calls := calls' |})
    /\ dict_get str_eq_dec (s "path") md' = Some file_path
    /\ dict_get str_eq_dec (s "type") md'
       = Some (metadata_get md (s "type") (s "document"))
    /\ forall k, k <> s "type" -> k <> s "path" ->
         dict_get str_eq_dec k md' = dict_get str_eq_dec k md.
Proof.
  intros Hf Hsize Hr Hne Hlen Hws Hnt Hdb Hfmt.
  unfold add_document, document_metadata, read_file. rewrite Hf, Hr.
  destruct (Z.gtb_spec (st_size f)
              (max_file_size_mb processor * (1024 * 1024))); [lia|].
  set (md' := dict_set str_eq_dec (s "path") file_path
                (dict_set str_eq_dec (s "type")
                   (metadata_get md (s "type") (s "document")) md)).
  unfold chunk_text. destruct (content f) as [|c rest]; [congruence|].
  destruct (Z.leb_spec (len (c :: rest)) (max_chunk_size processor)); [|lia].
  destruct (process_one_chunk e (c :: rest) md' w vd Hws Hnt Hdb Hfmt)
    as (embedding & calls' & Hrun).
  exists embedding, calls', md'. rewrite Hrun.
  assert (Hpath : metadata_get md' (s "path") (s "text") = file_path).
  { unfold metadata_get, md'. now rewrite dict_get_set_same. }
  rewrite Hpath. split; [reflexivity|]. split; [apply dict_get_set_same|].
  split.
  - unfold md'. rewrite dict_get_set_other by discriminate.
    apply dict_get_set_same.
  - intros k Hk1 Hk2. unfold md'.
    now rewrite !dict_get_set_other by assumption.
Qed.

Lemma add_document_one_chunk_witness :
  exists embedding calls' md',
    add_document 0 obliging_env small_processor (s "note.md")
      [(s "path", s "elsewhere")] empty_world
    = Some ((true, 1%nat),
            md',
            {| vector_store :=
                 {| store :=
                      [single_point (s "note.md") md' 1700000000
                         (s "2023-11-14 22:13:20") (s "hello") embedding];
                    upsert_calls := 1;
                    requests :=
                      [[single_point (s "note.md") md' 1700000000
                          (s "2023-11-14 22:13:20") (s "hello") embedding]];
                    slept := [] |};
               api_calls := calls' |})
    /\ dict_get str_eq_dec (s "path") md' = Some (s "note.md").
Proof.
  destruct (add_document_one_chunk 0 obliging_env small_processor
              (s "note.md") [(s "path", s "elsewhere")] empty_world
              (s "2023-11-14 22:13:20")
              {| st_size := 5; readable := true; content := s "hello" |}
              eq_refl ltac:(cbn; lia) eq_refl ltac:(discriminate)
              ltac:(cbn; lia)
              obliging_well_sized obliging_never_transient
              (fun _ => eq_refl) eq_refl)
    as (embedding & calls' & md' & H & Hp & _).
  exists embedding, calls', md'. now split.
Defined.

End ProcessExtras.

(** ** The shape of an identifier *)

Module UuidExtras.
Import Py PyFacts Sha1 Uuid Versioning.

(** The version digit of a UUID made by [set_version 5]. *)
Lemma version_nibble (d : Z) : Z.shiftr (set_version 5 d) 76 mod 16 = 5.
Proof.
  change 16 with (2 ^ 4). rewrite <- Z.land_ones by lia.
  apply Z.bits_inj'. intros n Hn.
  rewrite Z.land_spec, Z.shiftr_spec by lia.
  destruct (Z.lt_ge_cases n 4) as [Hlt|Hge].
  - unfold set_version. cbv zeta.
    rewrite Z.lor_spec, Z.land_spec, Z.lnot_spec by lia.
    assert (Hcases : n = 0 \/ n = 1 \/ n = 2 \/ n = 3) by lia.
    destruct Hcases as [-> | [-> | [-> | ->]]];
      match goal with
      | |- context [Z.testbit (Z.shiftl 61440 64) ?k] =>
          replace (Z.testbit (Z.shiftl 61440 64) k) with true by reflexivity
      end;
      cbn [negb]; rewrite andb_false_r; reflexivity.
  - rewrite Z.ones_spec_high by lia. rewrite andb_false_r.
    symmetry. apply Z.bits_above_log2; [lia|].
    change (Z.log2 5) with 2. lia.
Qed.

Lemma nth_error_slice_0 {A} (l : list A) (a b : Z) :
  0 <= a < b -> b <= len l ->
  nth_error (slice l a b) 0 = nth_error l (Z.to_nat a).
Proof.
  intros Ha Hb. unfold slice. rewrite !(adjust_id (len l)) by lia.
  destruct (Z.to_nat (b - a)) as [|k] eqn:E; [lia|].
  generalize (Z.to_nat a). clear. intros n. revert l.
  induction n as [|n IH]; intros [|x l]; cbn; try reflexivity.
  apply IH.
Qed.

Lemma hex_length (n : nat) (x : Z) : List.length (hex n x) = n.
Proof. unfold hex. now rewrite length_map, length_rev, length_seq. Qed.

(** Five groups of 8, 4, 4, 4 and 12 characters joined by hyphens. *)
Lemma grouped_shape (A B C D E : str) :
  List.length A = 8%nat -> List.length B = 4%nat -> List.length C = 4%nat ->
  List.length D = 4%nat -> List.length E = 12%nat ->
  let u := A ++ s "-" ++ B ++ s "-" ++ C ++ s "-" ++ D ++ s "-" ++ E in
  List.length u = 36%nat
  /\ nth_error u 8 = Some "-"%char /\ nth_error u 13 = Some "-"%char
  /\ nth_error u 18 = Some "-"%char /\ nth_error u 23 = Some "-"%char
  /\ nth_error u 14 = nth_error C 0.
Proof.
  intros HA HB HC HD HE.
  do 9 (destruct A as [|? A]; try discriminate HA).
  do 5 (destruct B as [|? B]; try discriminate HB).
  do 5 (destruct C as [|? C]; try discriminate HC).
  do 5 (destruct D as [|? D]; try discriminate HD).
  cbn [app s list_ascii_of_string List.length nth_error].
  rewrite HE. repeat split.
Qed.

(** X26: every identifier [create_versioned_id] returns is a string of
    36 characters with hyphens at positions 8, 13, 18 and 23 and the
    version digit 5 at position 14. *)
Theorem create_versioned_id_shape (path : str) (timestamp chunk_index : Z) :
  let u := create_versioned_id path timestamp chunk_index in
  List.length u = 36%nat
  /\ nth_error u 8 = Some "-"%char /\ nth_error u 13 = Some "-"%char
  /\ nth_error u 18 = Some "-"%char /\ nth_error u 23 = Some "-"%char
  /\ nth_error u 14 = Some "5"%char.
Proof.
  unfold create_versioned_id, uuid5. cbv zeta.
  set (d := digest128 NAMESPACE_URL _).
  unfold uuid_str. cbv zeta.
  set (h := hex 32 (set_version 5 d)).
  assert (Hh : len h = 32) by (unfold len, h; now rewrite hex_length).
  assert (Hlen : forall a b, 0 <= a <= b -> b <= 32 ->
                   List.length (slice h a b) = Z.to_nat (b - a)).
  { intros a b Ha Hb. pose proof (len_slice h a b Ha ltac:(lia)) as H.
    unfold len in H. lia. }
  destruct (grouped_shape (slice h 0 8) (slice h 8 12) (slice h 12 16)
              (slice h 16 20) (slice h 20 32))
    as (H1 & H2 & H3 & H4 & H5 & H6);
    try (rewrite Hlen by lia; reflexivity).
  repeat split; try assumption.
  rewrite H6, nth_error_slice_0 by lia.
  unfold h, hex.
  change (Z.to_nat 12) with 12%nat.
  rewrite nth_error_map.
  change (nth_error (rev (seq 0 32)) 12) with (Some 19%nat).
  cbn [option_map]. change (4 * Z.of_nat 19) with 76.
  now rewrite version_nibble.
Qed.

End UuidExtras.

(** ** cli.py: the extension list *)

Module CliExtras.
Import Py PyStr Cli SingleEmbeddingExtras ExtraProperties.

Lemma split_not_nil (sep : ascii) (t : str) : split sep t <> [].
Proof.
  destruct t as [|c t]; cbn [split]; [discriminate|].
  destruct (Ascii.eqb c sep); [discriminate|].
  destruct (split sep t); discriminate.
Qed.

Lemma split_length (sep : ascii) (t : str) :
  List.length (split sep t) = S (count_occ ascii_dec t sep).
Proof.
  induction t as [|c t IH]; cbn [split count_occ]; [reflexivity|].
  destruct (Ascii.eqb_spec c sep) as [->|Hne].
  - destruct (ascii_dec sep sep); [|congruence]. cbn [List.length].
    now rewrite IH.
  - destruct (ascii_dec c sep); [congruence|].
    destruct (split sep t) as [|p ps] eqn:E;
      [now apply split_not_nil in E|].
    cbn [List.length] in *. exact IH.
Qed.

Lemma split_no_sep (sep : ascii) (t : str) (p : str) :
  In p (split sep t) -> ~ In sep p.
Proof.
  revert p. induction t as [|c t IH]; intros p; cbn [split].
  - intros [<-|[]] [].
  - destruct (Ascii.eqb_spec c sep) as [->|Hne].
    + intros [<-|H]; [intros [] | now apply IH].
    + destruct (split sep t) as [|q qs] eqn:E;
        [now apply split_not_nil in E|].
      intros [<-|H].
      * intros [Hc|Hin]; [congruence|]. revert Hin. apply IH. now left.
      * apply IH. now right.
Qed.

(** Joining the pieces with the separator gives the text back. *)
Lemma join_split (sep : ascii) (t : str) : join [sep] (split sep t) = t.
Proof.
  induction t as [|c t IH]; cbn [split]; [reflexivity|].
  destruct (Ascii.eqb_spec c sep) as [->|Hne].
  - destruct (split sep t) as [|q qs] eqn:E;
      [now apply split_not_nil in E|].
    cbn [join app] in *. now rewrite IH.
  - destruct (split sep t) as [|q qs] eqn:E;
      [now apply split_not_nil in E|].
    destruct qs as [|q' qs]; cbn [join app] in *; now rewrite IH.
Qed.

Lemma lstrip_In (t : str) (c : ascii) : In c (lstrip t) -> In c t.
Proof.
  destruct (lstrip_suffix t) as (front & Hf & _). intros H.
  rewrite Hf. apply in_or_app. now right.
Qed.

Lemma strip_In (t : str) (c : ascii) : In c (strip t) -> In c t.
Proof.
  unfold strip. intros H. apply in_rev in H. apply lstrip_In in H.
  apply in_rev in H. now apply lstrip_In in H.
Qed.

Lemma lstrip_head (t : str) :
  match lstrip t with
  | [] => True
  | c :: _ => is_space c = false
  end.
Proof.
  destruct (lstrip_blank_or_head t) as [->|(c & rest & -> & H)];
    [exact I | exact H].
Qed.

Lemma strip_trimmed (t : str) : trimmed (strip t).
Proof.
  unfold trimmed, strip. split.
  - destruct (rev (lstrip (rev (lstrip t)))) as [|c r] eqn:E; [exact I|].
    apply (f_equal (@rev ascii)) in E. rewrite rev_involutive in E.
    destruct (lstrip_suffix (rev (lstrip t))) as (front & Hf & _).
    rewrite E in Hf. cbn [rev] in Hf.
    apply (f_equal (@rev ascii)) in Hf. rewrite rev_involutive in Hf.
    rewrite !rev_app_distr in Hf. cbn [rev app] in Hf.
    pose proof (lstrip_head t) as Hh. rewrite Hf in Hh. exact Hh.
  - rewrite rev_involutive. apply lstrip_head.
Qed.

Lemma lstrip_id (t : str) :
  Forall (fun c => is_space c = false) t -> lstrip t = t.
Proof.
  destruct t as [|c t]; [reflexivity|]. inversion 1 as [|? ? Hc _]; subst.
  cbn [lstrip]. now rewrite Hc.
Qed.

Lemma strip_id (t : str) :
  Forall (fun c => is_space c = false) t -> strip t = t.
Proof.
  intros H. unfold strip. rewrite (lstrip_id t H).
  rewrite lstrip_id; [apply rev_involutive|].
  apply Forall_forall. intros c Hc. apply in_rev in Hc.
  rewrite Forall_forall in H. now apply H.
Qed.

(** X27: for a non-empty argument, [parse_file_extensions] returns one
    entry per comma-separated field (one more than there are commas), and
    no entry contains a comma or begins or ends with whitespace. *)
Theorem parse_file_extensions_fields (extensions_str : str) :
  extensions_str <> [] ->
  List.length (parse_file_extensions extensions_str)
  = S (count_occ ascii_dec extensions_str comma)
  /\ forall ext, In ext (parse_file_extensions extensions_str) ->
                 ~ In comma ext /\ trimmed ext.
Proof.
  intros Hne. unfold parse_file_extensions. fold comma.
  destruct extensions_str as [|c t]; [congruence|].
  split; [rewrite length_map; apply split_length|].
  intros ext Hin. apply in_map_iff in Hin. destruct Hin as (p & <- & Hp).
  split; [|apply strip_trimmed].
  intros H. apply strip_In in H. revert H. now apply (split_no_sep comma (c :: t)).
Qed.

Lemma parse_file_extensions_fields_witness :
  s " md, txt ,,py" <> []
  /\ parse_file_extensions (s " md, txt ,,py") = [s "md"; s "txt"; s ""; s "py"]
  /\ List.length (parse_file_extensions (s " md, txt ,,py")) = 4%nat.
Proof.
  split; [discriminate|]. split; [reflexivity|].
  exact (proj1 (parse_file_extensions_fields (s " md, txt ,,py")
                  ltac:(discriminate))).
Defined.

(** X28: a non-empty argument without whitespace is recovered by joining
    the parsed extensions with commas. *)
Theorem parse_file_extensions_join (extensions_str : str) :
  extensions_str <> [] ->
  Forall (fun c => is_space c = false) extensions_str ->
  join [comma] (parse_file_extensions extensions_str) = extensions_str.
Proof.
  intros Hne Hns. unfold parse_file_extensions. fold comma.
  destruct extensions_str as [|c t]; [congruence|].
  set (text := c :: t) in *.
  assert (Hmap : map strip (split comma text) = split comma text).
  { rewrite <- (map_id (split comma text)) at 2. apply map_ext_in.
    intros p Hp. apply strip_id. apply Forall_forall. intros x Hx.
    rewrite Forall_forall in Hns. apply Hns.
    rewrite <- (join_split comma text). clear -Hp Hx.
    induction (split comma text) as [|q qs IH]; [destruct Hp|].
    destruct qs as [|q' qs].
    - destruct Hp as [->|[]]. exact Hx.
    - cbn [join]. apply in_or_app. destruct Hp as [->|Hp]; [now left|].
      right. apply in_or_app. right. now apply IH. }
  rewrite Hmap. apply join_split.
Qed.

Lemma parse_file_extensions_join_witness :
  s ".md,.txt" <> []
  /\ Forall (fun c => is_space c = false) (s ".md,.txt")
  /\ join [comma] (parse_file_extensions (s ".md,.txt")) = s ".md,.txt".
Proof.
  assert (H : Forall (fun c => is_space c = false) (s ".md,.txt"))
    by (repeat constructor).
  split; [discriminate|]. split; [exact H|].
  exact (parse_file_extensions_join (s ".md,.txt") ltac:(discriminate) H).
Defined.

End CliExtras.

(** ** knowledge_base.py: query *)

Module KbQueryExtras.
Import Py PyFacts PyData PyDataFacts Qdrant VectorStore QueryFacts
  QueryExtras Properties ExtraProperties.

(** Formatting keeps the order of the hits, hence their ranking. *)
Lemma flat_map_format_sorted (hits : list ScoredPoint) :
  StronglySorted (fun a b => (score b <= score a)%Q) hits ->
  StronglySorted (fun a b => (r_score b <= r_score a)%Q)
    (flat_map format_hit hits).
Proof.
  induction 1 as [|h hits Hs IH Hall]; cbn [flat_map]; [constructor|].
  unfold format_hit at 1. destruct (hit_payload h) as [pl|]; [|exact IH].
  cbn [app]. constructor; [exact IH|].
  apply Forall_forall. intros r Hr. apply in_flat_map in Hr.
  destruct Hr as (h' & Hin & Hr). rewrite Forall_forall in Hall.
  specialize (Hall h' Hin). unfold format_hit in Hr.
  destruct (hit_payload h') as [pl'|]; [|destruct Hr].
  destruct Hr as [<-|[]]. exact Hall.
Qed.

(** X29: for a non-negative limit, [KnowledgeBase.query] returns at most
    [limit] results, in order of non-increasing score; it returns none
    when the search raises. *)
Theorem kb_query_ranked (search : Z -> option (list ScoredPoint))
    (limit : Z) :
  0 <= limit ->
  (List.length (KnowledgeBaseText.query search limit) <= Z.to_nat limit)%nat
  /\ StronglySorted (fun a b => (r_score b <= r_score a)%Q)
       (KnowledgeBaseText.query search limit)
  /\ (search (limit * 3) = None -> KnowledgeBaseText.query search limit = []).
Proof.
  intros H. unfold KnowledgeBaseText.query, query.
  destruct (search (limit * 3)) as [search_result|];
    [|repeat split; [cbn; lia | constructor]].
  rewrite latest_only_filter_ranked by exact H. split; [|split].
  - etransitivity; [apply flat_map_format_length|].
    rewrite length_firstn. apply Nat.le_min_l.
  - apply flat_map_format_sorted, StronglySorted_firstn, ranked_sorted.
  - discriminate.
Qed.

Lemma kb_query_ranked_witness :
  0 <= 1
  /\ (List.length
        (KnowledgeBaseText.query
           (fun _ => Some [doc_hit 100 0.9; doc_hit 200 0.7]) 1)
      <= 1)%nat.
Proof.
  split; [lia|].
  exact (proj1 (kb_query_ranked
                  (fun _ => Some [doc_hit 100 0.9; doc_hit 200 0.7]) 1
                  ltac:(lia))).
Defined.

End KbQueryExtras.

(** ** versioning.py: when two identifiers are equal *)

Module IdExtras.
Import Py PyFacts Sha1 Uuid Versioning IdFacts SliceFacts UuidExtras.

Lemma hex_digits_NoDup : NoDup (s "0123456789abcdef").
Proof.
  cbn [s list_ascii_of_string].
  repeat (constructor;
          [intros H; cbn [In] in H;
           repeat (destruct H as [H|H]; [discriminate H|]); exact H|]).
  constructor.
Qed.

Lemma hex_digit_inj (a b : Z) :
  0 <= a < 16 -> 0 <= b < 16 -> hex_digit a = hex_digit b -> a = b.
Proof.
  intros Ha Hb H. unfold hex_digit in H.
  assert (E : Z.to_nat a = Z.to_nat b); [|lia].
  apply (proj1 (NoDup_nth (s "0123456789abcdef") "0"%char) hex_digits_NoDup);
    [cbn; lia | cbn; lia | exact H].
Qed.

(** The digits of [hex n] are the low [4 * n] bits. *)
Lemma hex_inj (n : nat) (x y : Z) :
  hex n x = hex n y -> x mod 2 ^ (4 * Z.of_nat n) = y mod 2 ^ (4 * Z.of_nat n).
Proof.
  unfold hex. intros H.
  assert (Hnib : forall k, (k < n)%nat ->
            Z.shiftr x (4 * Z.of_nat k) mod 16
            = Z.shiftr y (4 * Z.of_nat k) mod 16).
  { intros k Hk. apply hex_digit_inj; try (apply Z.mod_pos_bound; lia).
    pose proof (proj1 (@map_ext_in_iff _ _ _ _ _) H) as Hall.
    cbn beta in Hall. apply Hall. apply in_rev. rewrite rev_involutive.
    apply in_seq. lia. }
  apply Z.bits_inj'. intros m Hm.
  destruct (Z.lt_ge_cases m (4 * Z.of_nat n)) as [Hlt|Hge].
  2:{ now rewrite !Z.mod_pow2_bits_high by lia. }
  rewrite !Z.mod_pow2_bits_low by lia.
  set (k := Z.to_nat (m / 4)).
  assert (Hk : (k < n)%nat).
  { unfold k. apply Nat2Z.inj_lt. rewrite Z2Nat.id by (apply Z.div_pos; lia).
    apply Z.div_lt_upper_bound; lia. }
  assert (Hsplit : m = m mod 4 + 4 * Z.of_nat k).
  { unfold k. rewrite Z2Nat.id by (apply Z.div_pos; lia).
    pose proof (Z.div_mod m 4 ltac:(lia)). lia. }
  pose proof (Z.mod_pos_bound m 4 ltac:(lia)) as Hj.
  assert (Hbit : forall z,
            Z.testbit z m
            = Z.testbit (Z.shiftr z (4 * Z.of_nat k) mod 2 ^ 4) (m mod 4)).
  { intros z. rewrite Z.mod_pow2_bits_low by lia.
    rewrite Z.shiftr_spec by lia. now rewrite <- Hsplit. }
  rewrite (Hbit x), (Hbit y). change (2 ^ 4) with 16.
  now rewrite (Hnib k Hk).
Qed.

Lemma app_inj_length {A} (a a' b b' : list A) :
  List.length a = List.length a' -> a ++ b = a' ++ b' -> a = a' /\ b = b'.
Proof.
  revert a'. induction a as [|x a IH]; intros [|x' a'] Hlen H;
    try discriminate Hlen; cbn [app] in H.
  - now split.
  - injection H as -> H. cbn [List.length] in Hlen.
    destruct (IH a' ltac:(lia) H) as [-> ->]. now split.
Qed.

(** The groups of [uuid_str] are the 32 digits, in order. *)
Lemma uuid_str_digits (i j : Z) :
  uuid_str i = uuid_str j -> hex 32 i = hex 32 j.
Proof.
  unfold uuid_str. cbv zeta.
  set (h := hex 32 i). set (h' := hex 32 j).
  assert (Hh : len h = 32) by (unfold len, h; now rewrite hex_length).
  assert (Hh' : len h' = 32) by (unfold len, h'; now rewrite hex_length).
  assert (Hlen : forall a b, 0 <= a <= b -> b <= 32 ->
                   List.length (slice h a b) = List.length (slice h' a b)).
  { intros a b Ha Hb.
    pose proof (len_slice h a b Ha ltac:(lia)) as H1.
    pose proof (len_slice h' a b Ha ltac:(lia)) as H2.
    unfold len in H1, H2. lia. }
  intros H.
  apply app_inj_length in H; [|apply Hlen; lia]. destruct H as [E1 H].
  apply (app_inj_length (s "-") (s "-")) in H; [|reflexivity].
  destruct H as [_ H].
  apply app_inj_length in H; [|apply Hlen; lia]. destruct H as [E2 H].
  apply (app_inj_length (s "-") (s "-")) in H; [|reflexivity].
  destruct H as [_ H].
  apply app_inj_length in H; [|apply Hlen; lia]. destruct H as [E3 H].
  apply (app_inj_length (s "-") (s "-")) in H; [|reflexivity].
  destruct H as [_ H].
  apply app_inj_length in H; [|apply Hlen; lia]. destruct H as [E4 H].
  apply (app_inj_length (s "-") (s "-")) in H; [|reflexivity].
  destruct H as [_ E5].
  assert (Hglue : forall l : str, len l = 32 ->
            l = slice l 0 8 ++ slice l 8 12 ++ slice l 12 16
                ++ slice l 16 20 ++ slice l 20 32).
  { intros l Hl.
    rewrite (slice_glue_gen l 16 20 32), (slice_glue_gen l 12 16 32),
      (slice_glue_gen l 8 12 32), (slice_glue_gen l 0 8 32) by lia.
    rewrite <- Hl. symmetry. apply slice_all. }
  rewrite (Hglue h Hh), (Hglue h' Hh'). now rewrite E1, E2, E3, E4, E5.
Qed.

(** A version-5 UUID is a number of 128 bits. *)
Lemma set_version_range (d : Z) :
  0 <= d < 2 ^ 128 -> 0 <= set_version 5 d < 2 ^ 128.
Proof.
  intros Hd.
  assert (Hnn : 0 <= set_version 5 d).
  { unfold set_version. cbv zeta.
    apply Z.lor_nonneg. split; [|cbn; lia].
    apply Z.land_nonneg. left.
    apply Z.lor_nonneg. split; [|cbn; lia].
    apply Z.land_nonneg. now left. }
  split; [exact Hnn|].
  assert (E : set_version 5 d = set_version 5 d mod 2 ^ 128);
    [|rewrite E; apply Z.mod_pos_bound; lia].
  apply Z.bits_inj'. intros n Hn.
  destruct (Z.lt_ge_cases n 128) as [Hlt|Hge];
    [now rewrite Z.mod_pow2_bits_low by lia|].
  rewrite Z.mod_pow2_bits_high by lia.
  assert (Hhigh : forall c, 0 <= c < 2 ^ 128 -> Z.testbit c n = false).
  { intros c Hc. destruct (Z.eq_dec c 0) as [->|Hnz];
      [apply Z.bits_0|].
    apply Z.bits_above_log2; [lia|].
    assert (Z.log2 c < 128) by (apply Z.log2_lt_pow2; lia). lia. }
  unfold set_version. cbv zeta.
  rewrite Z.lor_spec, Z.land_spec, Z.lor_spec, Z.land_spec.
  rewrite (Hhigh d Hd).
  rewrite (Hhigh (Z.shiftl 32768 48)) by (cbn; lia).
  rewrite (Hhigh (Z.shiftl 5 76)) by (cbn; lia).
  reflexivity.
Qed.

Lemma uuid5_range (namespace : Z) (name : str) :
  0 <= uuid5 namespace name < 2 ^ 128.
Proof. unfold uuid5. apply set_version_range, digest128_range. Qed.

(** X30: the name [f"{path}_{timestamp}_{chunk_index}"] determines the
    triple, so distinct triples are hashed under distinct names; and two
    identifiers are equal exactly when the version-5 UUIDs of the two
    names are the same number: writing the UUID as a string loses
    nothing.  Two distinct triples thus share an identifier only where
    [uuid5] collides on two distinct names. *)
Theorem create_versioned_id_equal (p p' : str) (t t' i i' : Z) :
  (versioned_name p t i = versioned_name p' t' i'
   <-> p = p' /\ t = t' /\ i = i')
  /\ (create_versioned_id p t i = create_versioned_id p' t' i'
      <-> uuid5 NAMESPACE_URL (versioned_name p t i)
          = uuid5 NAMESPACE_URL (versioned_name p' t' i'))
  /\ (create_versioned_id p t i = create_versioned_id p' t' i' ->
      (p, t, i) <> (p', t', i') ->
      versioned_name p t i <> versioned_name p' t' i'
      /\ uuid5 NAMESPACE_URL (versioned_name p t i)
         = uuid5 NAMESPACE_URL (versioned_name p' t' i')).
Proof.
  assert (Hname : versioned_name p t i = versioned_name p' t' i'
                  <-> p = p' /\ t = t' /\ i = i').
  { split; [apply versioned_name_inj | now intros (-> & -> & ->)]. }
  assert (Hid : create_versioned_id p t i = create_versioned_id p' t' i'
                <-> uuid5 NAMESPACE_URL (versioned_name p t i)
                    = uuid5 NAMESPACE_URL (versioned_name p' t' i')).
  { unfold create_versioned_id. cbv zeta. split; [|now intros ->].
    intros H. apply uuid_str_digits, hex_inj in H.
    change (4 * Z.of_nat 32) with 128 in H.
    rewrite !Z.mod_small in H by apply uuid5_range. exact H. }
  split; [exact Hname|]. split; [exact Hid|].
  intros E Hne. split; [|now apply Hid].
  intros En. apply Hname in En. destruct En as (-> & -> & ->). now apply Hne.
Qed.

Lemma create_versioned_id_equal_witness :
  versioned_name (s "a_1") 2 3 <> versioned_name (s "a") 1 23
  /\ create_versioned_id (s "doc.md") 100 0
     <> create_versioned_id (s "doc.md") 100 1.
Proof.
  split.
  - intros E.
    apply (proj1 (create_versioned_id_equal (s "a_1") (s "a") 2 1 3 23)) in E.
    destruct E as (E & _). discriminate E.
  - intros E.
    apply (proj1 (proj2 (create_versioned_id_equal
                           (s "doc.md") (s "doc.md") 100 100 0 1))) in E.
    vm_compute in E. discriminate E.
Defined.

End IdExtras.
